(** * Shopify Admin REST client: case conversion, request execution,
      query building and Markdown rendering.

    The development embeds the thin client core of the repository:
    [snakeToCamel], [camelToSnake], [transformKeys] and the class
    [ShopifyClientImpl] of the client module, the renderers of
    [utils/formatters.ts] and the utilities of [utils/pagination.ts].

    Conventions of the embedding.
    - A JavaScript string is a [string], the sequence of its UTF-8 bytes.
      The regular expressions of the program only name ASCII characters;
      case mapping and white space are those of ASCII.
    - A JavaScript number is an integer of [Z], or [NaN].  Fractions and
      infinities do not occur in the properties stated here.  The
      program's numbers are doubles: an integer of the model is a number
      of the program, printed and parsed digit by digit, up to
      [2^53 - 1] in magnitude ([Domain.safe_integer]); the properties
      that read or print a number of the data are stated within that
      bound.
    - A JavaScript object is the list of its own enumerable properties, in
      the order [Object.entries] lists them (the order decides the query
      string and the lines of the Markdown text); an array is the list of
      its elements.  The values are the plain data that [JSON.parse] and
      object literals build: prototype chains are not represented, so an
      object that carries a property [toString] of its own, and a key that
      names a member of a built-in prototype
      ([Domain.prototype_members]), are outside the model. *)

From Stdlib Require Import ZArith List String Ascii Bool Lia.
From Stdlib Require Import Decimal DecimalString DecimalPos.
Import ListNotations.

Local Open Scope list_scope.
Local Open Scope Z_scope.
Local Open Scope string_scope.

(** ** Characters and strings *)

Module Str.

Definition code (c : ascii) : nat := nat_of_ascii c.

Definition in_range (lo hi : nat) (c : ascii) : bool :=
  (Nat.leb lo (code c) && Nat.leb (code c) hi)%bool.

(** The character classes [A-Z], [a-z] and [0-9]. *)
Definition is_upper : ascii -> bool := in_range 65 90.
Definition is_lower : ascii -> bool := in_range 97 122.
Definition is_digit : ascii -> bool := in_range 48 57.

(** [toUpperCase] and [toLowerCase] on one ASCII character. *)
Definition to_upper (c : ascii) : ascii :=
  if is_lower c then ascii_of_nat (code c - 32) else c.
Definition to_lower (c : ascii) : ascii :=
  if is_upper c then ascii_of_nat (code c + 32) else c.

Definition underscore : ascii := "_"%char.
Definition dquote : ascii := "034"%char.
Definition backslash : ascii := "092"%char.
Definition newline : ascii := "010"%char.
Definition backtick : ascii := "096"%char.

Definition of_char (c : ascii) : string := String c EmptyString.

(** [Array.prototype.join] on strings. *)
Fixpoint join (sep : string) (parts : list string) : string :=
  match parts with
  | [] => ""
  | [p] => p
  | p :: rest => p ++ sep ++ join sep rest
  end.

(** [s.startsWith(t)]. *)
Fixpoint starts_with (t s : string) : bool :=
  match t with
  | EmptyString => true
  | String a t' =>
      match s with
      | EmptyString => false
      | String b s' => (Ascii.eqb a b && starts_with t' s')%bool
      end
  end.

(** [s.includes(t)]: [t] occurs in [s]. *)
Fixpoint includes (t s : string) : bool :=
  if starts_with t s then true
  else match s with
       | EmptyString => false
       | String _ rest => includes t rest
       end.

(** White space of [String.prototype.trim] within ASCII. *)
Definition is_space (c : ascii) : bool :=
  let n := code c in
  (Nat.eqb n 32 || (Nat.leb 9 n && Nat.leb n 13))%bool.

Fixpoint trim_start (s : string) : string :=
  match s with
  | String c rest => if is_space c then trim_start rest else s
  | EmptyString => EmptyString
  end.

(** Drops trailing white space: a character is kept when something that is
    kept follows it, or when it is not white space. *)
Fixpoint trim_end (s : string) : string :=
  match s with
  | EmptyString => EmptyString
  | String c rest =>
      match trim_end rest with
      | EmptyString => if is_space c then EmptyString else of_char c
      | kept => String c kept
      end
  end.

Definition trim (s : string) : string := trim_end (trim_start s).

(** Decimal numeral of an integer, as [Number.prototype.toString] prints
    an integer. *)
Definition of_Z (n : Z) : string := NilZero.string_of_int (Z.to_int n).
Definition of_nat (n : nat) : string := of_Z (Z.of_nat n).

Definition digit_value (c : ascii) : Z := Z.of_nat (code c - 48).

(** Lower-case hexadecimal digit. *)
Definition hex_lower (n : nat) : ascii :=
  if Nat.ltb n 10 then ascii_of_nat (48 + n) else ascii_of_nat (87 + n).
Definition hex_upper (n : nat) : ascii :=
  if Nat.ltb n 10 then ascii_of_nat (48 + n) else ascii_of_nat (55 + n).

End Str.

(** ** JavaScript values *)

Module Js.

Inductive number : Type :=
| Num (z : Z)
| NaN.

Unset Elimination Schemes.
Inductive value : Type :=
| VUndefined
| VNull
| VBool (b : bool)
| VNum (n : number)
| VStr (s : string)
| VArr (items : list value)
| VObj (props : list (string * value)).
Set Elimination Schemes.

Definition props : Type := list (string * value).

(** *** Conversions and operators *)

(** [ToBoolean]: the test of [if], [?:], [||] and [&&]. *)
Definition truthy (v : value) : bool :=
  match v with
  | VUndefined | VNull => false
  | VBool b => b
  | VNum (Num z) => negb (Z.eqb z 0)
  | VNum NaN => false
  | VStr s => negb (String.eqb s "")
  | VArr _ | VObj _ => true
  end.

(** [a || b]. *)
Definition or_else (a b : value) : value := if truthy a then a else b.

(** [v === undefined || v === null]. *)
Definition nullish (v : value) : bool :=
  match v with
  | VUndefined | VNull => true
  | _ => false
  end.

(** [Array.isArray]. *)
Definition isArray (v : value) : bool :=
  match v with
  | VArr _ => true
  | _ => false
  end.

(** [typeof v === 'object']: objects, arrays and [null]. *)
Definition typeof_object (v : value) : bool :=
  match v with
  | VNull | VArr _ | VObj _ => true
  | _ => false
  end.

Definition number_to_string (n : number) : string :=
  match n with
  | Num z => Str.of_Z z
  | NaN => "NaN"
  end.

(** [String(v)], also the conversion of a template literal.  An array
    joins its elements with commas, [null] and [undefined] elements giving
    the empty string; a plain object prints as [[object Object]] (an object
    carrying a property [toString] of its own, or whose prototype an
    assignment to [__proto__] has replaced, is outside the model).  An
    integer is printed in full, as the program prints it below [10^21];
    from there on the program writes an exponent. *)
Fixpoint to_string (v : value) : string :=
  match v with
  | VUndefined => "undefined"
  | VNull => "null"
  | VBool true => "true"
  | VBool false => "false"
  | VNum n => number_to_string n
  | VStr s => s
  | VArr items =>
      Str.join "," (map (fun x => if nullish x then "" else to_string x) items)
  | VObj _ => "[object Object]"
  end.

(** [items.join(sep)]. *)
Definition array_join (sep : string) (items : list value) : string :=
  Str.join sep (map (fun x => if nullish x then "" else to_string x) items).

Definition number_eqb (a b : number) : bool :=
  match a, b with
  | Num x, Num y => Z.eqb x y
  | _, _ => false
  end.

(** [a === b].  Two objects or arrays are compared by identity; the
    program only compares a length with a number, so they are different
    here. *)
Definition strict_eq (a b : value) : bool :=
  match a, b with
  | VUndefined, VUndefined => true
  | VNull, VNull => true
  | VBool x, VBool y => Bool.eqb x y
  | VNum x, VNum y => number_eqb x y
  | VStr x, VStr y => String.eqb x y
  | _, _ => false
  end.

(** [parseInt(s, 10)]: leading white space, an optional sign, then the
    longest run of decimal digits; [NaN] when there is none.  The value
    is exact here; the program's is the nearest double, the same number
    up to [2^53] in magnitude.  The white space is that of ASCII. *)
Fixpoint digits_prefix (acc : Z) (s : string) : Z :=
  match s with
  | String c rest =>
      if Str.is_digit c then digits_prefix (10 * acc + Str.digit_value c) rest
      else acc
  | EmptyString => acc
  end.

Definition starts_with_digit (s : string) : bool :=
  match s with
  | String c _ => Str.is_digit c
  | EmptyString => false
  end.

Definition parseInt (s : string) : number :=
  let s := Str.trim_start s in
  let '(sign, s) :=
    match s with
    | String "-" rest => (-1, rest)
    | String "+" rest => (1, rest)
    | _ => (1, s)
    end in
  if starts_with_digit s then Num (sign * digits_prefix 0 s) else NaN.

(** *** Own properties and their order *)

(** An array index is the canonical numeral of an integer below
    [2^32 - 1]; such keys are listed first, in ascending order, before the
    other keys in insertion order. *)
Fixpoint all_digits (s : string) : bool :=
  match s with
  | String c rest => (Str.is_digit c && all_digits rest)%bool
  | EmptyString => true
  end.

Definition array_index (key : string) : option Z :=
  match key with
  | EmptyString => None
  | String c rest =>
      if (Ascii.eqb c "0" && negb (String.eqb rest ""))%bool then None
      else if all_digits key then
        let n := digits_prefix 0 key in
        if Z.leb n 4294967294 then Some n else None
      else None
  end.

Fixpoint lookup (key : string) (ps : props) : option value :=
  match ps with
  | [] => None
  | (k, v) :: rest => if String.eqb k key then Some v else lookup key rest
  end.

Definition has_key (key : string) (ps : props) : bool :=
  match lookup key ps with
  | Some _ => true
  | None => false
  end.

Fixpoint replace_value (key : string) (v : value) (ps : props) : props :=
  match ps with
  | [] => []
  | (k, x) :: rest =>
      if String.eqb k key then (k, v) :: rest
      else (k, x) :: replace_value key v rest
  end.

Fixpoint insert_index (n : Z) (key : string) (v : value) (ps : props) : props :=
  match ps with
  | [] => [(key, v)]
  | (k, x) :: rest =>
      match array_index k with
      | Some m => if Z.ltb m n then (k, x) :: insert_index n key v rest
                  else (key, v) :: ps
      | None => (key, v) :: ps
      end
  end.

(** [obj[key] = v] on a plain object.  An existing property keeps its
    place; a new one is placed by the property order.  The key [__proto__]
    reaches the setter of [Object.prototype] and creates no own property:
    the list of own properties is left as it is.  (When the value assigned
    is an object, an array or [null] the setter replaces the prototype,
    which the model does not represent: what the object then inherits, and
    how [String] prints it, is outside the model.) *)
Definition obj_set (key : string) (v : value) (ps : props) : props :=
  if String.eqb key "__proto__" then ps
  else if has_key key ps then replace_value key v ps
  else match array_index key with
       | Some n => insert_index n key v ps
       | None => (ps ++ [(key, v)])%list
       end.

(** The keys of a well-formed object: pairwise distinct ... *)
Fixpoint distinct (keys : list string) : bool :=
  match keys with
  | [] => true
  | k :: rest => (negb (existsb (String.eqb k) rest) && distinct rest)%bool
  end.

(** ... and listed in property order: no array index after a key that is
    not one, and the array indices ascending. *)
Definition may_follow (k k' : string) : bool :=
  match array_index k, array_index k' with
  | Some n, Some m => Z.ltb n m
  | Some _, None => true
  | None, Some _ => false
  | None, None => true
  end.

Fixpoint in_property_order (keys : list string) : bool :=
  match keys with
  | [] => true
  | k :: rest => (forallb (may_follow k) rest && in_property_order rest)%bool
  end.

(** The keys of an object as [Object.entries] lists them. *)
Definition well_formed_keys (keys : list string) : bool :=
  (distinct keys && in_property_order keys)%bool.

(** Keys that [obj_set], run over them in turn from the empty object,
    writes one after the other: distinct, none the key [__proto__], and in
    property order. *)
Definition settable (keys : list string) : bool :=
  (distinct keys && negb (existsb (String.eqb "__proto__") keys)
   && in_property_order keys)%bool.

(** A value all of whose objects list their keys as JavaScript does. *)
Fixpoint well_formed (v : value) : bool :=
  match v with
  | VArr items => forallb well_formed items
  | VObj entries =>
      (well_formed_keys (map fst entries)
       && forallb (fun entry =>
                     match entry with
                     | (_, x) => well_formed x
                     end) entries)%bool
  | _ => true
  end.

(** Length of a string in UTF-16 code units, read off its UTF-8 bytes. *)
Fixpoint utf16_length (s : string) : Z :=
  match s with
  | EmptyString => 0
  | String c rest =>
      let n := Str.code c in
      (if (Nat.leb 128 n && Nat.ltb n 192)%bool then 0
       else if Nat.leb 240 n then 2 else 1) + utf16_length rest
  end.

(** [v.key] and [v[key]]; [None] is the [TypeError] of a read on [null] or
    [undefined].  Only own properties are found: the field names the
    program reads are not members of the built-in prototypes.  A read
    under a name taken from the data ([record[k]] in the generic table)
    agrees with the program when the name is not such a member
    ([Domain.inherited]).  Of a string the length is read, not its
    characters. *)
Definition get (v : value) (key : string) : option value :=
  match v with
  | VUndefined | VNull => None
  | VObj ps =>
      Some (match lookup key ps with Some x => x | None => VUndefined end)
  | VArr items =>
      Some (if String.eqb key "length" then VNum (Num (Z.of_nat (List.length items)))
            else match array_index key with
                 | Some i => nth (Z.to_nat i) items VUndefined
                 | None => VUndefined
                 end)
  | VStr s =>
      Some (if String.eqb key "length" then VNum (Num (utf16_length s))
            else VUndefined)
  | VBool _ | VNum _ => Some VUndefined
  end.

(** A read on a value known to be neither [null] nor [undefined]. *)
Definition prop (v : value) (key : string) : value :=
  match get v key with
  | Some x => x
  | None => VUndefined
  end.

(** [a ?? b]. *)
Definition nullish_else (a b : value) : value := if nullish a then b else a.

(** [key in v] for an object or an array. *)
Definition has_property (key : string) (v : value) : bool :=
  match v with
  | VObj ps => has_key key ps
  | VArr items =>
      (String.eqb key "length"
       || match array_index key with
          | Some i => Z.ltb i (Z.of_nat (List.length items))
          | None => false
          end)%bool
  | _ => false
  end.

(** The entries of an array: its indices and elements. *)
Fixpoint indexed (i : nat) (items : list value) : props :=
  match items with
  | [] => []
  | x :: rest => (Str.of_nat i, x) :: indexed (S i) rest
  end.

(** *** JSON.stringify *)

Definition escape_char (c : ascii) : string :=
  let n := Str.code c in
  if Nat.eqb n 34 then String Str.backslash (Str.of_char Str.dquote)
  else if Nat.eqb n 92 then String Str.backslash (Str.of_char Str.backslash)
  else if Nat.eqb n 8 then String Str.backslash "b"
  else if Nat.eqb n 9 then String Str.backslash "t"
  else if Nat.eqb n 10 then String Str.backslash "n"
  else if Nat.eqb n 12 then String Str.backslash "f"
  else if Nat.eqb n 13 then String Str.backslash "r"
  else if Nat.ltb n 32 then
    String Str.backslash
      ("u00" ++ String (Str.hex_lower (Nat.div n 16))
                 (Str.of_char (Str.hex_lower (Nat.modulo n 16))))
  else Str.of_char c.

Fixpoint escape (s : string) : string :=
  match s with
  | EmptyString => EmptyString
  | String c rest => escape_char c ++ escape rest
  end.

(** [QuoteJSONString]. *)
Definition quote (s : string) : string :=
  String Str.dquote (escape s ++ Str.of_char Str.dquote).

(** The text of an object or array from the texts of its members. *)
Definition bracket (opening closing gap indent inner : string)
    (parts : list string) : string :=
  match parts with
  | [] => opening ++ closing
  | _ =>
      if String.eqb gap "" then opening ++ Str.join "," parts ++ closing
      else opening ++ Str.of_char Str.newline ++ inner
           ++ Str.join ("," ++ Str.of_char Str.newline ++ inner) parts
           ++ Str.of_char Str.newline ++ indent ++ closing
  end.

(** [SerializeJSONProperty] with the gap [gap] at the indentation
    [indent]; [None] is [undefined]. *)
Fixpoint serialize (gap indent : string) (v : value) {struct v} : option string :=
  match v with
  | VUndefined => None
  | VNull => Some "null"
  | VBool true => Some "true"
  | VBool false => Some "false"
  | VNum (Num z) => Some (Str.of_Z z)
  | VNum NaN => Some "null"
  | VStr s => Some (quote s)
  | VArr items =>
      let inner := indent ++ gap in
      Some (bracket "[" "]" gap indent inner
              (map (fun x => match serialize gap inner x with
                             | Some t => t
                             | None => "null"
                             end) items))
  | VObj ps =>
      let inner := indent ++ gap in
      Some (bracket "{" "}" gap indent inner
              (flat_map (fun kv =>
                           match kv with
                           | (k, x) =>
                               match serialize gap inner x with
                               | Some t =>
                                   [quote k ++ ":"
                                    ++ (if String.eqb gap "" then "" else " ") ++ t]
                               | None => []
                               end
                           end) ps))
  end.

(** [JSON.stringify(v)] and [JSON.stringify(v, null, 2)]. *)
Definition JSON_stringify (v : value) : option string := serialize "" "" v.
Definition JSON_stringify_pretty (v : value) : option string := serialize "  " "" v.

End Js.

(** ** Case converter *)

Module CaseConverter.
Import Js.

(** [str.replace(/_([a-z])/g, (_, letter) => letter.toUpperCase())]:
    scanning from the left, an underscore followed by a lower-case letter
    is replaced by that letter in upper case; matches do not overlap. *)
Fixpoint snakeToCamel (str : string) : string :=
  match str with
  | EmptyString => EmptyString
  | String c rest =>
      match rest with
      | String letter rest' =>
          if (Ascii.eqb c Str.underscore && Str.is_lower letter)%bool
          then String (Str.to_upper letter) (snakeToCamel rest')
          else String c (snakeToCamel rest)
      | EmptyString => String c EmptyString
      end
  end.

(** [str.replace(/[A-Z]/g, (letter) => `_${letter.toLowerCase()}`)]. *)
Fixpoint camelToSnake (str : string) : string :=
  match str with
  | EmptyString => EmptyString
  | String letter rest =>
      if Str.is_upper letter
      then String Str.underscore (String (Str.to_lower letter) (camelToSnake rest))
      else String letter (camelToSnake rest)
  end.

(** [transformKeys(obj, transformer)].  The object case runs the loop
    [result[transformer(key)] = transformKeys(value, transformer)] over
    [Object.entries(obj)], starting from the empty object. *)
Fixpoint transformKeys (transformer : string -> string) (obj : value) : value :=
  match obj with
  | VUndefined | VNull => obj
  | VArr items => VArr (map (transformKeys transformer) items)
  | VObj entries =>
      VObj (fold_left
              (fun result entry =>
                 match entry with
                 | (key, value) =>
                     obj_set (transformer key) (transformKeys transformer value) result
                 end)
              entries [])
  | VBool _ | VNum _ | VStr _ => obj
  end.

(** The body of that loop, [result[transformer(key)] = transformKeys(value,
    transformer)], as a step on the object under construction. *)
Definition setEntry (transformer : string -> string) (result : props)
    (entry : string * value) : props :=
  match entry with
  | (key, value) => obj_set (transformer key) (transformKeys transformer value) result
  end.

Definition toCamelCase (obj : value) : value := transformKeys snakeToCamel obj.
Definition toSnakeCase (obj : value) : value := transformKeys camelToSnake obj.

(** The structural copy of the specification: every key of every mapping
    rewritten, sequences and mappings kept in shape, scalars kept. *)
Fixpoint rewriteKeys (f : string -> string) (v : value) : value :=
  match v with
  | VArr items => VArr (map (rewriteKeys f) items)
  | VObj entries =>
      VObj (map (fun entry =>
                   match entry with
                   | (key, x) => (f key, rewriteKeys f x)
                   end) entries)
  | _ => v
  end.

(** Every mapping inside [v] has keys that stay [settable] once rewritten
    by [f]: no two keys of one mapping are rewritten to the same key. *)
Fixpoint keys_kept (f : string -> string) (v : value) : bool :=
  match v with
  | VArr items => forallb (keys_kept f) items
  | VObj entries =>
      (settable (map (fun entry => f (fst entry)) entries)
       && forallb (fun entry =>
                     match entry with
                     | (_, x) => keys_kept f x
                     end) entries)%bool
  | _ => true
  end.

Definition starts_lower (s : string) : bool :=
  match s with
  | String c _ => Str.is_lower c
  | EmptyString => false
  end.

(** A key in which no underscore stands right before a lower-case
    letter: the keys [camelToSnake] and [snakeToCamel] take there and
    back. *)
Fixpoint canonical_camel (key : string) : bool :=
  match key with
  | EmptyString => true
  | String c rest =>
      (negb (Ascii.eqb c Str.underscore && starts_lower rest)
       && canonical_camel rest)%bool
  end.

(** Internal casing has no underscore, wire casing no upper-case letter. *)
Fixpoint no_underscore (key : string) : bool :=
  match key with
  | EmptyString => true
  | String c rest => (negb (Ascii.eqb c Str.underscore) && no_underscore rest)%bool
  end.

Fixpoint no_upper (key : string) : bool :=
  match key with
  | EmptyString => true
  | String c rest => (negb (Str.is_upper c) && no_upper rest)%bool
  end.

(** Every key of every mapping inside [v] satisfies [p]. *)
Fixpoint keys_all (p : string -> bool) (v : value) : bool :=
  match v with
  | VArr items => forallb (keys_all p) items
  | VObj entries =>
      (forallb p (map fst entries)
       && forallb (fun entry =>
                     match entry with
                     | (_, x) => keys_all p x
                     end) entries)%bool
  | _ => true
  end.

(** The field names declared by the entity types of [types/entities.ts]. *)
Definition schema_vocabulary : list string :=
[
  "acceptsMarketing"; "acceptsMarketingUpdatedAt"; "active"; "address"; "address1";
  "address2"; "addresses"; "adminGraphqlApiId"; "allocationLimit"; "allocationMethod"; "alt";
  "amount"; "amountSet"; "apiVersion"; "appliedDiscount"; "assignedLocationId"; "attachment";
  "attributionAppId"; "authorization"; "available"; "availableAdjustment"; "avsResultCode";
  "barcode"; "billingAddress"; "bodyHtml"; "cancelReason"; "cancelledAt"; "checksum"; "city";
  "closedAt"; "code"; "collectionId"; "column"; "company"; "compareAtPrice"; "completedAt";
  "condition"; "confirmed"; "contentType"; "cost"; "count"; "country"; "countryCode";
  "countryCodeOfOrigin"; "countryHarmonizedSystemCodes"; "countryName"; "createdAt";
  "createdAtMax"; "createdAtMin"; "creditCardBin"; "creditCardCompany"; "creditCardNumber";
  "currency"; "currencyCode"; "custom"; "customAttributes"; "customer"; "customerId";
  "customerSelection"; "cvvResultCode"; "default"; "defaultAddress"; "deliveryMethod";
  "description"; "destination"; "discountApplications"; "discountCodes"; "discountedPrice";
  "disjunctive"; "domain"; "email"; "endsAt"; "endsAtMax"; "endsAtMin";
  "entitledCollectionIds"; "entitledCountryIds"; "entitledProductIds"; "entitledQuantity";
  "entitledVariantIds"; "errorCode"; "fields"; "financialStatus"; "firstName"; "format";
  "fulfillAt"; "fulfillBy"; "fulfillableQuantity"; "fulfillmentHolds"; "fulfillmentOrderId";
  "fulfillmentOrderLineItems"; "fulfillmentService"; "fulfillmentStatus"; "fulfillments";
  "fullRefund"; "gateway"; "giftCard"; "grams"; "greaterThanOrEqualTo"; "handle";
  "harmonizedSystemCode"; "hasMore"; "height"; "ianaTimezone"; "id"; "ids"; "image";
  "imageId"; "images"; "internationalDuties"; "inventoryBehaviour"; "inventoryItemId";
  "inventoryItemIds"; "inventoryManagement"; "inventoryPolicy"; "inventoryQuantity";
  "invoiceSentAt"; "invoiceUrl"; "items"; "key"; "kind"; "lastName"; "legacy"; "limit";
  "lineItem"; "lineItemId"; "lineItems"; "lineItemsByFulfillmentOrder";
  "localizedCountryName"; "localizedProvinceName"; "locationId"; "locationIds";
  "marketingOptInLevel"; "message"; "metafieldNamespaces"; "methodType"; "moneyFormat";
  "myshopifyDomain"; "name"; "namespace"; "nextCursor"; "nextPageInfo"; "note";
  "noteAttributes"; "notify"; "notifyCustomer"; "number"; "numbers"; "oldInventoryQuantity";
  "oncePerCustomer"; "option1"; "option2"; "option3"; "options"; "order"; "orderAdjustments";
  "orderId"; "orderNumber"; "ordersCount"; "originAddress"; "ownerId"; "ownerResource";
  "parentId"; "paymentDetails"; "phone"; "planDisplayName"; "planName"; "position";
  "prerequisiteAmount"; "prerequisiteCollectionIds"; "prerequisiteCustomerIds";
  "prerequisiteProductIds"; "prerequisiteQuantity"; "prerequisiteQuantityRange";
  "prerequisiteSavedSearchIds"; "prerequisiteShippingPriceRange";
  "prerequisiteSubtotalRange"; "prerequisiteToEntitlementPurchase";
  "prerequisiteToEntitlementQuantityRatio"; "prerequisiteVariantIds"; "presentmentMoney";
  "previewable"; "price"; "priceRuleId"; "privateMetafieldNamespaces"; "processedAt";
  "processedAtMax"; "processedAtMin"; "processing"; "productId"; "productType"; "properties";
  "province"; "provinceCode"; "provinceCodeOfOrigin"; "publicUrl"; "published";
  "publishedAt"; "publishedAtMax"; "publishedAtMin"; "publishedScope"; "publishedStatus";
  "quantity"; "query"; "rate"; "reason"; "reasonNotes"; "receipt"; "refundId";
  "refundLineItems"; "refunds"; "relation"; "requestStatus"; "requiresShipping"; "restock";
  "restockType"; "role"; "rules"; "sendEmailInvite"; "sendEmailWelcome";
  "sendFulfillmentReceipt"; "sendReceipt"; "service"; "shipmentStatus"; "shipping";
  "shippingAddress"; "shippingLine"; "shippingLines"; "shopId"; "shopMoney"; "shopOwner";
  "sinceId"; "size"; "sku"; "sortOrder"; "sortValue"; "source"; "sourceKey"; "sourceName";
  "src"; "startsAt"; "startsAtMax"; "startsAtMin"; "state"; "status"; "subtotal";
  "subtotalPrice"; "subtotalSet"; "supportedActions"; "tags"; "targetSelection";
  "targetType"; "taxAmount"; "taxAmountSet"; "taxCode"; "taxExempt"; "taxExemptions";
  "taxLines"; "taxable"; "taxesIncluded"; "templateSuffix"; "test"; "themeId";
  "themeStoreId"; "timesUsed"; "timezone"; "title"; "token"; "topic"; "total";
  "totalDiscount"; "totalDiscounts"; "totalPrice"; "totalSpent"; "totalTax"; "totalTaxSet";
  "totalWeight"; "tracked"; "trackingCompany"; "trackingInfo"; "trackingNumber";
  "trackingNumbers"; "trackingUrl"; "trackingUrls"; "transactions"; "type"; "updatedAt";
  "updatedAtMax"; "updatedAtMin"; "url"; "urls"; "usageCount"; "usageLimit";
  "useCustomerDefaultAddress"; "userId"; "value"; "valueType"; "values"; "variantId";
  "variantIds"; "variantTitle"; "variants"; "vendor"; "verifiedEmail"; "weight";
  "weightUnit"; "width"; "zip"
].

End CaseConverter.

(** ** The client *)

Module Client.
Import Js CaseConverter.

(** *** Errors and outcomes *)

(** Modelled from the spec: [utils/errors.ts] is not among the sources.
    The classes are taken as the data their constructors receive at the
    call sites of [request]: a rate-limit error carries its message and the
    retry-after seconds, an API error its message and the HTTP status.
    [TypeError], [SyntaxError] and [NetworkError] stand for the exceptions
    of a read on [undefined], of [response.json()] on a body that is not
    JSON, and of a rejected [fetch]. *)
Inductive error : Type :=
| RateLimitError (message : string) (retryAfterSeconds : number)
| AuthenticationError (message : string)
| CrmApiError (message : string) (statusCode : Z)
| TypeError
| SyntaxError
| NetworkError.

Inductive outcome (A : Type) : Type :=
| Returned (a : A)
| Thrown (e : error).
Arguments Returned {A} a.
Arguments Thrown {A} e.

Definition bind {A B : Type} (m : outcome A) (k : A -> outcome B) : outcome B :=
  match m with
  | Returned a => k a
  | Thrown e => Thrown e
  end.

Notation "x <- m ;; k" := (bind m (fun x => k))
  (at level 61, m at next level, right associativity).

(** A property read that throws on [null] and [undefined]. *)
Definition read (v : value) (key : string) : outcome value :=
  match get v key with
  | Some x => Returned x
  | None => Thrown TypeError
  end.

(** *** Requests and responses *)

Record TenantCredentials : Type := {
  shopDomain : string;
  accessToken : string;
  apiVersion : string
}.

(** The options the operations pass to [request]. *)
Record RequestInit : Type := {
  method : option string;
  body : option string
}.

Definition no_options : RequestInit := {| method := None; body := None |}.

(** What [fetch] is called with. *)
Record FetchRequest : Type := {
  url : string;
  fetch_method : option string;
  fetch_headers : list (string * string);
  fetch_body : option string
}.

(** A response: its status, its headers, and the value [JSON.parse] gives
    for its body text ([None] when the text is not JSON). *)
Record Response : Type := {
  status : Z;
  headers : list (string * string);
  json : option value
}.

Definition lower (s : string) : string :=
  string_of_list_ascii (map Str.to_lower (list_ascii_of_string s)).

(** [headers.get(name)]: names compare without case; the values of a
    repeated header are joined. *)
Definition headers_get (name : string) (hs : list (string * string)) : option string :=
  match filter (fun h => String.eqb (lower (fst h)) (lower name)) hs with
  | [] => None
  | found => Some (Str.join ", " (map snd found))
  end.

(** [response.ok]. *)
Definition ok (response : Response) : bool :=
  (Z.leb 200 (status response) && Z.leb (status response) 299)%bool.

(** *** Query strings *)

(** [URLSearchParams.set]: the first pair of that name takes the value and
    the others of that name go; a new name is appended. *)
Fixpoint params_set (name val : string) (qs : list (string * string))
  : list (string * string) :=
  match qs with
  | [] => [(name, val)]
  | (n, v) :: rest =>
      if String.eqb n name
      then (n, val) :: filter (fun p => negb (String.eqb (fst p) name)) rest
      else (n, v) :: params_set name val rest
  end.

(** The [application/x-www-form-urlencoded] serializer of
    [URLSearchParams.toString]. *)
Definition form_encode_byte (c : ascii) : string :=
  let n := Str.code c in
  if (Str.is_upper c || Str.is_lower c || Str.is_digit c
      || Nat.eqb n 42 || Nat.eqb n 45 || Nat.eqb n 46 || Nat.eqb n 95)%bool
  then Str.of_char c
  else if Nat.eqb n 32 then "+"
  else String "%" (String (Str.hex_upper (Nat.div n 16))
                     (Str.of_char (Str.hex_upper (Nat.modulo n 16)))).

Fixpoint form_encode (s : string) : string :=
  match s with
  | EmptyString => EmptyString
  | String c rest => form_encode_byte c ++ form_encode rest
  end.

Definition params_toString (qs : list (string * string)) : string :=
  Str.join "&" (map (fun p => form_encode (fst p) ++ "=" ++ form_encode (snd p)) qs).

(** [Object.entries] of an object or an array. *)
Definition entries (v : value) : props :=
  match v with
  | VObj ps => ps
  | VArr items => indexed 0 items
  | _ => []
  end.

(** The text of a parameter: [value.join(',')] for an array,
    [String(value)] otherwise. *)
Definition queryValue (value : Js.value) : string :=
  match value with
  | VArr items => array_join "," items
  | _ => to_string value
  end.

(** One turn of the loop of [buildQueryParams]. *)
Definition setParam (queryParams : list (string * string)) (entry : string * value)
  : list (string * string) :=
  match entry with
  | (key, value) =>
      if negb (nullish value)
      then params_set key (queryValue value) queryParams
      else queryParams
  end.

(** The pairs [buildQueryParams] sets, in the order it sets them. *)
Definition queryParams (params : props) : list (string * string) :=
  let snakeParams := toSnakeCase (VObj params) in
  fold_left setParam (entries snakeParams) [].

Definition buildQueryParams (params : props) : string :=
  params_toString (queryParams params).

(** The parameter of one option as the specification words it: none for
    [null] and [undefined]; otherwise the key in wire casing, with the
    elements joined by commas for an array and the value as a string for
    anything else. *)
Definition queryPair (entry : string * value) : list (string * string) :=
  match entry with
  | (key, value) =>
      if nullish value then [] else [(camelToSnake key, queryValue value)]
  end.

(** *** List operations returning a paginated response *)

Inductive ListOperation : Type :=
| listProducts
| listProductVariants (productId : Z)
| listProductImages (productId : Z)
| listCustomCollections
| listSmartCollections
| listCollectionProducts (collectionId : Z)
| listCollects
| listOrders
| listCustomers
| searchCustomers
| getCustomerOrders (customerId : Z)
| listLocations
| listFulfillments (orderId : Z)
| listDraftOrders
| listPriceRules
| listWebhooks
| listMetafields (ownerResource : string) (ownerId : Z)
| listShopMetafields.

Definition list_path (op : ListOperation) : string :=
  match op with
  | listProducts => "/products.json"
  | listProductVariants productId =>
      "/products/" ++ Str.of_Z productId ++ "/variants.json"
  | listProductImages productId =>
      "/products/" ++ Str.of_Z productId ++ "/images.json"
  | listCustomCollections => "/custom_collections.json"
  | listSmartCollections => "/smart_collections.json"
  | listCollectionProducts collectionId =>
      "/collections/" ++ Str.of_Z collectionId ++ "/products.json"
  | listCollects => "/collects.json"
  | listOrders => "/orders.json"
  | listCustomers => "/customers.json"
  | searchCustomers => "/customers/search.json"
  | getCustomerOrders customerId =>
      "/customers/" ++ Str.of_Z customerId ++ "/orders.json"
  | listLocations => "/locations.json"
  | listFulfillments orderId =>
      "/orders/" ++ Str.of_Z orderId ++ "/fulfillments.json"
  | listDraftOrders => "/draft_orders.json"
  | listPriceRules => "/price_rules.json"
  | listWebhooks => "/webhooks.json"
  | listMetafields ownerResource ownerId =>
      "/" ++ ownerResource ++ "/" ++ Str.of_Z ownerId ++ "/metafields.json"
  | listShopMetafields => "/metafields.json"
  end.

(** The field of the response body the operation unwraps. *)
Definition list_field (op : ListOperation) : string :=
  match op with
  | listProducts | listCollectionProducts _ => "products"
  | listProductVariants _ => "variants"
  | listProductImages _ => "images"
  | listCustomCollections => "customCollections"
  | listSmartCollections => "smartCollections"
  | listCollects => "collects"
  | listOrders | getCustomerOrders _ => "orders"
  | listCustomers | searchCustomers => "customers"
  | listLocations => "locations"
  | listFulfillments _ => "fulfillments"
  | listDraftOrders => "draftOrders"
  | listPriceRules => "priceRules"
  | listWebhooks => "webhooks"
  | listMetafields _ _ | listShopMetafields => "metafields"
  end.

(** [params?.limit]. *)
Definition suppliedLimit (params : option props) : value :=
  match params with
  | Some ps => match lookup "limit" ps with
               | Some l => l
               | None => VUndefined
               end
  | None => VUndefined
  end.

(** [params?.limit || 50]. *)
Definition limitOrDefault (params : option props) : value :=
  or_else (suppliedLimit params) (VNum (Num 50)).

(** The endpoint of a list call: the path, then [?] and the query when
    the query is not empty.  [searchCustomers] takes its parameters
    unconditionally and always appends the query. *)
Definition list_endpoint (op : ListOperation) (params : option props)
  : outcome string :=
  match op, params with
  | searchCustomers, Some ps => Returned (list_path op ++ "?" ++ buildQueryParams ps)
  | searchCustomers, None => Thrown TypeError
  | _, _ =>
      let query := match params with
                   | Some ps => buildQueryParams ps
                   | None => ""
                   end in
      Returned (list_path op ++ (if negb (String.eqb query "") then "?" ++ query else ""))
  end.

(** *** Create and update operations *)

Inductive WriteOperation : Type :=
| createProduct
| updateProduct (productId : Z)
| createVariant (productId : Z)
| updateVariant (variantId : Z)
| createProductImage (productId : Z)
| updateProductImage (productId imageId : Z)
| createCustomCollection
| updateCustomCollection (collectionId : Z)
| createSmartCollection
| updateSmartCollection (collectionId : Z)
| createCollect
| createOrder
| updateOrder (orderId : Z)
| createCustomer
| updateCustomer (customerId : Z)
| updateInventoryItem (inventoryItemId : Z)
| createFulfillment
| updateFulfillmentTracking (fulfillmentId : Z)
| createDraftOrder
| updateDraftOrder (draftOrderId : Z)
| createTransaction (orderId : Z)
| createRefund (orderId : Z)
| calculateRefund (orderId : Z)
| createPriceRule
| updatePriceRule (priceRuleId : Z)
| createDiscountCode (priceRuleId : Z)
| createWebhook
| updateWebhook (webhookId : Z)
| createTheme
| updateTheme (themeId : Z)
| createOrUpdateAsset (themeId : Z)
| createMetafield (ownerResource : string) (ownerId : Z)
| updateMetafield (ownerResource : string) (ownerId metafieldId : Z)
| createShopMetafield.

Definition write_method (op : WriteOperation) : string :=
  match op with
  | createProduct | createVariant _ | createProductImage _
  | createCustomCollection | createSmartCollection | createCollect
  | createOrder | createCustomer | createFulfillment
  | updateFulfillmentTracking _ | createDraftOrder | createTransaction _
  | createRefund _ | calculateRefund _ | createPriceRule
  | createDiscountCode _ | createWebhook | createTheme
  | createMetafield _ _ | createShopMetafield => "POST"
  | _ => "PUT"
  end.

Definition write_path (op : WriteOperation) : string :=
  match op with
  | createProduct => "/products.json"
  | updateProduct productId => "/products/" ++ Str.of_Z productId ++ ".json"
  | createVariant productId => "/products/" ++ Str.of_Z productId ++ "/variants.json"
  | updateVariant variantId => "/variants/" ++ Str.of_Z variantId ++ ".json"
  | createProductImage productId =>
      "/products/" ++ Str.of_Z productId ++ "/images.json"
  | updateProductImage productId imageId =>
      "/products/" ++ Str.of_Z productId ++ "/images/" ++ Str.of_Z imageId ++ ".json"
  | createCustomCollection => "/custom_collections.json"
  | updateCustomCollection collectionId =>
      "/custom_collections/" ++ Str.of_Z collectionId ++ ".json"
  | createSmartCollection => "/smart_collections.json"
  | updateSmartCollection collectionId =>
      "/smart_collections/" ++ Str.of_Z collectionId ++ ".json"
  | createCollect => "/collects.json"
  | createOrder => "/orders.json"
  | updateOrder orderId => "/orders/" ++ Str.of_Z orderId ++ ".json"
  | createCustomer => "/customers.json"
  | updateCustomer customerId => "/customers/" ++ Str.of_Z customerId ++ ".json"
  | updateInventoryItem inventoryItemId =>
      "/inventory_items/" ++ Str.of_Z inventoryItemId ++ ".json"
  | createFulfillment => "/fulfillments.json"
  | updateFulfillmentTracking fulfillmentId =>
      "/fulfillments/" ++ Str.of_Z fulfillmentId ++ "/update_tracking.json"
  | createDraftOrder => "/draft_orders.json"
  | updateDraftOrder draftOrderId =>
      "/draft_orders/" ++ Str.of_Z draftOrderId ++ ".json"
  | createTransaction orderId =>
      "/orders/" ++ Str.of_Z orderId ++ "/transactions.json"
  | createRefund orderId => "/orders/" ++ Str.of_Z orderId ++ "/refunds.json"
  | calculateRefund orderId =>
      "/orders/" ++ Str.of_Z orderId ++ "/refunds/calculate.json"
  | createPriceRule => "/price_rules.json"
  | updatePriceRule priceRuleId =>
      "/price_rules/" ++ Str.of_Z priceRuleId ++ ".json"
  | createDiscountCode priceRuleId =>
      "/price_rules/" ++ Str.of_Z priceRuleId ++ "/discount_codes.json"
  | createWebhook => "/webhooks.json"
  | updateWebhook webhookId => "/webhooks/" ++ Str.of_Z webhookId ++ ".json"
  | createTheme => "/themes.json"
  | updateTheme themeId => "/themes/" ++ Str.of_Z themeId ++ ".json"
  | createOrUpdateAsset themeId =>
      "/themes/" ++ Str.of_Z themeId ++ "/assets.json"
  | createMetafield ownerResource ownerId =>
      "/" ++ ownerResource ++ "/" ++ Str.of_Z ownerId ++ "/metafields.json"
  | updateMetafield ownerResource ownerId metafieldId =>
      "/" ++ ownerResource ++ "/" ++ Str.of_Z ownerId ++ "/metafields/"
      ++ Str.of_Z metafieldId ++ ".json"
  | createShopMetafield => "/metafields.json"
  end.

(** The key the operation writes in the object literal of its body, and
    reads from the camel-cased response. *)
Definition write_key (op : WriteOperation) : string :=
  match op with
  | createProduct | updateProduct _ => "product"
  | createVariant _ | updateVariant _ => "variant"
  | createProductImage _ | updateProductImage _ _ => "image"
  | createCustomCollection | updateCustomCollection _ => "customCollection"
  | createSmartCollection | updateSmartCollection _ => "smartCollection"
  | createCollect => "collect"
  | createOrder | updateOrder _ => "order"
  | createCustomer | updateCustomer _ => "customer"
  | updateInventoryItem _ => "inventoryItem"
  | createFulfillment | updateFulfillmentTracking _ => "fulfillment"
  | createDraftOrder | updateDraftOrder _ => "draftOrder"
  | createTransaction _ => "transaction"
  | createRefund _ | calculateRefund _ => "refund"
  | createPriceRule | updatePriceRule _ => "priceRule"
  | createDiscountCode _ => "discountCode"
  | createWebhook | updateWebhook _ => "webhook"
  | createTheme | updateTheme _ => "theme"
  | createOrUpdateAsset _ => "asset"
  | createMetafield _ _ | updateMetafield _ _ _ | createShopMetafield => "metafield"
  end.

(** [JSON.stringify({ key: toSnakeCase(input) })]. *)
Definition write_body (op : WriteOperation) (input : value) : option string :=
  JSON_stringify (VObj [(write_key op, toSnakeCase input)]).

Definition write_options (op : WriteOperation) (input : value) : RequestInit :=
  {| method := Some (write_method op); body := write_body op input |}.

(** The body [adjustInventoryLevel] writes by hand, its keys in wire
    casing. *)
Definition adjustInventoryLevel_body (inventoryItemId locationId adjustment : Z)
  : option string :=
  JSON_stringify (VObj [("inventory_item_id", VNum (Num inventoryItemId));
                        ("location_id", VNum (Num locationId));
                        ("available_adjustment", VNum (Num adjustment))]).

(** The statuses [request] answers before it reads the body. *)
Definition early (code : Z) : bool :=
  (Z.eqb code 429 || Z.eqb code 401 || Z.eqb code 403 || Z.eqb code 404)%bool.

(** *** The request executor *)

Section Request.

Variable credentials : TenantCredentials.

(** The remote platform: the response to each call, [None] when the call
    fails before a response arrives. *)
Variable fetch : FetchRequest -> option Response.

Definition getBaseUrl : string :=
  "https://" ++ shopDomain credentials ++ "/admin/api/" ++ apiVersion credentials.

Definition getAuthHeaders : list (string * string) :=
  [("X-Shopify-Access-Token", accessToken credentials);
   ("Content-Type", "application/json")].

(** The message of an error response: the [errors] field of the body
    when it is truthy, as it is when a string and through
    [JSON.stringify] otherwise; the default when the body is not JSON,
    when the read throws, or when the field is falsy. *)
Definition errorMessage (response : Response) : string :=
  let message := "Shopify API error: " ++ Str.of_Z (status response) in
  match json response with
  | Some errorJson =>
      match get errorJson "errors" with
      | Some errors =>
          if truthy errors then
            match errors with
            | VStr s => s
            | _ => match JSON_stringify errors with
                   | Some text => text
                   | None => message
                   end
            end
          else message
      | None => message
      end
  | None => message
  end.

(** The outcome [request] draws from a response. *)
Definition handleResponse (response : Response) : outcome value :=
  if Z.eqb (status response) 429 then
    let retryAfter := headers_get "Retry-After" (headers response) in
    Thrown (RateLimitError "Rate limit exceeded"
              (match retryAfter with
               | Some s => if negb (String.eqb s "") then parseInt s else Num 60
               | None => Num 60
               end))
  else if Z.eqb (status response) 401 then
    Thrown (AuthenticationError "Invalid access token")
  else if Z.eqb (status response) 403 then
    Thrown (AuthenticationError "Access denied. Check your access scopes.")
  else if Z.eqb (status response) 404 then
    Thrown (CrmApiError "Resource not found" 404)
  else if negb (ok response) then
    Thrown (CrmApiError (errorMessage response) (status response))
  else if Z.eqb (status response) 204 then
    Returned VUndefined
  else
    match json response with
    | Some data => Returned (toCamelCase data)
    | None => Thrown SyntaxError
    end.

(** The call [request] makes: the URL, the method and body of the options,
    and the authentication headers. *)
Definition fetchCall (endpoint : string) (options : RequestInit) : FetchRequest :=
  let url := getBaseUrl ++ endpoint in
  {| url := url;
     fetch_method := method options;
     fetch_headers := getAuthHeaders;
     fetch_body := body options |}.

Definition request (endpoint : string) (options : RequestInit) : outcome value :=
  match fetch (fetchCall endpoint options) with
  | Some response => handleResponse response
  | None => Thrown NetworkError
  end.

(** *** The operations *)

(** The body shared by the list operations:
    [{ items: data.f, count: data.f.length,
       hasMore: data.f.length === (params?.limit || 50) }]. *)
Definition listOperation (op : ListOperation) (params : option props)
  : outcome value :=
  endpoint <- list_endpoint op params ;;
  data <- request endpoint no_options ;;
  items <- read data (list_field op) ;;
  count <- read items "length" ;;
  Returned (VObj [("items", items);
                  ("count", count);
                  ("hasMore", VBool (strict_eq count (limitOrDefault params)))]).

Definition writeOperation (op : WriteOperation) (input : value) : outcome value :=
  data <- request (write_path op) (write_options op input) ;;
  read data (write_key op).

End Request.

End Client.

(** ** Response formatting *)

Module Formatters.
Import Js.

Inductive ResponseFormat : Type :=
| json_format
| markdown_format.

(** [{ content: [{ type: 'text', text }], isError? }]: the texts of the
    content, each a JavaScript value ([undefined] when [JSON.stringify]
    gives none), and the error flag when it is set. *)
Record ToolResponse : Type := {
  content : list value;
  isError : option bool
}.

(** [str.charAt(0).toUpperCase() + str.slice(1)]. *)
Definition capitalize (str : string) : string :=
  match str with
  | EmptyString => EmptyString
  | String c rest => String (Str.to_upper c) rest
  end.

(** [str.replace(/s$/, '')]. *)
Fixpoint drop_final_s (str : string) : string :=
  match str with
  | EmptyString => EmptyString
  | String c rest =>
      match rest with
      | EmptyString => if Ascii.eqb c "s" then EmptyString else str
      | _ => String c (drop_final_s rest)
      end
  end.

(** [key.replace(/([A-Z])/g, ' $1')]. *)
Fixpoint space_capitals (key : string) : string :=
  match key with
  | EmptyString => EmptyString
  | String c rest =>
      if Str.is_upper c then String " " (String c (space_capitals rest))
      else String c (space_capitals rest)
  end.

(** [formatKey]: a space before each capital, the first character in
    upper case, then [trim]. *)
Definition formatKey (key : string) : string :=
  Str.trim (capitalize (space_capitals key)).

Definition fence : string :=
  String Str.backtick (String Str.backtick (String Str.backtick "json")).
Definition fence_end : string :=
  String Str.backtick (String Str.backtick (String Str.backtick "")).

(** [lines.push(line)]. *)
Definition push (lines : list string) (line : string) : list string :=
  List.app lines [line].

(** [JSON.stringify(value, null, 2)] as a line of the output: [join]
    prints an [undefined] element as the empty string. *)
Definition pretty (value : Js.value) : string :=
  match JSON_stringify_pretty value with
  | Some text => text
  | None => ""
  end.

(** One turn of the loop of [formatObjectAsMarkdown]: the lines pushed for
    the entry [(key, value)]. *)
Definition pushField (lines : list string) (entry : string * value) : list string :=
  match entry with
  | (key, value) =>
      if nullish value then lines
      else if typeof_object value then
        let lines := push lines ("**" ++ formatKey key ++ ":**") in
        let lines := push lines fence in
        let lines := push lines (pretty value) in
        push lines fence_end
      else
        push lines ("**" ++ formatKey key ++ ":** " ++ to_string value)
  end.

Definition formatObjectAsMarkdown (data : props) (entityType : string) : string :=
  let lines := push [] ("## " ++ capitalize (drop_final_s entityType)) in
  let lines := push lines "" in
  let lines := fold_left pushField data lines in
  Str.join (Str.of_char Str.newline) lines.

(** The lines of one top-level field as the specification words them:
    none for [null] and [undefined], a labelled block of pretty-printed
    JSON for a nested object or array, one labelled line for a scalar. *)
Definition fieldLines (entry : string * value) : list string :=
  match entry with
  | (key, value) =>
      match value with
      | VUndefined | VNull => []
      | VArr _ | VObj _ =>
          ["**" ++ formatKey key ++ ":**"; fence; pretty value; fence_end]
      | VBool _ | VNum _ | VStr _ =>
          ["**" ++ formatKey key ++ ":** " ++ to_string value]
      end
  end.

(** [isPaginatedResponse]. *)
Definition isPaginatedResponse (data : value) : bool :=
  (typeof_object data && negb (nullish data) && has_property "items" data
   && match get data "items" with
      | Some items => isArray items
      | None => false
      end)%bool.

(** *** Tables *)

(** The rows of a table: the loop [for (const item of items)
    lines.push(row)] after the lines of the head, then [join].  [None] is
    the [TypeError] of a row read off an item that is [null] or
    [undefined]. *)
Definition pushRow (row : value -> option string) (lines : option (list string))
    (item : value) : option (list string) :=
  match lines with
  | Some lines =>
      match row item with
      | Some line => Some (push lines line)
      | None => None
      end
  | None => None
  end.

Definition tableOf (head : list string) (row : value -> option string)
    (items : list value) : option string :=
  match fold_left (pushRow row) items (Some head) with
  | Some lines => Some (Str.join (Str.of_char Str.newline) lines)
  | None => None
  end.

(** A row built from the fields of one item; the reads throw when the item
    is [null] or [undefined]. *)
Definition rowOf (item : value) (line : (string -> value) -> string) : option string :=
  if nullish item then None else Some (line (prop item)).

(** [`${customer.firstName || ''} ${customer.lastName || ''}`.trim()]. *)
Definition fullName (customer : value) : string :=
  Str.trim (to_string (or_else (prop customer "firstName") (VStr ""))
            ++ " " ++ to_string (or_else (prop customer "lastName") (VStr ""))).

(** The customer column of orders and draft orders: the trimmed name, or
    the e-mail when the name is empty, or a dash when there is no customer. *)
Definition customerName (customer : value) : value :=
  if truthy customer
  then or_else (VStr (fullName customer)) (prop customer "email")
  else VStr "-".

(** [product.variants?.length || 0]. *)
Definition variantCount (variants : value) : value :=
  or_else (if nullish variants then VUndefined else prop variants "length")
          (VNum (Num 0)).

Definition formatProductsTable (products : list value) : option string :=
  tableOf ["| ID | Title | Vendor | Status | Variants |"; "|---|---|---|---|---|"]
    (fun product =>
       rowOf product (fun field =>
         "| " ++ to_string (field "id")
         ++ " | " ++ to_string (field "title")
         ++ " | " ++ to_string (or_else (field "vendor") (VStr "-"))
         ++ " | " ++ to_string (or_else (field "status") (VStr "-"))
         ++ " | " ++ to_string (variantCount (field "variants")) ++ " |"))
    products.

Definition formatOrdersTable (orders : list value) : option string :=
  tableOf ["| ID | Order # | Customer | Total | Status | Created |";
           "|---|---|---|---|---|---|"]
    (fun order =>
       rowOf order (fun field =>
         let total := to_string (or_else (field "currency") (VStr "$"))
                      ++ " " ++ to_string (or_else (field "totalPrice") (VStr "0")) in
         "| " ++ to_string (field "id")
         ++ " | " ++ to_string (or_else (field "orderNumber") (field "name"))
         ++ " | " ++ to_string (customerName (field "customer"))
         ++ " | " ++ total
         ++ " | " ++ to_string (or_else (field "financialStatus") (VStr "-"))
         ++ " | " ++ to_string (or_else (field "createdAt") (VStr "-")) ++ " |"))
    orders.

Definition formatCustomersTable (customers : list value) : option string :=
  tableOf ["| ID | Name | Email | Orders | Total Spent |"; "|---|---|---|---|---|"]
    (fun customer =>
       rowOf customer (fun field =>
         let name := or_else (VStr (fullName customer)) (VStr "-") in
         "| " ++ to_string (field "id")
         ++ " | " ++ to_string name
         ++ " | " ++ to_string (or_else (field "email") (VStr "-"))
         ++ " | " ++ to_string (or_else (field "ordersCount") (VNum (Num 0)))
         ++ " | " ++ to_string (or_else (field "totalSpent") (VStr "0")) ++ " |"))
    customers.

Definition formatDraftOrdersTable (draftOrders : list value) : option string :=
  tableOf ["| ID | Name | Customer | Total | Status | Created |";
           "|---|---|---|---|---|---|"]
    (fun draftOrder =>
       rowOf draftOrder (fun field =>
         "| " ++ to_string (field "id")
         ++ " | " ++ to_string (field "name")
         ++ " | " ++ to_string (customerName (field "customer"))
         ++ " | " ++ to_string (or_else (field "totalPrice") (VStr "0"))
         ++ " | " ++ to_string (or_else (field "status") (VStr "-"))
         ++ " | " ++ to_string (or_else (field "createdAt") (VStr "-")) ++ " |"))
    draftOrders.

Definition formatFulfillmentsTable (fulfillments : list value) : option string :=
  tableOf ["| ID | Order ID | Status | Tracking # | Created |"; "|---|---|---|---|---|"]
    (fun fulfillment =>
       rowOf fulfillment (fun field =>
         "| " ++ to_string (field "id")
         ++ " | " ++ to_string (or_else (field "orderId") (VStr "-"))
         ++ " | " ++ to_string (or_else (field "status") (VStr "-"))
         ++ " | " ++ to_string (or_else (field "trackingNumber") (VStr "-"))
         ++ " | " ++ to_string (or_else (field "createdAt") (VStr "-")) ++ " |"))
    fulfillments.

Definition formatLocationsTable (locations : list value) : option string :=
  tableOf ["| ID | Name | City | Country | Active |"; "|---|---|---|---|---|"]
    (fun location =>
       rowOf location (fun field =>
         "| " ++ to_string (field "id")
         ++ " | " ++ to_string (field "name")
         ++ " | " ++ to_string (or_else (field "city") (VStr "-"))
         ++ " | " ++ to_string (or_else (field "countryCode") (VStr "-"))
         ++ " | " ++ (if truthy (field "active") then "Yes" else "No") ++ " |"))
    locations.

Definition formatWebhooksTable (webhooks : list value) : option string :=
  tableOf ["| ID | Topic | Address | Format |"; "|---|---|---|---|"]
    (fun webhook =>
       rowOf webhook (fun field =>
         "| " ++ to_string (field "id")
         ++ " | " ++ to_string (field "topic")
         ++ " | " ++ to_string (field "address")
         ++ " | " ++ to_string (or_else (field "format") (VStr "-")) ++ " |"))
    webhooks.

Definition formatPriceRulesTable (priceRules : list value) : option string :=
  tableOf ["| ID | Title | Target Type | Value | Starts | Ends |";
           "|---|---|---|---|---|---|"]
    (fun rule =>
       rowOf rule (fun field =>
         let value :=
           if strict_eq (field "valueType") (VStr "percentage")
           then to_string (field "value") ++ "%"
           else to_string (field "value") in
         "| " ++ to_string (field "id")
         ++ " | " ++ to_string (field "title")
         ++ " | " ++ to_string (or_else (field "targetType") (VStr "-"))
         ++ " | " ++ value
         ++ " | " ++ to_string (or_else (field "startsAt") (VStr "-"))
         ++ " | " ++ to_string (or_else (field "endsAt") (VStr "-")) ++ " |"))
    priceRules.

Definition formatThemesAsMarkdown (themes : list value) : option string :=
  tableOf ["## Themes"; ""; "| ID | Name | Role | Previewable |"; "|---|---|---|---|"]
    (fun theme =>
       rowOf theme (fun field =>
         "| " ++ to_string (field "id")
         ++ " | " ++ to_string (field "name")
         ++ " | " ++ to_string (field "role")
         ++ " | " ++ (if truthy (field "previewable") then "Yes" else "No") ++ " |"))
    themes.

(** [Object.keys] of an object or an array; a number or a boolean has
    none. *)
Definition keysOf (v : value) : list string :=
  match v with
  | VObj ps => map fst ps
  | VArr items => map fst (indexed 0 items)
  | _ => []
  end.

(** A row of the generic table: [keys.map((k) => String(record[k] ?? '-'))]
    reads the item once for each key, and not at all when there is none. *)
Definition genericRow (keys : list string) (record : value) : option string :=
  match keys with
  | [] => Some ("| " ++ Str.join " | " [] ++ " |")
  | _ =>
      rowOf record (fun field =>
        "| " ++ Str.join " | "
                  (map (fun k => to_string (nullish_else (field k) (VStr "-"))) keys)
        ++ " |")
  end.

Definition formatGenericTable (items : list value) : option string :=
  match items with
  | [] => Some "_No items_"
  | first :: _ =>
      if nullish first then None
      else
        let keys := firstn 5 (keysOf first) in
        tableOf ["| " ++ Str.join " | " keys ++ " |";
                 "|" ++ Str.join "|" (map (fun _ => "---") keys) ++ "|"]
          (genericRow keys) items
  end.

Definition formatArrayAsMarkdown (data : list value) (entityType : string)
  : option string :=
  if String.eqb entityType "themes" then formatThemesAsMarkdown data
  else formatGenericTable data.

(** The [switch] over the entity type. *)
Definition formatItemsTable (entityType : string) (items : list value) : option string :=
  if String.eqb entityType "products" then formatProductsTable items
  else if String.eqb entityType "orders" then formatOrdersTable items
  else if String.eqb entityType "customers" then formatCustomersTable items
  else if String.eqb entityType "draftOrders" then formatDraftOrdersTable items
  else if String.eqb entityType "fulfillments" then formatFulfillmentsTable items
  else if String.eqb entityType "locations" then formatLocationsTable items
  else if String.eqb entityType "webhooks" then formatWebhooksTable items
  else if String.eqb entityType "priceRules" then formatPriceRulesTable items
  else formatGenericTable items.

(** [formatPaginatedAsMarkdown] is called under [isPaginatedResponse], with
    an array for [data.items]. *)
Definition formatPaginatedAsMarkdown (data : value) (entityType : string)
  : option string :=
  match get data "total", get data "count", get data "hasMore",
        get data "nextCursor", get data "items" with
  | Some total, Some count, Some hasMore, Some nextCursor, Some (VArr items) =>
      let lines := push [] ("## " ++ capitalize entityType) in
      let lines := push lines "" in
      let lines :=
        if negb (strict_eq total VUndefined)
        then push lines ("**Total:** " ++ to_string total
                         ++ " | **Showing:** " ++ to_string count)
        else push lines ("**Showing:** " ++ to_string count) in
      let lines :=
        if truthy hasMore
        then push lines ("**More available:** Yes (cursor: "
                         ++ String Str.backtick (to_string nextCursor)
                         ++ String Str.backtick ")")
        else lines in
      let lines := push lines "" in
      if Nat.eqb (List.length items) 0 then
        Some (Str.join (Str.of_char Str.newline) (push lines "_No items found._"))
      else
        match formatItemsTable entityType items with
        | Some table => Some (Str.join (Str.of_char Str.newline) (push lines table))
        | None => None
        end
  | _, _, _, _, _ => None
  end.

Definition formatAsMarkdown (data : value) (entityType : string) : option string :=
  if isPaginatedResponse data then formatPaginatedAsMarkdown data entityType
  else match data with
       | VArr items => formatArrayAsMarkdown items entityType
       | VObj fields => Some (formatObjectAsMarkdown fields entityType)
       | _ => Some (to_string data)
       end.

Definition formatResponse (data : value) (format : ResponseFormat)
    (entityType : string) : option ToolResponse :=
  match format with
  | markdown_format =>
      match formatAsMarkdown data entityType with
      | Some text => Some {| content := [VStr text]; isError := None |}
      | None => None
      end
  | json_format =>
      Some {| content := [match JSON_stringify_pretty data with
                          | Some text => VStr text
                          | None => VUndefined
                          end];
              isError := None |}
  end.

End Formatters.

(** ** Sample data *)

Module Samples.
Import Js Client.

Definition shop : TenantCredentials :=
  {| shopDomain := "example.myshopify.com";
     accessToken := "token";
     apiVersion := "2024-01" |}.

(** A platform that answers every call with the same response. *)
Definition respond (response : Response) : FetchRequest -> option Response :=
  fun _ => Some response.

Definition json_response (code : Z) (data : value) : Response :=
  {| status := code; headers := []; json := Some data |}.

Definition limited : Response :=
  {| status := 429; headers := [("retry-after", "30")]; json := None |}.

Definition no_content : Response :=
  {| status := 204; headers := []; json := None |}.

Definition sample_order : value :=
  VObj [("id", VNum (Num 7));
        ("note", VNull);
        ("lineItems", VArr [VObj [("variantId", VNum (Num 3));
                                  ("quantity", VNum (Num 2))]])].

Definition sample_collection : value :=
  VObj [("title", VStr "Summer"); ("bodyHtml", VStr "Sale")].

Definition two_products : value :=
  VObj [("products", VArr [VObj [("id", VNum (Num 1))];
                           VObj [("id", VNum (Num 2))]])].

Definition sample_query : props :=
  [("limit", VNum (Num 2));
   ("sinceId", VStr "5");
   ("ids", VArr [VStr "10"; VStr "11"])].

End Samples.

(** ** The read, delete and action operations of the client *)

Module Operations.
Import Js CaseConverter Client.

(** [encodeURIComponent] on the UTF-8 text: letters, digits and
    [- _ . ! ~ * ' ( )] stay, every other byte is written [%XX].  (A
    string is well-formed text here: the [URIError] of a lone surrogate
    does not arise.) *)
Definition uri_unreserved (c : ascii) : bool :=
  let n := Str.code c in
  (Str.is_upper c || Str.is_lower c || Str.is_digit c
   || Nat.eqb n 45 || Nat.eqb n 95 || Nat.eqb n 46 || Nat.eqb n 33
   || Nat.eqb n 126 || Nat.eqb n 42 || Nat.eqb n 39 || Nat.eqb n 40
   || Nat.eqb n 41)%bool.

Definition uri_encode_byte (c : ascii) : string :=
  let n := Str.code c in
  if uri_unreserved c then Str.of_char c
  else String "%" (String (Str.hex_upper (Nat.div n 16))
                     (Str.of_char (Str.hex_upper (Nat.modulo n 16)))).

Fixpoint encodeURIComponent (s : string) : string :=
  match s with
  | EmptyString => EmptyString
  | String c rest => uri_encode_byte c ++ encodeURIComponent rest
  end.

(** [`${query ? `?${query}` : ''}`] after
    [const query = params ? this.buildQueryParams(params) : '']. *)
Definition optionalQuery (params : option props) : string :=
  let query := match params with
               | Some ps => buildQueryParams ps
               | None => ""
               end in
  if negb (String.eqb query "") then "?" ++ query else "".

(** *** Operations that read one field of the response

    [const data = await this.request(endpoint); return data.key;] *)

Inductive ReadOperation : Type :=
| getShop
| getProduct (productId : Z)
| getProductCount (params : option props)
| getVariant (variantId : Z)
| getProductImage (productId imageId : Z)
| getCustomCollection (collectionId : Z)
| getSmartCollection (collectionId : Z)
| getCollection (collectionId : Z)
| getOrder (orderId : Z)
| getOrderCount (params : option props)
| getCustomer (customerId : Z)
| getCustomerCount (params : option props)
| getLocation (locationId : Z)
| getLocationCount
| listInventoryLevels (params : props)
| getInventoryItem (inventoryItemId : Z)
| getFulfillment (orderId fulfillmentId : Z)
| listFulfillmentOrders (orderId : Z)
| getFulfillmentOrder (fulfillmentOrderId : Z)
| getDraftOrder (draftOrderId : Z)
| listTransactions (orderId : Z)
| getTransaction (orderId transactionId : Z)
| listRefunds (orderId : Z)
| getRefund (orderId refundId : Z)
| getPriceRule (priceRuleId : Z)
| listDiscountCodes (priceRuleId : Z)
| getDiscountCode (priceRuleId discountCodeId : Z)
| getWebhook (webhookId : Z)
| getWebhookCount (params : option props)
| listThemes
| getTheme (themeId : Z)
| listAssets (themeId : Z)
| getAsset (themeId : Z) (key : string)
| getMetafield (ownerResource : string) (ownerId metafieldId : Z).

Definition read_endpoint (op : ReadOperation) : string :=
  match op with
  | getShop => "/shop.json"
  | getProduct productId => "/products/" ++ Str.of_Z productId ++ ".json"
  | getProductCount params => "/products/count.json" ++ optionalQuery params
  | getVariant variantId => "/variants/" ++ Str.of_Z variantId ++ ".json"
  | getProductImage productId imageId =>
      "/products/" ++ Str.of_Z productId ++ "/images/" ++ Str.of_Z imageId ++ ".json"
  | getCustomCollection collectionId =>
      "/custom_collections/" ++ Str.of_Z collectionId ++ ".json"
  | getSmartCollection collectionId =>
      "/smart_collections/" ++ Str.of_Z collectionId ++ ".json"
  | getCollection collectionId => "/collections/" ++ Str.of_Z collectionId ++ ".json"
  | getOrder orderId => "/orders/" ++ Str.of_Z orderId ++ ".json"
  | getOrderCount params => "/orders/count.json" ++ optionalQuery params
  | getCustomer customerId => "/customers/" ++ Str.of_Z customerId ++ ".json"
  | getCustomerCount params => "/customers/count.json" ++ optionalQuery params
  | getLocation locationId => "/locations/" ++ Str.of_Z locationId ++ ".json"
  | getLocationCount => "/locations/count.json"
  | listInventoryLevels params => "/inventory_levels.json?" ++ buildQueryParams params
  | getInventoryItem inventoryItemId =>
      "/inventory_items/" ++ Str.of_Z inventoryItemId ++ ".json"
  | getFulfillment orderId fulfillmentId =>
      "/orders/" ++ Str.of_Z orderId ++ "/fulfillments/" ++ Str.of_Z fulfillmentId
      ++ ".json"
  | listFulfillmentOrders orderId =>
      "/orders/" ++ Str.of_Z orderId ++ "/fulfillment_orders.json"
  | getFulfillmentOrder fulfillmentOrderId =>
      "/fulfillment_orders/" ++ Str.of_Z fulfillmentOrderId ++ ".json"
  | getDraftOrder draftOrderId => "/draft_orders/" ++ Str.of_Z draftOrderId ++ ".json"
  | listTransactions orderId => "/orders/" ++ Str.of_Z orderId ++ "/transactions.json"
  | getTransaction orderId transactionId =>
      "/orders/" ++ Str.of_Z orderId ++ "/transactions/" ++ Str.of_Z transactionId
      ++ ".json"
  | listRefunds orderId => "/orders/" ++ Str.of_Z orderId ++ "/refunds.json"
  | getRefund orderId refundId =>
      "/orders/" ++ Str.of_Z orderId ++ "/refunds/" ++ Str.of_Z refundId ++ ".json"
  | getPriceRule priceRuleId => "/price_rules/" ++ Str.of_Z priceRuleId ++ ".json"
  | listDiscountCodes priceRuleId =>
      "/price_rules/" ++ Str.of_Z priceRuleId ++ "/discount_codes.json"
  | getDiscountCode priceRuleId discountCodeId =>
      "/price_rules/" ++ Str.of_Z priceRuleId ++ "/discount_codes/"
      ++ Str.of_Z discountCodeId ++ ".json"
  | getWebhook webhookId => "/webhooks/" ++ Str.of_Z webhookId ++ ".json"
  | getWebhookCount params => "/webhooks/count.json" ++ optionalQuery params
  | listThemes => "/themes.json"
  | getTheme themeId => "/themes/" ++ Str.of_Z themeId ++ ".json"
  | listAssets themeId => "/themes/" ++ Str.of_Z themeId ++ "/assets.json"
  | getAsset themeId key =>
      "/themes/" ++ Str.of_Z themeId ++ "/assets.json?asset[key]="
      ++ encodeURIComponent key
  | getMetafield ownerResource ownerId metafieldId =>
      "/" ++ ownerResource ++ "/" ++ Str.of_Z ownerId ++ "/metafields/"
      ++ Str.of_Z metafieldId ++ ".json"
  end.

(** The field of the camel-cased response the operation returns. *)
Definition read_key (op : ReadOperation) : string :=
  match op with
  | getShop => "shop"
  | getProduct _ => "product"
  | getProductCount _ | getOrderCount _ | getCustomerCount _
  | getLocationCount | getWebhookCount _ => "count"
  | getVariant _ => "variant"
  | getProductImage _ _ => "image"
  | getCustomCollection _ => "customCollection"
  | getSmartCollection _ => "smartCollection"
  | getCollection _ => "collection"
  | getOrder _ => "order"
  | getCustomer _ => "customer"
  | getLocation _ => "location"
  | listInventoryLevels _ => "inventoryLevels"
  | getInventoryItem _ => "inventoryItem"
  | getFulfillment _ _ => "fulfillment"
  | listFulfillmentOrders _ => "fulfillmentOrders"
  | getFulfillmentOrder _ => "fulfillmentOrder"
  | getDraftOrder _ => "draftOrder"
  | listTransactions _ => "transactions"
  | getTransaction _ _ => "transaction"
  | listRefunds _ => "refunds"
  | getRefund _ _ => "refund"
  | getPriceRule _ => "priceRule"
  | listDiscountCodes _ => "discountCodes"
  | getDiscountCode _ _ => "discountCode"
  | getWebhook _ => "webhook"
  | listThemes => "themes"
  | getTheme _ => "theme"
  | listAssets _ => "assets"
  | getAsset _ _ => "asset"
  | getMetafield _ _ _ => "metafield"
  end.

(** *** Operations that delete

    [await this.request(endpoint, { method: 'DELETE' });] *)

Inductive DeleteOperation : Type :=
| deleteProduct (productId : Z)
| deleteVariant (productId variantId : Z)
| deleteProductImage (productId imageId : Z)
| deleteCustomCollection (collectionId : Z)
| deleteSmartCollection (collectionId : Z)
| deleteCollect (collectId : Z)
| deleteOrder (orderId : Z)
| deleteCustomer (customerId : Z)
| deleteDraftOrder (draftOrderId : Z)
| deletePriceRule (priceRuleId : Z)
| deleteDiscountCode (priceRuleId discountCodeId : Z)
| deleteWebhook (webhookId : Z)
| deleteTheme (themeId : Z)
| deleteAsset (themeId : Z) (key : string)
| deleteMetafield (ownerResource : string) (ownerId metafieldId : Z).

Definition delete_endpoint (op : DeleteOperation) : string :=
  match op with
  | deleteProduct productId => "/products/" ++ Str.of_Z productId ++ ".json"
  | deleteVariant productId variantId =>
      "/products/" ++ Str.of_Z productId ++ "/variants/" ++ Str.of_Z variantId
      ++ ".json"
  | deleteProductImage productId imageId =>
      "/products/" ++ Str.of_Z productId ++ "/images/" ++ Str.of_Z imageId ++ ".json"
  | deleteCustomCollection collectionId =>
      "/custom_collections/" ++ Str.of_Z collectionId ++ ".json"
  | deleteSmartCollection collectionId =>
      "/smart_collections/" ++ Str.of_Z collectionId ++ ".json"
  | deleteCollect collectId => "/collects/" ++ Str.of_Z collectId ++ ".json"
  | deleteOrder orderId => "/orders/" ++ Str.of_Z orderId ++ ".json"
  | deleteCustomer customerId => "/customers/" ++ Str.of_Z customerId ++ ".json"
  | deleteDraftOrder draftOrderId =>
      "/draft_orders/" ++ Str.of_Z draftOrderId ++ ".json"
  | deletePriceRule priceRuleId => "/price_rules/" ++ Str.of_Z priceRuleId ++ ".json"
  | deleteDiscountCode priceRuleId discountCodeId =>
      "/price_rules/" ++ Str.of_Z priceRuleId ++ "/discount_codes/"
      ++ Str.of_Z discountCodeId ++ ".json"
  | deleteWebhook webhookId => "/webhooks/" ++ Str.of_Z webhookId ++ ".json"
  | deleteTheme themeId => "/themes/" ++ Str.of_Z themeId ++ ".json"
  | deleteAsset themeId key =>
      "/themes/" ++ Str.of_Z themeId ++ "/assets.json?asset[key]="
      ++ encodeURIComponent key
  | deleteMetafield ownerResource ownerId metafieldId =>
      "/" ++ ownerResource ++ "/" ++ Str.of_Z ownerId ++ "/metafields/"
      ++ Str.of_Z metafieldId ++ ".json"
  end.

Definition delete_options : RequestInit :=
  {| method := Some "DELETE"; body := None |}.

(** *** Operations that post or put without a wrapped input *)

Inductive ActionOperation : Type :=
| closeOrder (orderId : Z)
| openOrder (orderId : Z)
| cancelOrder (orderId : Z) (params : option props)
| adjustInventoryLevel (inventoryItemId locationId adjustment : Z)
| setInventoryLevel (inventoryItemId locationId available : Z)
| cancelFulfillment (fulfillmentId : Z)
| completeDraftOrder (draftOrderId : Z) (paymentPending : option bool)
| updateDiscountCode (priceRuleId discountCodeId : Z) (code : value).

Definition action_method (op : ActionOperation) : string :=
  match op with
  | completeDraftOrder _ _ | updateDiscountCode _ _ _ => "PUT"
  | _ => "POST"
  end.

(** [completeDraftOrder] takes [paymentPending = false] by default and
    prints it into the query. *)
Definition action_endpoint (op : ActionOperation) : string :=
  match op with
  | closeOrder orderId => "/orders/" ++ Str.of_Z orderId ++ "/close.json"
  | openOrder orderId => "/orders/" ++ Str.of_Z orderId ++ "/open.json"
  | cancelOrder orderId _ => "/orders/" ++ Str.of_Z orderId ++ "/cancel.json"
  | adjustInventoryLevel _ _ _ => "/inventory_levels/adjust.json"
  | setInventoryLevel _ _ _ => "/inventory_levels/set.json"
  | cancelFulfillment fulfillmentId =>
      "/fulfillments/" ++ Str.of_Z fulfillmentId ++ "/cancel.json"
  | completeDraftOrder draftOrderId paymentPending =>
      let paymentPending := match paymentPending with
                            | Some b => b
                            | None => false
                            end in
      "/draft_orders/" ++ Str.of_Z draftOrderId ++ "/complete.json?payment_pending="
      ++ to_string (VBool paymentPending)
  | updateDiscountCode priceRuleId discountCodeId _ =>
      "/price_rules/" ++ Str.of_Z priceRuleId ++ "/discount_codes/"
      ++ Str.of_Z discountCodeId ++ ".json"
  end.

(** The body: none for the plain actions; [cancelOrder] sends its
    parameters unwrapped, and only when it is given any. *)
Definition action_body (op : ActionOperation) : option string :=
  match op with
  | closeOrder _ | openOrder _ | cancelFulfillment _ | completeDraftOrder _ _ => None
  | cancelOrder _ params =>
      match params with
      | Some ps => JSON_stringify (toSnakeCase (VObj ps))
      | None => None
      end
  | adjustInventoryLevel inventoryItemId locationId adjustment =>
      adjustInventoryLevel_body inventoryItemId locationId adjustment
  | setInventoryLevel inventoryItemId locationId available =>
      JSON_stringify (VObj [("inventory_item_id", VNum (Num inventoryItemId));
                            ("location_id", VNum (Num locationId));
                            ("available", VNum (Num available))])
  | updateDiscountCode _ _ code =>
      JSON_stringify (VObj [("discountCode", VObj [("code", code)])])
  end.

Definition action_key (op : ActionOperation) : string :=
  match op with
  | closeOrder _ | openOrder _ | cancelOrder _ _ => "order"
  | adjustInventoryLevel _ _ _ | setInventoryLevel _ _ _ => "inventoryLevel"
  | cancelFulfillment _ => "fulfillment"
  | completeDraftOrder _ _ => "draftOrder"
  | updateDiscountCode _ _ _ => "discountCode"
  end.

Definition action_options (op : ActionOperation) : RequestInit :=
  {| method := Some (action_method op); body := action_body op |}.

(** The body of [sendDraftOrderInvoice]. *)
Definition sendDraftOrderInvoice_body (params : option props) : option string :=
  match params with
  | Some ps => JSON_stringify (VObj [("draftOrderInvoice", toSnakeCase (VObj ps))])
  | None => JSON_stringify (VObj [("draftOrderInvoice", VObj [])])
  end.

Section Calls.

Variable credentials : TenantCredentials.
Variable fetch : FetchRequest -> option Response.

Definition readOperation (op : ReadOperation) : outcome value :=
  data <- request credentials fetch (read_endpoint op) no_options ;;
  read data (read_key op).

(** A delete operation awaits the request and returns nothing. *)
Definition deleteOperation (op : DeleteOperation) : outcome value :=
  _ <- request credentials fetch (delete_endpoint op) delete_options ;;
  Returned VUndefined.

Definition actionOperation (op : ActionOperation) : outcome value :=
  data <- request credentials fetch (action_endpoint op) (action_options op) ;;
  read data (action_key op).

(** [sendDraftOrderInvoice] returns the response as it is. *)
Definition sendDraftOrderInvoice (draftOrderId : Z) (params : option props)
  : outcome value :=
  request credentials fetch
    ("/draft_orders/" ++ Str.of_Z draftOrderId ++ "/send_invoice.json")
    {| method := Some "POST"; body := sendDraftOrderInvoice_body params |}.

(** The text [testConnection] reports for a caught error,
    [error instanceof Error ? error.message : 'Connection failed'].  The
    error classes are not among the sources and the errors of the engine
    word their own messages: the text is a parameter of the model. *)
Variable caughtMessage : error -> string.


End Calls.

End Operations.

(** ** Pagination utilities *)

Module Pagination.
Import Js.

Record PaginationDefaults : Type := {
  limit : Z;
  maxLimit : Z
}.

Definition PAGINATION_DEFAULTS : PaginationDefaults :=
  {| limit := 50; maxLimit := 250 |}.

(** [params?.key] on an object that may be left out. *)
Definition optional (params : option props) (key : string) : value :=
  match params with
  | Some ps => match lookup key ps with
               | Some x => x
               | None => VUndefined
               end
  | None => VUndefined
  end.

(** [ToNumber] of the values that stand for a number: [undefined], [null],
    booleans and numbers.  The limit is declared a number; a string, an
    array or an object in its place is outside the model ([None]). *)
Definition to_number (v : value) : option number :=
  match v with
  | VUndefined => Some NaN
  | VNull => Some (Num 0)
  | VBool true => Some (Num 1)
  | VBool false => Some (Num 0)
  | VNum n => Some n
  | VStr _ | VArr _ | VObj _ => None
  end.

(** [Math.min] of two numbers: [NaN] when one of them is. *)
Definition Math_min (a b : number) : number :=
  match a, b with
  | Num x, Num y => Num (Z.min x y)
  | _, _ => NaN
  end.

(** [normalizePaginationParams(params, maxLimit)]; the second parameter
    takes [PAGINATION_DEFAULTS.maxLimit] when it is left out. *)
Definition normalizePaginationParams (params : option props)
    (maxLimit : option number) : option value :=
  let bound := match maxLimit with
               | Some m => m
               | None => Num (Pagination.maxLimit PAGINATION_DEFAULTS)
               end in
  match to_number (or_else (optional params "limit")
                     (VNum (Num (Pagination.limit PAGINATION_DEFAULTS)))) with
  | Some l =>
      Some (VObj [("limit", VNum (Math_min l bound));
                  ("sinceId", optional params "sinceId");
                  ("fields", optional params "fields")])
  | None => None
  end.

Definition emptyPaginatedResponse : value :=
  VObj [("items", VArr []); ("count", VNum (Num 0)); ("hasMore", VBool false)].

(** [createPaginatedResponse(items, options)]; [options] is the empty
    object when it is left out. *)
Definition createPaginatedResponse (items : list value) (options : option props)
  : value :=
  VObj [("items", VArr items);
        ("count", VNum (Num (Z.of_nat (List.length items))));
        ("total", optional options "total");
        ("hasMore", nullish_else (optional options "hasMore") (VBool false));
        ("nextCursor", optional options "nextCursor")].

(** [returnedCount >= requestedLimit]; a comparison with [NaN] is false. *)
Definition hasMoreItems (returnedCount requestedLimit : number) : bool :=
  match returnedCount, requestedLimit with
  | Num c, Num l => Z.leb l c
  | _, _ => false
  end.

(** *** The Link header *)

(** [linkHeader.split(',')]. *)
Fixpoint split_comma (s : string) : list string :=
  match s with
  | EmptyString => [""]
  | String c rest =>
      if Ascii.eqb c "," then "" :: split_comma rest
      else match split_comma rest with
           | piece :: pieces => String c piece :: pieces
           | [] => [Str.of_char c]
           end
  end.

(** The matcher of a regular expression, by backtracking.  [lit t s] reads
    the text [t] at the head of [s] and gives the rest. *)
Fixpoint lit (t s : string) : option string :=
  match t with
  | EmptyString => Some s
  | String a t' =>
      match s with
      | EmptyString => None
      | String b s' => if Ascii.eqb a b then lit t' s' else None
      end
  end.

(** [many p k s]: a greedy [*] over the class [p] followed by the rest of
    the expression [k], which is given the text taken and the text left.
    The longest run is tried first, then the shorter ones in turn. *)
Fixpoint many {A : Type} (p : ascii -> bool) (k : string -> string -> option A)
    (s : string) : option A :=
  match s with
  | EmptyString => k "" ""
  | String c rest =>
      if p c then
        match many p (fun taken left => k (String c taken) left) rest with
        | Some found => Some found
        | None => k "" s
        end
      else k "" s
  end.

(** A greedy [+]: one character of the class, then [many]. *)
Definition many1 {A : Type} (p : ascii -> bool) (k : string -> string -> option A)
    (s : string) : option A :=
  match s with
  | EmptyString => None
  | String c rest =>
      if p c then many p (fun taken left => k (String c taken) left) rest else None
  end.

(** The classes [[^>]], [[^>&]] and [\w]. *)
Definition not_gt (c : ascii) : bool := negb (Ascii.eqb c ">").
Definition not_gt_amp (c : ascii) : bool :=
  (negb (Ascii.eqb c ">") && negb (Ascii.eqb c "&"))%bool.
Definition is_word (c : ascii) : bool :=
  (Str.is_upper c || Str.is_lower c || Str.is_digit c
   || Ascii.eqb c Str.underscore)%bool.

(** The expression [<[^>]*page_info=([^>&]+)[^>]*>;\s*rel="(\w+)"] read at
    the head of [s]: the two groups of the match. *)
Definition matchLinkAt (s : string) : option (string * string) :=
  match lit "<" s with
  | Some s =>
      many not_gt
        (fun _ s =>
           match lit "page_info=" s with
           | Some s =>
               many1 not_gt_amp
                 (fun pageInfo s =>
                    many not_gt
                      (fun _ s =>
                         match lit ">;" s with
                         | Some s =>
                             many Str.is_space
                               (fun _ s =>
                                  match lit ("rel=" ++ Str.of_char Str.dquote) s with
                                  | Some s =>
                                      many1 is_word
                                        (fun rel s =>
                                           match lit (Str.of_char Str.dquote) s with
                                           | Some _ => Some (pageInfo, rel)
                                           | None => None
                                           end) s
                                  | None => None
                                  end) s
                         | None => None
                         end) s) s
           | None => None
           end) s
  | None => None
  end.

(** [link.match(...)]: the first place of [link], from the left, where the
    expression matches. *)
Fixpoint matchLink (link : string) : option (string * string) :=
  match matchLinkAt link with
  | Some groups => Some groups
  | None =>
      match link with
      | EmptyString => None
      | String _ rest => matchLink rest
      end
  end.

(** One turn of the loop over the links. *)
Definition setLink (result : props) (link : string) : props :=
  match matchLink link with
  | Some (pageInfo, rel) =>
      if String.eqb rel "next" then obj_set "next" (VStr pageInfo) result
      else if String.eqb rel "previous" then obj_set "previous" (VStr pageInfo) result
      else result
  | None => result
  end.

(** [parseLinkHeader(linkHeader)]; [None] is [null]. *)
Definition parseLinkHeader (linkHeader : option string) : value :=
  match linkHeader with
  | None => VObj []
  | Some header =>
      if String.eqb header "" then VObj []
      else VObj (fold_left setLink (split_comma header) [])
  end.

(** *** Well-formed links, to state what [parseLinkHeader] reads

    A link [<before page_info=cursor after>; rel="rel"]. *)
Record Link : Type := {
  before : string;
  cursor : string;
  after : string;
  rel : string
}.

Definition link_text (l : Link) : string :=
  "<" ++ before l ++ "page_info=" ++ cursor l ++ after l ++ ">; rel="
  ++ Str.of_char Str.dquote ++ rel l ++ Str.of_char Str.dquote.

Fixpoint every (p : ascii -> bool) (s : string) : bool :=
  match s with
  | EmptyString => true
  | String c rest => (p c && every p rest)%bool
  end.

Definition no_comma (c : ascii) : bool := negb (Ascii.eqb c ",").

Definition plain (c : ascii) : bool :=
  (negb (Ascii.eqb c ">") && negb (Ascii.eqb c ","))%bool.

(** The URL holds no [>] and no comma; the cursor is not empty, holds no
    [&] and is followed by nothing or by [&]; [page_info=] does not occur
    again in the cursor and what follows it; the relation is a word. *)
Definition well_formed_link (l : Link) : bool :=
  (every plain (before l) && every plain (cursor l) && every plain (after l)
   && negb (String.eqb (cursor l) "")
   && every (fun c => negb (Ascii.eqb c "&")) (cursor l)
   && (String.eqb (after l) "" || Str.starts_with "&" (after l))
   && negb (Str.includes "page_info=" (cursor l ++ after l))
   && negb (String.eqb (rel l) "")
   && every is_word (rel l))%bool.

(** What follows a run of a class: nothing, or a character outside it. *)
Definition stops (p : ascii -> bool) (b : string) : Prop :=
  match b with
  | EmptyString => True
  | String c _ => p c = false
  end.

(** What the link sets in the result. *)
Definition setWellFormed (result : props) (l : Link) : props :=
  if String.eqb (rel l) "next" then obj_set "next" (VStr (cursor l)) result
  else if String.eqb (rel l) "previous"
       then obj_set "previous" (VStr (cursor l)) result
       else result.

End Pagination.

(** ** Measures on texts, used to state properties *)

Module Text.

(** The number of occurrences of a character. *)
Fixpoint count_char (c : ascii) (s : string) : nat :=
  match s with
  | EmptyString => 0%nat
  | String d rest => ((if Ascii.eqb c d then 1 else 0) + count_char c rest)%nat
  end.

(** Every character of the text satisfies [p]. *)
Fixpoint all_chars (p : ascii -> bool) (s : string) : bool :=
  match s with
  | EmptyString => true
  | String c rest => (p c && all_chars p rest)%bool
  end.

(** The text without its white space. *)
Fixpoint without_spaces (s : string) : string :=
  match s with
  | EmptyString => EmptyString
  | String c rest =>
      if Str.is_space c then without_spaces rest else String c (without_spaces rest)
  end.

(** The characters [URLSearchParams.toString] writes for a name or a
    value: letters, digits, [* - . _], [+] for a space and [%] before two
    hexadecimal digits. *)
Definition form_char (c : ascii) : bool :=
  let n := Str.code c in
  (Str.is_upper c || Str.is_lower c || Str.is_digit c
   || Nat.eqb n 42 || Nat.eqb n 45 || Nat.eqb n 46 || Nat.eqb n 95
   || Nat.eqb n 43 || Nat.eqb n 37)%bool.

(** The characters [encodeURIComponent] writes. *)
Definition uri_char (c : ascii) : bool :=
  (Operations.uri_unreserved c || Nat.eqb (Str.code c) 37)%bool.

(** The characters that delimit the parts of a URL and of a query. *)
Definition delimiters : list ascii :=
  ["&"; "="; "?"; "#"; "/"; " "; "+"]%char.

End Text.

(** ** The values the properties are stated for

    The program's numbers are doubles and its objects inherit from
    [Object.prototype]; the model has integers and own properties.  The
    definitions below name the values on which the two agree, and word
    the texts the specification speaks of for them. *)

Module Domain.
Import Js CaseConverter Client Formatters.

(** [Number.MAX_SAFE_INTEGER], [2^53 - 1]: every integer up to it is a
    number of the program, and [String] prints it in full. *)
Definition MAX_SAFE_INTEGER : Z := 9007199254740991.

Definition safe_integer (z : Z) : bool :=
  (Z.leb (- MAX_SAFE_INTEGER) z && Z.leb z MAX_SAFE_INTEGER)%bool.

(** Texts within ASCII, where the case mappings and the white space of
    the model are those of the program. *)
Definition ascii_char (c : ascii) : bool := Nat.ltb (Str.code c) 128.



(** The members every object inherits from [Object.prototype]: a read
    [record[k]] finds them when the object has no property [k] of its
    own. *)
Definition prototype_members : list string :=
  ["constructor"; "hasOwnProperty"; "isPrototypeOf"; "propertyIsEnumerable";
   "toLocaleString"; "toString"; "valueOf"; "__proto__";
   "__defineGetter__"; "__defineSetter__"; "__lookupGetter__";
   "__lookupSetter__"].

Definition inherited (key : string) : bool :=
  existsb (String.eqb key) prototype_members.


(** *** Options of a query, as the specification words them *)

(** The scalars of an option: strings, booleans and safe integers. *)
Definition plain_scalar (v : value) : bool :=
  match v with
  | VStr _ | VBool _ => true
  | VNum (Num z) => safe_integer z
  | _ => false
  end.

(** The text of a scalar: a string is its own text, a boolean [true] or
    [false], an integer its decimal numeral.  An element of an array that
    is [null] or [undefined] is joined as the empty text. *)
Definition scalar_text (v : value) : string :=
  match v with
  | VStr s => s
  | VBool true => "true"
  | VBool false => "false"
  | VNum (Num z) => Str.of_Z z
  | VNum NaN => "NaN"
  | _ => ""
  end.

(** An option is left out ([null], [undefined]), a scalar, or an array of
    scalars and left-out elements. *)
Definition plain_option (v : value) : bool :=
  match v with
  | VUndefined | VNull => true
  | VArr items => forallb (fun x => (nullish x || plain_scalar x)%bool) items
  | _ => plain_scalar v
  end.

(** The text of an option: the texts of the elements of an array joined
    with commas, the text of a scalar. *)
Definition option_text (v : value) : string :=
  match v with
  | VArr items => Str.join "," (map scalar_text items)
  | _ => scalar_text v
  end.

(** The parameter of one option: none when the value is [null] or
    [undefined], else the key in wire casing with the text of the value. *)
Definition optionPair (entry : string * value) : list (string * string) :=
  match entry with
  | (key, VUndefined) | (key, VNull) => []
  | (key, value) => [(camelToSnake key, option_text value)]
  end.

(** *** The lines of a field of an entity, as the specification words them *)



(** *** Records of a generic table *)

(** The values [String] prints as the model does: strings, booleans,
    [null], [undefined], [NaN] and safe integers, arrays of such values,
    and objects that have no property named like a member of
    [Object.prototype] (they print as [[object Object]]). *)
Fixpoint printable (v : value) : bool :=
  match v with
  | VNum (Num z) => safe_integer z
  | VArr items => forallb printable items
  | VObj entries => negb (existsb inherited (map fst entries))
  | _ => true
  end.

(** A record: an object whose values are printable. *)
Definition record (item : value) : bool :=
  match item with
  | VObj entries => forallb (fun entry => printable (snd entry)) entries
  | _ => false
  end.

End Domain.

(** * Properties *)

(** ** Induction on values *)

Module ValueInduction.
Import Js.

(** Induction over a value with the hypotheses on the elements of an array
    and on the members of an object. *)
Lemma value_ind (P : value -> Prop)
    (Hundefined : P VUndefined)
    (Hnull : P VNull)
    (Hbool : forall b, P (VBool b))
    (Hnum : forall n, P (VNum n))
    (Hstr : forall s, P (VStr s))
    (Harr : forall items, Forall P items -> P (VArr items))
    (Hobj : forall entries, Forall (fun entry => P (snd entry)) entries ->
                            P (VObj entries)) :
  forall v, P v.
Proof.
  fix IH 1.
  intros [ | | b | n | s | items | entries ].
  - exact Hundefined.
  - exact Hnull.
  - apply Hbool.
  - apply Hnum.
  - apply Hstr.
  - apply Harr.
    induction items as [ | x rest IHrest ]; constructor.
    + apply IH.
    + exact IHrest.
  - apply Hobj.
    induction entries as [ | [k x] rest IHrest ]; constructor.
    + apply IH.
    + exact IHrest.
Qed.

End ValueInduction.

(** ** Case converter *)

Module CaseConverterFacts.
Import Js CaseConverter ValueInduction.

Lemma upper_of_lower (c : ascii) :
  Str.is_upper c = true -> Str.to_upper (Str.to_lower c) = c.
Proof.
  destruct c as [[] [] [] [] [] [] [] []]; vm_compute; congruence.
Qed.

Lemma lower_is_lower (c : ascii) :
  Str.is_upper c = true -> Str.is_lower (Str.to_lower c) = true.
Proof.
  destruct c as [[] [] [] [] [] [] [] []]; vm_compute; congruence.
Qed.

Lemma upper_not_lower (c : ascii) :
  Str.is_upper c = true -> Str.is_lower c = false.
Proof.
  destruct c as [[] [] [] [] [] [] [] []]; vm_compute; congruence.
Qed.

Lemma underscore_not_upper : Str.is_upper Str.underscore = false.
Proof. reflexivity. Qed.

(** The first character of [camelToSnake rest] is a lower-case letter only
    when the first character of [rest] is one. *)
Lemma starts_lower_camelToSnake (rest : string) :
  starts_lower (camelToSnake rest) = starts_lower rest.
Proof.
  destruct rest as [ | d r ]; simpl; [ reflexivity | ].
  destruct (Str.is_upper d) eqn:Hd; simpl; [ | reflexivity ].
  symmetry. now apply upper_not_lower.
Qed.

(** One step of [snakeToCamel] on a character that starts no match. *)
Lemma snakeToCamel_skip (c : ascii) (s : string) :
  (Ascii.eqb c Str.underscore && starts_lower s)%bool = false ->
  snakeToCamel (String c s) = String c (snakeToCamel s).
Proof.
  intros H. destruct s as [ | letter s' ]; [ reflexivity | ].
  simpl in *. now rewrite H.
Qed.

(** The round trip holds for every key in which no underscore stands
    before a lower-case letter. *)
Lemma canonical_roundtrip (key : string) :
  canonical_camel key = true -> snakeToCamel (camelToSnake key) = key.
Proof.
  induction key as [ | c rest IH ]; [ reflexivity | ].
  simpl. intros H. apply andb_prop in H. destruct H as [Hc Hrest].
  apply negb_true_iff in Hc.
  destruct (Str.is_upper c) eqn:Hup.
  - cbn [snakeToCamel].
    replace (Ascii.eqb Str.underscore Str.underscore) with true by reflexivity.
    rewrite (lower_is_lower _ Hup). cbn [andb].
    rewrite (upper_of_lower _ Hup). now rewrite IH.
  - rewrite snakeToCamel_skip.
    + now rewrite IH.
    + now rewrite starts_lower_camelToSnake.
Qed.

(** The round trip is lost on a key that is already in wire casing. *)
Lemma roundtrip_lost_on_wire_key :
  snakeToCamel (camelToSnake "since_id") = "sinceId".
Proof. reflexivity. Qed.

Lemma schema_vocabulary_canonical :
  forallb canonical_camel schema_vocabulary = true.
Proof. vm_compute. reflexivity. Qed.

Lemma existsb_eqb_In (key : string) (keys : list string) :
  existsb (String.eqb key) keys = true -> In key keys.
Proof.
  intros H. apply existsb_exists in H. destruct H as [k [Hin Heq]].
  apply String.eqb_eq in Heq. now subst.
Qed.

(** C1.  For every key of the schema vocabulary (the field names the entity
    types declare), converting to wire casing and back returns the key:
    [snakeToCamel (camelToSnake key) = key]. *)
Theorem schema_vocabulary_roundtrip (key : string) :
  In key schema_vocabulary -> snakeToCamel (camelToSnake key) = key.
Proof.
  intros Hin. apply canonical_roundtrip.
  pose proof schema_vocabulary_canonical as Hall.
  rewrite forallb_forall in Hall. now apply Hall.
Qed.

Lemma schema_vocabulary_roundtrip_witness :
  In "createdAtMin" schema_vocabulary
  /\ snakeToCamel (camelToSnake "createdAtMin") = "createdAtMin".
Proof.
  split.
  - apply existsb_eqb_In. vm_compute. reflexivity.
  - apply (schema_vocabulary_roundtrip "createdAtMin").
    apply existsb_eqb_In. vm_compute. reflexivity.
Defined.

End CaseConverterFacts.

(** ** Writing the properties of an object one after the other *)

Module ObjectFacts.
Import Js.

Lemma has_key_existsb (key : string) (ps : props) :
  has_key key ps = existsb (String.eqb key) (map fst ps).
Proof.
  unfold has_key. induction ps as [ | [k x] rest IH ]; [ reflexivity | ].
  simpl. rewrite (String.eqb_sym key k).
  destruct (String.eqb k key); [ reflexivity | exact IH ].
Qed.

Lemma distinct_app (l1 l2 : list string) :
  distinct (l1 ++ l2) = true ->
  distinct l1 = true /\ distinct l2 = true
  /\ forall k, In k l2 -> existsb (String.eqb k) l1 = false.
Proof.
  induction l1 as [ | a l1 IH ]; simpl.
  - intros H. repeat split; auto.
  - intros H. apply andb_prop in H. destruct H as [Ha Hrest].
    apply negb_true_iff in Ha. rewrite existsb_app in Ha.
    apply orb_false_iff in Ha. destruct Ha as [Ha1 Ha2].
    destruct (IH Hrest) as [H1 [H2 H3]].
    rewrite Ha1, H1. repeat split; auto.
    intros k Hk. rewrite (H3 k Hk), orb_false_r.
    destruct (String.eqb k a) eqn:Hka; [ | reflexivity ].
    apply String.eqb_eq in Hka. subst k.
    assert (existsb (String.eqb a) l2 = true) as Hex.
    { apply existsb_exists. exists a. split; [ exact Hk | apply String.eqb_refl ]. }
    congruence.
Qed.

Lemma in_property_order_app (l1 l2 : list string) :
  in_property_order (l1 ++ l2) = true ->
  in_property_order l1 = true
  /\ forall k k', In k l1 -> In k' l2 -> may_follow k k' = true.
Proof.
  induction l1 as [ | a l1 IH ]; simpl.
  - intros _. split; [ reflexivity | intros k k' [] ].
  - intros H. apply andb_prop in H. destruct H as [Ha Hrest].
    rewrite forallb_app in Ha. apply andb_prop in Ha. destruct Ha as [Ha1 Ha2].
    destruct (IH Hrest) as [H1 H2]. rewrite Ha1, H1. split; [ reflexivity | ].
    intros k k' [Hk | Hk] Hk'.
    + subst k. rewrite forallb_forall in Ha2. now apply Ha2.
    + now apply H2.
Qed.

Lemma settable_app (l1 l2 : list string) :
  settable (l1 ++ l2) = true -> settable l1 = true.
Proof.
  unfold settable. intros H.
  apply andb_prop in H. destruct H as [H Hord].
  apply andb_prop in H. destruct H as [Hdis Hproto].
  apply distinct_app in Hdis. destruct Hdis as [Hdis _].
  apply in_property_order_app in Hord. destruct Hord as [Hord _].
  apply negb_true_iff in Hproto. rewrite existsb_app in Hproto.
  apply orb_false_iff in Hproto. destruct Hproto as [Hproto _].
  now rewrite Hdis, Hproto, Hord.
Qed.

(** A new array index larger than every key of the object goes last. *)
Lemma insert_index_last (n : Z) (key : string) (v : value) (ps : props) :
  array_index key = Some n ->
  (forall k, In k (map fst ps) -> may_follow k key = true) ->
  insert_index n key v ps = (ps ++ [(key, v)])%list.
Proof.
  intros Hkey. induction ps as [ | [k x] rest IH ]; intros Hall; [ reflexivity | ].
  simpl. pose proof (Hall k (or_introl eq_refl)) as Hk.
  unfold may_follow in Hk. rewrite Hkey in Hk.
  destruct (array_index k) as [m | ]; [ | discriminate ].
  rewrite Hk. f_equal. apply IH. intros k' Hk'. apply Hall. now right.
Qed.

(** When its key extends the keys of the object to a [settable] list,
    [obj_set] writes the property after the others. *)
Lemma obj_set_last (key : string) (v : value) (ps : props) :
  settable (map fst ps ++ [key]) = true ->
  obj_set key v ps = (ps ++ [(key, v)])%list.
Proof.
  unfold settable. intros H.
  apply andb_prop in H. destruct H as [H Hord].
  apply andb_prop in H. destruct H as [Hdis Hproto].
  apply distinct_app in Hdis. destruct Hdis as [_ [_ Hfresh]].
  apply in_property_order_app in Hord. destruct Hord as [_ Hord].
  apply negb_true_iff in Hproto. rewrite existsb_app in Hproto.
  apply orb_false_iff in Hproto. destruct Hproto as [_ Hproto].
  cbn [existsb] in Hproto. rewrite orb_false_r in Hproto.
  unfold obj_set. rewrite (String.eqb_sym key), Hproto.
  rewrite has_key_existsb, (Hfresh key (or_introl eq_refl)).
  destruct (array_index key) as [n | ] eqn:Hkey; [ | reflexivity ].
  apply insert_index_last; [ exact Hkey | ].
  intros k Hk. apply Hord; [ exact Hk | now left ].
Qed.

End ObjectFacts.

(** ** The two key transforms on their own casings *)

Module CasingFacts.
Import Js CaseConverter CaseConverterFacts ObjectFacts.

Lemma lower_of_upper (c : ascii) :
  Str.is_lower c = true -> Str.to_lower (Str.to_upper c) = c.
Proof.
  destruct c as [[] [] [] [] [] [] [] []]; vm_compute; congruence.
Qed.

Lemma upper_is_upper (c : ascii) :
  Str.is_lower c = true -> Str.is_upper (Str.to_upper c) = true.
Proof.
  destruct c as [[] [] [] [] [] [] [] []]; vm_compute; congruence.
Qed.

Lemma upper_not_lower_case (c : ascii) :
  Str.is_upper c = true -> Str.is_upper (Str.to_lower c) = false.
Proof.
  destruct c as [[] [] [] [] [] [] [] []]; vm_compute; congruence.
Qed.

Lemma upper_not_digit (c : ascii) :
  Str.is_upper c = true -> Str.is_digit c = false.
Proof.
  destruct c as [[] [] [] [] [] [] [] []]; vm_compute; congruence.
Qed.

Lemma upper_not_underscore (c : ascii) :
  Str.is_upper c = true -> Ascii.eqb c Str.underscore = false.
Proof.
  destruct c as [[] [] [] [] [] [] [] []]; vm_compute; congruence.
Qed.

Lemma digit_not_underscore (c : ascii) :
  Str.is_digit c = true -> Ascii.eqb c Str.underscore = false.
Proof.
  destruct c as [[] [] [] [] [] [] [] []]; vm_compute; congruence.
Qed.

(** One step of [snakeToCamel] on a match. *)
Lemma snakeToCamel_match (letter : ascii) (s : string) :
  Str.is_lower letter = true ->
  snakeToCamel (String Str.underscore (String letter s))
  = String (Str.to_upper letter) (snakeToCamel s).
Proof. intros H. cbn [snakeToCamel]. now rewrite H. Qed.

(** The two cases of [snakeToCamel] on a string of two characters or more. *)
Lemma snakeToCamel_step (c d : ascii) (r : string) :
  (Ascii.eqb c Str.underscore = true /\ Str.is_lower d = true
   /\ snakeToCamel (String c (String d r)) = String (Str.to_upper d) (snakeToCamel r))
  \/ ((Ascii.eqb c Str.underscore && Str.is_lower d)%bool = false
      /\ snakeToCamel (String c (String d r)) = String c (snakeToCamel (String d r))).
Proof.
  destruct (Ascii.eqb c Str.underscore && Str.is_lower d)%bool eqn:H.
  - left. apply andb_prop in H. destruct H as [Hc Hd].
    repeat split; auto. apply Ascii.eqb_eq in Hc. subst c.
    now apply snakeToCamel_match.
  - right. split; [ reflexivity | ]. now apply snakeToCamel_skip.
Qed.

(** Induction over a string two characters at a time. *)
Lemma string_pair_ind (P : string -> Prop) :
  P "" ->
  (forall c, P (String c "")) ->
  (forall c d r, P r -> P (String d r) -> P (String c (String d r))) ->
  forall s, P s.
Proof.
  intros Hnil Hone Hstep s.
  assert (P s /\ forall c, P (String c s)) as [H _]; [ | exact H ].
  induction s as [ | d r [IHr IHdr] ].
  - split; [ exact Hnil | exact Hone ].
  - split; [ apply IHdr | ]. intros c. apply Hstep; [ exact IHr | apply IHdr ].
Qed.

(** On wire casing the way to internal casing and back is the identity. *)
Lemma wire_roundtrip (key : string) :
  no_upper key = true -> camelToSnake (snakeToCamel key) = key.
Proof.
  induction key as [ | c | c d r IHr IHdr ] using string_pair_ind.
  - reflexivity.
  - simpl. intros H. rewrite andb_true_r in H. apply negb_true_iff in H.
    now rewrite H.
  - intros H. cbn [no_upper] in H. apply andb_prop in H. destruct H as [Hc Hrest].
    apply negb_true_iff in Hc.
    destruct (snakeToCamel_step c d r) as [[Hu [Hd ->]] | [_ ->]].
    + apply Ascii.eqb_eq in Hu. subst c. cbn [camelToSnake].
      rewrite (upper_is_upper _ Hd), (lower_of_upper _ Hd), IHr; [ reflexivity | ].
      cbn [no_upper] in Hrest. apply andb_prop in Hrest. now destruct Hrest.
    + cbn [camelToSnake]. rewrite Hc. now rewrite (IHdr Hrest).
Qed.

Lemma no_underscore_canonical (key : string) :
  no_underscore key = true -> canonical_camel key = true.
Proof.
  induction key as [ | c rest IH ]; [ reflexivity | ].
  simpl. intros H. apply andb_prop in H. destruct H as [Hc Hrest].
  apply negb_true_iff in Hc. rewrite Hc, (IH Hrest). reflexivity.
Qed.

(** On internal casing the way to wire casing and back is the identity. *)
Lemma internal_roundtrip (key : string) :
  no_underscore key = true -> snakeToCamel (camelToSnake key) = key.
Proof. intros H. now apply canonical_roundtrip, no_underscore_canonical. Qed.

(** [camelToSnake] is one-to-one on internal casing, [snakeToCamel] on wire
    casing. *)
Lemma camelToSnake_injective (a b : string) :
  no_underscore a = true -> no_underscore b = true ->
  camelToSnake a = camelToSnake b -> a = b.
Proof.
  intros Ha Hb H.
  rewrite <- (canonical_roundtrip a), <- (canonical_roundtrip b), H;
    auto using no_underscore_canonical.
Qed.

Lemma snakeToCamel_injective (a b : string) :
  no_upper a = true -> no_upper b = true ->
  snakeToCamel a = snakeToCamel b -> a = b.
Proof.
  intros Ha Hb H.
  now rewrite <- (wire_roundtrip a), <- (wire_roundtrip b), H.
Qed.

(** Neither transform turns a key into an array index or out of one. *)
Lemma array_index_not_digits (key : string) :
  all_digits key = false -> array_index key = None.
Proof.
  intros H. unfold array_index. destruct key as [ | c rest ]; [ reflexivity | ].
  rewrite H. now destruct (Ascii.eqb c "0" && negb (String.eqb rest ""))%bool.
Qed.

Lemma all_digits_camelToSnake (key : string) :
  all_digits (camelToSnake key) = all_digits key.
Proof.
  induction key as [ | c rest IH ]; [ reflexivity | ].
  cbn [camelToSnake]. destruct (Str.is_upper c) eqn:Hc.
  - cbn [all_digits]. now rewrite (upper_not_digit _ Hc).
  - cbn [all_digits]. now rewrite IH.
Qed.

Lemma digits_camelToSnake (key : string) :
  all_digits key = true -> camelToSnake key = key.
Proof.
  induction key as [ | c rest IH ]; [ reflexivity | ].
  cbn [all_digits camelToSnake]. intros H. apply andb_prop in H. destruct H as [Hc Hrest].
  destruct (Str.is_upper c) eqn:Hup.
  - rewrite (upper_not_digit _ Hup) in Hc. discriminate.
  - now rewrite (IH Hrest).
Qed.

Lemma array_index_camelToSnake (key : string) :
  array_index (camelToSnake key) = array_index key.
Proof.
  destruct (all_digits key) eqn:H.
  - now rewrite (digits_camelToSnake key H).
  - rewrite (array_index_not_digits key H). apply array_index_not_digits.
    now rewrite all_digits_camelToSnake.
Qed.

Lemma all_digits_snakeToCamel (key : string) :
  all_digits (snakeToCamel key) = all_digits key.
Proof.
  induction key as [ | c | c d r IHr IHdr ] using string_pair_ind;
    [ reflexivity | reflexivity | ].
  destruct (snakeToCamel_step c d r) as [[Hu [Hd ->]] | [_ ->]].
  - apply Ascii.eqb_eq in Hu. subst c. cbn [all_digits].
    now rewrite (upper_not_digit _ (upper_is_upper _ Hd)).
  - cbn [all_digits] in *. now rewrite IHdr.
Qed.

Lemma digits_snakeToCamel (key : string) :
  all_digits key = true -> snakeToCamel key = key.
Proof.
  induction key as [ | c | c d r IHr IHdr ] using string_pair_ind;
    [ reflexivity | reflexivity | ].
  intros H. cbn [all_digits] in H. apply andb_prop in H. destruct H as [Hc Hrest].
  rewrite snakeToCamel_skip.
  - f_equal. apply IHdr. exact Hrest.
  - now rewrite (digit_not_underscore _ Hc).
Qed.

Lemma array_index_snakeToCamel (key : string) :
  array_index (snakeToCamel key) = array_index key.
Proof.
  destruct (all_digits key) eqn:H.
  - now rewrite (digits_snakeToCamel key H).
  - rewrite (array_index_not_digits key H). apply array_index_not_digits.
    now rewrite all_digits_snakeToCamel.
Qed.

(** What [snakeToCamel] returns has no underscore left before a lower-case
    letter, so it is never [__proto__]. *)
Lemma starts_lower_snakeToCamel (d : ascii) (r : string) :
  starts_lower (snakeToCamel (String d r)) = true -> Str.is_lower d = true.
Proof.
  destruct r as [ | e r ]; [ simpl; auto | ].
  destruct (snakeToCamel_step d e r) as [[_ [He ->]] | [_ ->]]; simpl; auto.
  intros H. rewrite (upper_not_lower _ (upper_is_upper _ He)) in H. discriminate.
Qed.

Lemma snakeToCamel_canonical (key : string) :
  canonical_camel (snakeToCamel key) = true.
Proof.
  induction key as [ | c | c d r IHr IHdr ] using string_pair_ind.
  - reflexivity.
  - simpl. now rewrite andb_false_r.
  - destruct (snakeToCamel_step c d r) as [[_ [Hd ->]] | [Hno ->]].
    + cbn [canonical_camel].
      rewrite (upper_not_underscore _ (upper_is_upper _ Hd)), IHr. reflexivity.
    + cbn [canonical_camel]. rewrite IHdr, andb_true_r. apply negb_true_iff.
      destruct (Ascii.eqb c Str.underscore) eqn:Hc; [ | reflexivity ].
      cbn [andb] in *.
      destruct (starts_lower (snakeToCamel (String d r))) eqn:Hs; [ | reflexivity ].
      apply starts_lower_snakeToCamel in Hs. congruence.
Qed.

Lemma snakeToCamel_not_proto (key : string) :
  String.eqb "__proto__" (snakeToCamel key) = false.
Proof.
  destruct (String.eqb_spec "__proto__" (snakeToCamel key)) as [H | _]; [ | reflexivity ].
  pose proof (snakeToCamel_canonical key) as Hc. rewrite <- H in Hc. discriminate Hc.
Qed.

Lemma camelToSnake_not_proto (key : string) :
  no_underscore key = true -> String.eqb "__proto__" (camelToSnake key) = false.
Proof.
  intros Hkey.
  destruct (String.eqb_spec "__proto__" (camelToSnake key)) as [H | _]; [ | reflexivity ].
  pose proof (canonical_roundtrip key (no_underscore_canonical key Hkey)) as Hback.
  rewrite <- H in Hback. subst key. discriminate Hkey.
Qed.

(** A transform that is one-to-one on the keys, keeps array indices and does
    not reach [__proto__] keeps well-formed keys [settable]. *)
Lemma settable_map (f : string -> string) (p : string -> bool) (keys : list string) :
  (forall a b, p a = true -> p b = true -> f a = f b -> a = b) ->
  (forall k, array_index (f k) = array_index k) ->
  (forall k, p k = true -> String.eqb "__proto__" (f k) = false) ->
  forallb p keys = true ->
  well_formed_keys keys = true ->
  settable (map f keys) = true.
Proof.
  intros Hinj Hindex Hproto Hp Hwf. unfold well_formed_keys in Hwf.
  apply andb_prop in Hwf. destruct Hwf as [Hdis Hord].
  unfold settable. repeat (apply andb_true_intro; split).
  - clear Hord. induction keys as [ | k rest IH ]; [ reflexivity | ].
    cbn [map distinct forallb] in *.
    apply andb_prop in Hp. destruct Hp as [Hk Hp].
    apply andb_prop in Hdis. destruct Hdis as [Hfresh Hdis].
    rewrite (IH Hp Hdis), andb_true_r. apply negb_true_iff.
    apply negb_true_iff in Hfresh.
    destruct (existsb (String.eqb (f k)) (map f rest)) eqn:Hex; [ | reflexivity ].
    apply existsb_exists in Hex. destruct Hex as [y [Hy Heq]].
    apply in_map_iff in Hy. destruct Hy as [k' [<- Hk']].
    apply String.eqb_eq in Heq.
    rewrite forallb_forall in Hp.
    apply Hinj in Heq; auto. subst k'.
    assert (existsb (String.eqb k) rest = true) as Hin.
    { apply existsb_exists. exists k. split; [ exact Hk' | apply String.eqb_refl ]. }
    congruence.
  - apply negb_true_iff.
    destruct (existsb (String.eqb "__proto__") (map f keys)) eqn:Hex; [ | reflexivity ].
    apply existsb_exists in Hex. destruct Hex as [y [Hy Heq]].
    apply in_map_iff in Hy. destruct Hy as [k [<- Hk]].
    rewrite forallb_forall in Hp. rewrite (Hproto k (Hp k Hk)) in Heq. discriminate.
  - clear Hdis Hp. induction keys as [ | k rest IH ]; [ reflexivity | ].
    cbn [map in_property_order] in *.
    apply andb_prop in Hord. destruct Hord as [Hk Hord].
    rewrite (IH Hord), andb_true_r. rewrite forallb_forall in Hk |- *.
    intros y Hy. apply in_map_iff in Hy. destruct Hy as [k' [<- Hk']].
    unfold may_follow. rewrite !Hindex. apply (Hk k' Hk').
Qed.

Lemma settable_camelToSnake (keys : list string) :
  forallb no_underscore keys = true ->
  well_formed_keys keys = true ->
  settable (map camelToSnake keys) = true.
Proof.
  apply settable_map.
  - exact camelToSnake_injective.
  - exact array_index_camelToSnake.
  - exact camelToSnake_not_proto.
Qed.

Lemma settable_snakeToCamel (keys : list string) :
  forallb no_upper keys = true ->
  well_formed_keys keys = true ->
  settable (map snakeToCamel keys) = true.
Proof.
  apply settable_map.
  - exact snakeToCamel_injective.
  - exact array_index_snakeToCamel.
  - intros k _. apply snakeToCamel_not_proto.
Qed.

End CasingFacts.

(** ** The recursive key transform *)

Module TransformFacts.
Import Js CaseConverter Samples ValueInduction CaseConverterFacts ObjectFacts CasingFacts.

Lemma transformKeys_object (f : string -> string) (entries : props) :
  transformKeys f (VObj entries) = VObj (fold_left (setEntry f) entries []).
Proof. reflexivity. Qed.

Lemma transformKeys_array (f : string -> string) (items : list value) :
  transformKeys f (VArr items) = VArr (map (transformKeys f) items).
Proof. reflexivity. Qed.

(** Scalars, [null] and [undefined] are returned as they are. *)
Lemma transformKeys_scalar (f : string -> string) (v : value) :
  typeof_object v = false -> transformKeys f v = v.
Proof. destruct v; simpl; congruence. Qed.

Lemma transformKeys_null (f : string -> string) : transformKeys f VNull = VNull.
Proof. reflexivity. Qed.

(** Over keys that stay [settable], the loop appends the entries in turn,
    each under its rewritten key. *)
Lemma fold_setEntry (f : string -> string) (entries result : props) :
  settable (map fst result ++ map (fun entry => f (fst entry)) entries) = true ->
  fold_left (setEntry f) entries result
  = (result ++ map (fun entry => (f (fst entry), transformKeys f (snd entry))) entries)%list.
Proof.
  revert result. induction entries as [ | [k x] rest IH ]; intros result Hset.
  - simpl. now rewrite app_nil_r.
  - cbn [fold_left setEntry map fst snd] in *.
    assert (settable (map fst result ++ [f k]) = true) as Hone.
    { apply settable_app with (l2 := map (fun entry => f (fst entry)) rest).
      now rewrite <- app_assoc. }
    rewrite (obj_set_last _ _ _ Hone), IH.
    + now rewrite <- app_assoc.
    + rewrite map_app, <- app_assoc. exact Hset.
Qed.

Lemma transformKeys_settable (f : string -> string) (entries : props) :
  settable (map (fun entry => f (fst entry)) entries) = true ->
  transformKeys f (VObj entries)
  = VObj (map (fun entry => (f (fst entry), transformKeys f (snd entry))) entries).
Proof.
  intros Hset. rewrite transformKeys_object, fold_setEntry; [ reflexivity | exact Hset ].
Qed.

(** Whatever [obj_set] leaves in the object was there or is the property
    written. *)
Lemma In_replace_value (key : string) (v : value) (ps : props) (entry : string * value) :
  In entry (replace_value key v ps) -> entry = (key, v) \/ In entry ps.
Proof.
  induction ps as [ | [k x] rest IH ]; simpl; [ tauto | ].
  destruct (String.eqb_spec k key) as [-> | _]; simpl; intros [H | H]; auto.
  destruct (IH H); auto.
Qed.

Lemma In_insert_index (n : Z) (key : string) (v : value) (ps : props)
    (entry : string * value) :
  In entry (insert_index n key v ps) -> entry = (key, v) \/ In entry ps.
Proof.
  induction ps as [ | [k x] rest IH ]; simpl; [ intros [H | []]; auto | ].
  destruct (array_index k) as [m | ]; [ destruct (Z.ltb m n) | ]; simpl;
    intros [H | H]; auto.
  destruct (IH H); auto.
Qed.

Lemma In_obj_set (key : string) (v : value) (ps : props) (entry : string * value) :
  In entry (obj_set key v ps) -> entry = (key, v) \/ In entry ps.
Proof.
  unfold obj_set.
  destruct (String.eqb key "__proto__"); [ auto | ].
  destruct (has_key key ps); [ apply In_replace_value | ].
  destruct (array_index key); [ apply In_insert_index | ].
  intros H. apply in_app_or in H. destruct H as [H | [H | []]]; auto.
Qed.

Lemma In_fold_setEntry (f : string -> string) (entries result : props)
    (name : string) (w : value) :
  In (name, w) (fold_left (setEntry f) entries result) ->
  In (name, w) result
  \/ exists key x, In (key, x) entries /\ name = f key /\ w = transformKeys f x.
Proof.
  revert result. induction entries as [ | [k x] rest IH ]; intros result; [ now left | ].
  cbn [fold_left setEntry]. intros H. apply IH in H.
  destruct H as [H | [key [x' [Hin [Hname Hw]]]]].
  - apply In_obj_set in H. destruct H as [H | H]; [ | now left ].
    injection H as -> ->. right. exists k, x. simpl. auto.
  - right. exists key, x'. simpl. auto.
Qed.

Lemma camelToSnake_no_upper (key : string) : no_upper (camelToSnake key) = true.
Proof.
  induction key as [ | c rest IH ]; [ reflexivity | ].
  cbn [camelToSnake]. destruct (Str.is_upper c) eqn:Hc; cbn [no_upper].
  - rewrite IH, underscore_not_upper.
    rewrite (upper_not_lower_case c Hc). reflexivity.
  - now rewrite Hc, IH.
Qed.

(** Every key [toSnakeCase] writes is in wire casing. *)
Lemma toSnakeCase_wire_keys (v : value) : keys_all no_upper (toSnakeCase v) = true.
Proof.
  unfold toSnakeCase.
  induction v as [ | | b | n | s | items IH | entries IH ] using value_ind;
    try reflexivity.
  - cbn [transformKeys keys_all]. rewrite forallb_forall. intros y Hy.
    apply in_map_iff in Hy. destruct Hy as [x [<- Hx]].
    rewrite Forall_forall in IH. now apply IH.
  - rewrite transformKeys_object. cbn [keys_all]. rewrite Forall_forall in IH.
    apply andb_true_intro. split; rewrite forallb_forall.
    + intros name Hname. apply in_map_iff in Hname.
      destruct Hname as [[name' w] [<- Hin]]. cbn [fst].
      apply In_fold_setEntry in Hin.
      destruct Hin as [[] | [key [x [_ [-> _]]]]]. apply camelToSnake_no_upper.
    + intros [name w] Hin. apply In_fold_setEntry in Hin.
      destruct Hin as [[] | [key [x [Hx [_ ->]]]]]. apply (IH _ Hx).
Qed.

(** The two readings of a mapping differ when two of its keys are
    rewritten to the same key: one entry is left, with the later value. *)
Lemma transformKeys_merges_colliding_keys :
  toSnakeCase (VObj [("sinceId", VStr "5"); ("since_id", VStr "6")])
  = VObj [("since_id", VStr "6")]
  /\ rewriteKeys camelToSnake (VObj [("sinceId", VStr "5"); ("since_id", VStr "6")])
     = VObj [("since_id", VStr "5"); ("since_id", VStr "6")]
  /\ toSnakeCase (VObj [("sinceId", VStr "5"); ("since_id", VStr "6")])
     <> rewriteKeys camelToSnake (VObj [("sinceId", VStr "5"); ("since_id", VStr "6")]).
Proof.
  repeat split. vm_compute. discriminate.
Qed.

(** Over keys that stay [settable] the transform is the structural copy. *)
Lemma transformKeys_kept (f : string -> string) (v : value) :
  keys_kept f v = true -> transformKeys f v = rewriteKeys f v.
Proof.
  induction v as [ | | b | n | s | items IH | entries IH ] using value_ind;
    try reflexivity.
  - cbn [keys_kept transformKeys rewriteKeys]. intros Hkept. f_equal.
    rewrite forallb_forall in Hkept. rewrite Forall_forall in IH.
    apply map_ext_in. intros x Hx. apply IH; auto.
  - cbn [keys_kept]. intros Hkept.
    apply andb_prop in Hkept. destruct Hkept as [Hset Hkept].
    rewrite (transformKeys_settable f entries Hset). cbn [rewriteKeys]. f_equal.
    rewrite forallb_forall in Hkept. rewrite Forall_forall in IH.
    apply map_ext_in. intros [k x] Hin. cbn [fst snd]. f_equal.
    apply (IH _ Hin). apply (Hkept _ Hin).
Qed.

(** A transform that keeps well-formed keys of the casing [p] settable
    keeps the keys of every value of that casing. *)
Lemma keys_kept_casing (f : string -> string) (p : string -> bool) (v : value) :
  (forall keys, forallb p keys = true -> well_formed_keys keys = true ->
                settable (map f keys) = true) ->
  well_formed v = true -> keys_all p v = true -> keys_kept f v = true.
Proof.
  intros Hf.
  induction v as [ | | b | n | s | items IH | entries IH ] using value_ind;
    try reflexivity.
  - cbn [well_formed keys_all keys_kept]. intros Hwf Hall.
    rewrite forallb_forall in Hwf, Hall |- *. rewrite Forall_forall in IH.
    intros x Hx. apply IH; auto.
  - cbn [well_formed keys_all keys_kept]. intros Hwf Hall.
    apply andb_prop in Hwf. destruct Hwf as [Hkeys Hwf].
    apply andb_prop in Hall. destruct Hall as [Hp Hall].
    apply andb_true_intro. split.
    + rewrite <- (map_map fst f). now apply Hf.
    + rewrite forallb_forall in Hwf, Hall |- *. rewrite Forall_forall in IH.
      intros [k x] Hin. apply (IH _ Hin); [ apply (Hwf _ Hin) | apply (Hall _ Hin) ].
Qed.

(** The key [__proto__] is a second way to lose an entry. *)
Lemma transformKeys_drops_proto :
  toSnakeCase (VObj [("_Proto__", VNum (Num 1))]) = VObj [].
Proof. reflexivity. Qed.

(** C2, amended.  For every nested structure of mappings, sequences and
    scalars in which the keys of each mapping stay pairwise distinct once
    rewritten (none of them [__proto__], and in property order),
    [transformKeys] returns the structural copy: every mapping key
    rewritten by the transform, nested mappings and sequences descended
    into, scalars and [null] unchanged.  That is so of [toCamelCase] on
    every structure whose keys are in wire casing, and of [toSnakeCase] on
    every structure whose keys are in internal casing. *)
Theorem transformKeys_rewrites_keys :
  (forall f v, keys_kept f v = true -> transformKeys f v = rewriteKeys f v)
  /\ (forall v, well_formed v = true -> keys_all no_upper v = true ->
                toCamelCase v = rewriteKeys snakeToCamel v)
  /\ (forall v, well_formed v = true -> keys_all no_underscore v = true ->
                toSnakeCase v = rewriteKeys camelToSnake v).
Proof.
  split; [ exact transformKeys_kept | split ]; intros v Hwf Hall.
  - apply transformKeys_kept.
    now apply (keys_kept_casing snakeToCamel no_upper v settable_snakeToCamel).
  - apply transformKeys_kept.
    now apply (keys_kept_casing camelToSnake no_underscore v settable_camelToSnake).
Qed.

Lemma transformKeys_rewrites_keys_witness :
  well_formed sample_order = true
  /\ keys_all no_underscore sample_order = true
  /\ toSnakeCase sample_order = rewriteKeys camelToSnake sample_order.
Proof.
  split; [ | split ].
  - vm_compute. reflexivity.
  - vm_compute. reflexivity.
  - apply (proj2 (proj2 transformKeys_rewrites_keys) sample_order).
    + vm_compute. reflexivity.
    + vm_compute. reflexivity.
Defined.

End TransformFacts.

(** ** Decimal numerals *)

Module NumeralFacts.
Import Js.

Lemma digits_prefix_acc (d : Decimal.uint) (acc : positive) :
  digits_prefix (Z.pos acc) (NilEmpty.string_of_uint d)
  = Z.pos (Pos.of_uint_acc d acc).
Proof.
  revert acc.
  induction d as [ | d IH | d IH | d IH | d IH | d IH | d IH | d IH | d IH | d IH | d IH ];
    intros acc; [ reflexivity | .. ];
    cbn [NilEmpty.string_of_uint digits_prefix Pos.of_uint_acc];
    match goal with
    | |- context [Str.is_digit ?c] =>
        replace (Str.is_digit c) with true by reflexivity
    end;
    rewrite <- IH; f_equal;
    match goal with
    | |- context [Str.digit_value ?c] =>
        let v := eval vm_compute in (Str.digit_value c) in
        change (Str.digit_value c) with v
    end;
    lia.
Qed.

Lemma digits_prefix_zero (d : Decimal.uint) :
  digits_prefix 0 (NilEmpty.string_of_uint d) = Z.of_N (Pos.of_uint d).
Proof.
  induction d as [ | d IH | d IH | d IH | d IH | d IH | d IH | d IH | d IH | d IH | d IH ];
    [ reflexivity | exact IH | .. ];
    cbn [NilEmpty.string_of_uint digits_prefix Pos.of_uint];
    match goal with
    | |- context [Str.is_digit ?c] =>
        replace (Str.is_digit c) with true by reflexivity
    end;
    apply (digits_prefix_acc d).
Qed.

Lemma starts_with_digit_numeral (d : Decimal.uint) :
  d <> Decimal.Nil -> starts_with_digit (NilEmpty.string_of_uint d) = true.
Proof. destruct d; intros H; [ congruence | reflexivity .. ]. Qed.

Lemma trim_start_digit (s : string) :
  starts_with_digit s = true -> Str.trim_start s = s.
Proof.
  destruct s as [ | c rest ]; [ reflexivity | ].
  simpl. intros H.
  destruct c as [[] [] [] [] [] [] [] []]; try discriminate H; reflexivity.
Qed.

(** [parseInt] on an unsigned numeral. *)
Lemma parseInt_digits (s : string) :
  starts_with_digit s = true -> parseInt s = Num (digits_prefix 0 s).
Proof.
  intros H. unfold parseInt. rewrite (trim_start_digit s H).
  destruct s as [ | c rest ]; [ discriminate H | ].
  assert (forall z, Num (1 * z) = Num z) as Hone
      by (intros z; now rewrite Z.mul_1_l).
  destruct c as [[] [] [] [] [] [] [] []]; try discriminate H;
    cbv beta iota; rewrite H; apply Hone.
Qed.

Lemma numeral_of_positive (p : positive) :
  Str.of_Z (Z.pos p) = NilEmpty.string_of_uint (Pos.to_uint p).
Proof.
  unfold Str.of_Z. cbn [Z.to_int NilZero.string_of_int NilZero.string_of_uint].
  pose proof (DecimalPos.Unsigned.to_uint_nonnil p) as Hnil.
  destruct (Pos.to_uint p); [ congruence | reflexivity .. ].
Qed.

Lemma digits_of_positive (p : positive) :
  digits_prefix 0 (NilEmpty.string_of_uint (Pos.to_uint p)) = Z.pos p.
Proof.
  rewrite digits_prefix_zero, DecimalPos.Unsigned.of_to. reflexivity.
Qed.

(** [parseInt] reads back the numeral of every integer. *)
Lemma parseInt_of_Z (z : Z) : parseInt (Str.of_Z z) = Num z.
Proof.
  destruct z as [ | p | p ].
  - reflexivity.
  - rewrite numeral_of_positive, parseInt_digits.
    + now rewrite digits_of_positive.
    + apply starts_with_digit_numeral, DecimalPos.Unsigned.to_uint_nonnil.
  - unfold Str.of_Z. cbn [Z.to_int NilZero.string_of_int].
    replace (NilZero.string_of_uint (Pos.to_uint p))
      with (NilEmpty.string_of_uint (Pos.to_uint p)).
    2:{ pose proof (DecimalPos.Unsigned.to_uint_nonnil p) as Hnil.
        unfold NilZero.string_of_uint.
        destruct (Pos.to_uint p); [ congruence | reflexivity .. ]. }
    unfold parseInt. cbn [Str.trim_start].
    replace (Str.is_space "-") with false by reflexivity.
    cbv beta iota.
    rewrite (starts_with_digit_numeral _ (DecimalPos.Unsigned.to_uint_nonnil p)).
    rewrite digits_of_positive. reflexivity.
Qed.

Lemma numeral_not_empty (z : Z) : Str.of_Z z <> "".
Proof.
  destruct z as [ | p | p ].
  - discriminate.
  - rewrite numeral_of_positive.
    pose proof (DecimalPos.Unsigned.to_uint_nonnil p) as Hnil.
    destruct (Pos.to_uint p); [ congruence | discriminate .. ].
  - discriminate.
Qed.

(** A text that does not start with a digit ends the run of digits. *)
Lemma digits_prefix_stop (acc : Z) (rest : string) :
  starts_with_digit rest = false -> digits_prefix acc rest = acc.
Proof.
  destruct rest as [ | c rest ]; [ reflexivity | ].
  cbn [starts_with_digit digits_prefix]. now intros ->.
Qed.

Lemma digits_prefix_followed (d : Decimal.uint) (acc : Z) (rest : string) :
  starts_with_digit rest = false ->
  digits_prefix acc (NilEmpty.string_of_uint d ++ rest)
  = digits_prefix acc (NilEmpty.string_of_uint d).
Proof.
  intros Hrest. revert acc.
  induction d as [ | d IH | d IH | d IH | d IH | d IH | d IH | d IH | d IH | d IH | d IH ];
    intros acc;
    [ now apply digits_prefix_stop | .. ];
    cbn [NilEmpty.string_of_uint append digits_prefix];
    match goal with
    | |- context [Str.is_digit ?c] =>
        replace (Str.is_digit c) with true by reflexivity
    end;
    apply IH.
Qed.

(** [parseInt] reads the numeral of an integer at the head of a text and
    stops at what follows it, when that is not a digit. *)
Lemma parseInt_numeral_followed (z : Z) (rest : string) :
  starts_with_digit rest = false -> parseInt (Str.of_Z z ++ rest) = Num z.
Proof.
  intros Hrest. destruct z as [ | p | p ].
  - change (Str.of_Z 0) with (NilEmpty.string_of_uint (Decimal.D0 Decimal.Nil)).
    rewrite parseInt_digits by reflexivity.
    now rewrite digits_prefix_followed.
  - rewrite numeral_of_positive.
    pose proof (DecimalPos.Unsigned.to_uint_nonnil p) as Hnil.
    rewrite parseInt_digits.
    + now rewrite digits_prefix_followed, digits_of_positive.
    + destruct (Pos.to_uint p); [ congruence | reflexivity .. ].
  - unfold Str.of_Z. cbn [Z.to_int NilZero.string_of_int].
    pose proof (DecimalPos.Unsigned.to_uint_nonnil p) as Hnil.
    replace (NilZero.string_of_uint (Pos.to_uint p))
      with (NilEmpty.string_of_uint (Pos.to_uint p))
      by (unfold NilZero.string_of_uint;
          destruct (Pos.to_uint p); [ congruence | reflexivity .. ]).
    unfold parseInt. cbn [append Str.trim_start].
    replace (Str.is_space "-") with false by reflexivity.
    cbv beta iota.
    replace (starts_with_digit (NilEmpty.string_of_uint (Pos.to_uint p) ++ rest))
      with true
      by (destruct (Pos.to_uint p); [ congruence | reflexivity .. ]).
    rewrite digits_prefix_followed by exact Hrest.
    rewrite digits_of_positive. reflexivity.
Qed.

(** A text that starts with neither white space, a sign nor a digit holds
    no number. *)
Lemma parseInt_no_number (c : ascii) (rest : string) :
  Str.is_space c = false -> Str.is_digit c = false ->
  c <> "+"%char -> c <> "-"%char ->
  parseInt (String c rest) = NaN.
Proof.
  intros Hspace Hdigit Hplus Hminus.
  unfold parseInt. cbn [Str.trim_start]. rewrite Hspace.
  destruct (Ascii.eqb_spec c "+") as [ | _ ]; [ contradiction | ].
  destruct (Ascii.eqb_spec c "-") as [ | _ ]; [ contradiction | ].
  destruct c as [[] [] [] [] [] [] [] []];
    try discriminate Hdigit; try reflexivity;
    try (exfalso; apply Hplus; reflexivity);
    try (exfalso; apply Hminus; reflexivity).
Qed.

End NumeralFacts.

(** ** Resource operations *)

Module OperationFacts.
Import Js CaseConverter Client Samples TransformFacts.

Lemma obj_set_first (key : string) (v : value) :
  String.eqb key "__proto__" = false -> obj_set key v [] = [(key, v)].
Proof.
  intros H. unfold obj_set. rewrite H. cbn [has_key lookup].
  destruct (array_index key); reflexivity.
Qed.

(** Where the key of the operation reads the same in both casings, the body
    is the wire-cased conversion of the wrapped input. *)
Lemma write_body_single_word (op : WriteOperation) (input : value) :
  camelToSnake (write_key op) = write_key op ->
  write_body op input = JSON_stringify (toSnakeCase (VObj [(write_key op, input)])).
Proof.
  intros Hkey. unfold write_body, toSnakeCase.
  cbn [transformKeys fold_left]. rewrite Hkey.
  rewrite obj_set_first; [ reflexivity | ].
  destruct op; reflexivity.
Qed.

Lemma createProduct_body (input : value) :
  write_body createProduct input
  = JSON_stringify (toSnakeCase (VObj [("product", input)])).
Proof. now apply (write_body_single_word createProduct). Qed.

(** C3.  [createCustomCollection] sends the key [customCollection] of its
    object literal as it is written, in internal casing: only the input under
    it is converted.  The body is not the wire-cased conversion of the
    wrapped input, whose key is [custom_collection]. *)
Theorem createCustomCollection_body_key :
  write_body createCustomCollection sample_collection
  = Some ("{" ++ quote "customCollection" ++ ":{"
          ++ quote "title" ++ ":" ++ quote "Summer" ++ ","
          ++ quote "body_html" ++ ":" ++ quote "Sale" ++ "}}")
  /\ JSON_stringify (toSnakeCase (VObj [("customCollection", sample_collection)]))
     = Some ("{" ++ quote "custom_collection" ++ ":{"
             ++ quote "title" ++ ":" ++ quote "Summer" ++ ","
             ++ quote "body_html" ++ ":" ++ quote "Sale" ++ "}}")
  /\ camelToSnake (write_key createCustomCollection)
     <> write_key createCustomCollection.
Proof.
  repeat split. vm_compute. discriminate.
Qed.

(** Under the key of the operation every key is in wire casing. *)
Lemma write_body_input_keys (op : WriteOperation) (input : value) :
  write_body op input = JSON_stringify (VObj [(write_key op, toSnakeCase input)])
  /\ keys_all no_upper (toSnakeCase input) = true.
Proof. split; [ reflexivity | apply toSnakeCase_wire_keys ]. Qed.

(** [adjustInventoryLevel] writes the keys of its body in wire casing
    itself. *)
Lemma adjustInventoryLevel_wire_keys :
  adjustInventoryLevel_body 1 2 3
  = Some ("{" ++ quote "inventory_item_id" ++ ":1,"
          ++ quote "location_id" ++ ":2,"
          ++ quote "available_adjustment" ++ ":3}").
Proof. reflexivity. Qed.

(** Every operation whose key has more than one word sends that key
    unconverted. *)
Lemma multi_word_keys_not_converted :
  Forall (fun op => camelToSnake (write_key op) <> write_key op
                    /\ write_body op sample_collection
                       <> JSON_stringify (toSnakeCase (VObj [(write_key op, sample_collection)])))
    [createCustomCollection; updateCustomCollection 1;
     createSmartCollection; updateSmartCollection 1;
     updateInventoryItem 1; createDraftOrder; updateDraftOrder 1;
     createPriceRule; updatePriceRule 1; createDiscountCode 1].
Proof.
  repeat constructor; vm_compute; discriminate.
Qed.

(** The envelope a list operation returns. *)
Lemma listOperation_returned (credentials : TenantCredentials)
    (fetch : FetchRequest -> option Response)
    (op : ListOperation) (params : option props) (envelope : value) :
  listOperation credentials fetch op params = Returned envelope ->
  exists items count,
    get items "length" = Some count
    /\ envelope = VObj [("items", items);
                        ("count", count);
                        ("hasMore", VBool (strict_eq count (limitOrDefault params)))].
Proof.
  unfold listOperation, bind, read. intros H.
  destruct (list_endpoint op params) as [endpoint | ]; [ | discriminate ].
  destruct (request credentials fetch endpoint no_options) as [data | ]; [ | discriminate ].
  destruct (get data (list_field op)) as [items | ]; [ | discriminate ].
  destruct (get items "length") as [count | ] eqn:Hcount; [ | discriminate ].
  exists items, count. split; [ exact Hcount | congruence ].
Qed.

Lemma envelope_hasMore (items count : value) (more : bool) :
  get (VObj [("items", items); ("count", count); ("hasMore", VBool more)]) "hasMore"
  = Some (VBool more).
Proof. reflexivity. Qed.

(** At a requested limit of 0 nothing is returned, the length equals the
    requested limit, and [hasMore] is false: the limit has been replaced
    by 50. *)
Lemma listProducts_at_limit_zero :
  listOperation shop (respond (json_response 200 (VObj [("products", VArr [])])))
    listProducts (Some [("limit", VNum (Num 0))])
  = Returned (VObj [("items", VArr []);
                    ("count", VNum (Num 0));
                    ("hasMore", VBool false)]).
Proof. reflexivity. Qed.

(** So [hasMore] is not, for every requested limit, the test that the
    length equals it. *)
Lemma hasMore_not_requested_limit :
  ~ (forall (credentials : TenantCredentials)
            (fetch : FetchRequest -> option Response)
            (op : ListOperation) (params : option props)
            (envelope : value) (items : list value) (limit : Z),
        listOperation credentials fetch op params = Returned envelope ->
        get envelope "items" = Some (VArr items) ->
        suppliedLimit params = VNum (Num limit) ->
        get envelope "hasMore"
        = Some (VBool (Z.eqb (Z.of_nat (List.length items)) limit))).
Proof.
  intros Hclaim.
  specialize (Hclaim shop
                (respond (json_response 200 (VObj [("products", VArr [])])))
                listProducts (Some [("limit", VNum (Num 0))])
                _ [] 0%Z listProducts_at_limit_zero eq_refl eq_refl).
  discriminate Hclaim.
Qed.

(** C4, amended.  The envelope of a list operation has
    [count = items.length]; [hasMore] is true exactly when [items.length]
    equals the effective limit: the requested limit when one is supplied
    and is not 0, and 50 when none is supplied or the one supplied is
    falsy, as 0 is. *)
Theorem list_envelope (credentials : TenantCredentials)
    (fetch : FetchRequest -> option Response)
    (op : ListOperation) (params : option props)
    (envelope : value) (items : list value) :
  listOperation credentials fetch op params = Returned envelope ->
  get envelope "items" = Some (VArr items) ->
  get envelope "count" = Some (VNum (Num (Z.of_nat (List.length items))))
  /\ (forall limit,
        suppliedLimit params = VNum (Num limit) -> limit <> 0%Z ->
        get envelope "hasMore"
        = Some (VBool (Z.eqb (Z.of_nat (List.length items)) limit)))
  /\ (truthy (suppliedLimit params) = false ->
      get envelope "hasMore"
      = Some (VBool (Z.eqb (Z.of_nat (List.length items)) 50)))
  /\ (forall limit,
        suppliedLimit params = VNum (Num limit) ->
        (Z.of_nat (List.length items) < limit)%Z ->
        get envelope "hasMore" = Some (VBool false)).
Proof.
  intros Hlist Hitems.
  apply listOperation_returned in Hlist.
  destruct Hlist as [items' [count [Hcount Henv]]]. subst envelope.
  cbn in Hitems. injection Hitems as Hitems. subst items'.
  cbn in Hcount. injection Hcount as Hcount. subst count.
  assert (forall limit,
            suppliedLimit params = VNum (Num limit) -> limit <> 0%Z ->
            strict_eq (VNum (Num (Z.of_nat (List.length items)))) (limitOrDefault params)
            = Z.eqb (Z.of_nat (List.length items)) limit) as Hsupplied.
  { intros limit Hlimit Hnonzero. unfold limitOrDefault, or_else.
    rewrite Hlimit. cbn [truthy].
    destruct (Z.eqb_spec limit 0) as [ | _ ]; [ contradiction | reflexivity ]. }
  split; [ reflexivity | split; [ | split ] ].
  - intros limit Hlimit Hnonzero.
    now rewrite envelope_hasMore, (Hsupplied limit).
  - intros Hfalsy. rewrite envelope_hasMore. unfold limitOrDefault, or_else.
    rewrite Hfalsy. reflexivity.
  - intros limit Hlimit Hfewer.
    rewrite envelope_hasMore, (Hsupplied limit Hlimit) by lia.
    destruct (Z.eqb_spec (Z.of_nat (List.length items)) limit); [ lia | reflexivity ].
Qed.

Lemma list_envelope_witness :
  listOperation shop (respond (json_response 200 two_products))
    listProducts (Some [("limit", VNum (Num 2))])
  = Returned (VObj [("items", VArr [VObj [("id", VNum (Num 1))];
                                    VObj [("id", VNum (Num 2))]]);
                    ("count", VNum (Num 2));
                    ("hasMore", VBool true)])
  /\ get (VObj [("items", VArr [VObj [("id", VNum (Num 1))];
                                VObj [("id", VNum (Num 2))]]);
                ("count", VNum (Num 2));
                ("hasMore", VBool true)]) "hasMore"
     = Some (VBool (Z.eqb 2 2)).
Proof.
  split; [ reflexivity | ].
  refine (proj1 (proj2 (list_envelope shop (respond (json_response 200 two_products))
                          listProducts (Some [("limit", VNum (Num 2))])
                          _ [VObj [("id", VNum (Num 1))]; VObj [("id", VNum (Num 2))]]
                          _ _)) 2%Z _ _).
  - reflexivity.
  - reflexivity.
  - reflexivity.
  - lia.
Defined.

End OperationFacts.

(** ** The request executor *)

Module RequestFacts.
Import Js CaseConverter Client Samples Domain NumeralFacts.

Lemma request_response (credentials : TenantCredentials)
    (fetch : FetchRequest -> option Response)
    (endpoint : string) (options : RequestInit) (response : Response) :
  fetch (fetchCall credentials endpoint options) = Some response ->
  request credentials fetch endpoint options = handleResponse response.
Proof. unfold request. now intros ->. Qed.

(** C5.  On a response of status 429 the request executor throws a
    [RateLimitError].  Its wait hint is 60 when the [Retry-After] header
    is absent, and also when it is present with an empty value.  It is the
    integer [seconds], of magnitude at most [2^53 - 1], when the header
    holds the decimal numeral of [seconds], alone or followed by a text
    that does not start with a digit ([30] gives 30, and so does [30.5]).
    It is [NaN] when the header starts with an ASCII character that is
    neither white space, a sign nor a digit, as an HTTP date does. *)
Theorem rate_limit_hint (credentials : TenantCredentials)
    (fetch : FetchRequest -> option Response)
    (endpoint : string) (options : RequestInit) (response : Response) :
  fetch (fetchCall credentials endpoint options) = Some response ->
  status response = 429%Z ->
  (headers_get "Retry-After" (headers response) = None
   \/ headers_get "Retry-After" (headers response) = Some "" ->
   request credentials fetch endpoint options
   = Thrown (RateLimitError "Rate limit exceeded" (Num 60)))
  /\ (forall (seconds : Z) (rest : string),
        safe_integer seconds = true ->
        starts_with_digit rest = false ->
        headers_get "Retry-After" (headers response)
        = Some (Str.of_Z seconds ++ rest) ->
        request credentials fetch endpoint options
        = Thrown (RateLimitError "Rate limit exceeded" (Num seconds)))
  /\ (forall (c : ascii) (rest : string),
        headers_get "Retry-After" (headers response) = Some (String c rest) ->
        ascii_char c = true ->
        Str.is_space c = false -> Str.is_digit c = false ->
        c <> "+"%char -> c <> "-"%char ->
        request credentials fetch endpoint options
        = Thrown (RateLimitError "Rate limit exceeded" NaN)).
Proof.
  intros Hfetch Hstatus. rewrite (request_response _ _ _ _ _ Hfetch).
  unfold handleResponse. rewrite Hstatus. cbn [Z.eqb Pos.eqb].
  split; [ | split ].
  - now intros [-> | ->].
  - intros seconds rest _ Hrest ->.
    destruct (String.eqb_spec (Str.of_Z seconds ++ rest) "") as [Hempty | _].
    + exfalso. apply (numeral_not_empty seconds).
      destruct (Str.of_Z seconds); [ reflexivity | discriminate Hempty ].
    + cbn [negb]. now rewrite parseInt_numeral_followed.
  - intros c rest -> _ Hspace Hdigit Hplus Hminus.
    replace (String.eqb (String c rest) "") with false by reflexivity.
    cbn [negb]. now rewrite parseInt_no_number.
Qed.

Lemma rate_limit_hint_witness :
  request shop (respond limited) "/products.json" no_options
  = Thrown (RateLimitError "Rate limit exceeded" (Num 30)).
Proof.
  apply (proj1 (proj2 (rate_limit_hint shop (respond limited) "/products.json"
                         no_options limited eq_refl eq_refl)) 30%Z "").
  - reflexivity.
  - reflexivity.
  - reflexivity.
Defined.

(** The hint is not the number [parseInt] reads in every header that is
    present: the empty value, in which [parseInt] reads [NaN], gives 60. *)
Lemma hint_not_number_of_every_header :
  ~ (forall (credentials : TenantCredentials)
            (fetch : FetchRequest -> option Response)
            (endpoint : string) (options : RequestInit) (response : Response)
            (text : string),
        fetch (fetchCall credentials endpoint options) = Some response ->
        status response = 429%Z ->
        headers_get "Retry-After" (headers response) = Some text ->
        request credentials fetch endpoint options
        = Thrown (RateLimitError "Rate limit exceeded" (parseInt text))).
Proof.
  intros Hclaim.
  specialize (Hclaim shop
                (respond {| status := 429; headers := [("Retry-After", "")];
                            json := None |})
                "/products.json" no_options
                {| status := 429; headers := [("Retry-After", "")]; json := None |}
                "" eq_refl eq_refl eq_refl).
  discriminate Hclaim.
Qed.

(** A header with an empty value counts as absent. *)
Lemma rate_limit_hint_empty_header :
  handleResponse {| status := 429; headers := [("Retry-After", "")]; json := None |}
  = Thrown (RateLimitError "Rate limit exceeded" (Num 60)).
Proof. reflexivity. Qed.

(** A fraction is cut at the point, and a date holds no number. *)
Lemma rate_limit_hint_fraction_and_date :
  handleResponse {| status := 429; headers := [("Retry-After", "30.5")]; json := None |}
  = Thrown (RateLimitError "Rate limit exceeded" (Num 30))
  /\ handleResponse {| status := 429;
                       headers := [("Retry-After", "Wed, 21 Oct 2015 07:28:00 GMT")];
                       json := None |}
     = Thrown (RateLimitError "Rate limit exceeded" NaN).
Proof. split; reflexivity. Qed.

Lemma handleResponse_error (response : Response) :
  early (status response) = false ->
  ok response = false ->
  handleResponse response
  = Thrown (CrmApiError (errorMessage response) (status response)).
Proof.
  unfold early, handleResponse. intros Hearly Hok.
  repeat (apply orb_false_iff in Hearly; destruct Hearly as [Hearly ?]).
  repeat match goal with H : Z.eqb _ _ = false |- _ => rewrite H; clear H end.
  now rewrite Hok.
Qed.

(** An [errors] field holding the empty string is falsy and leaves the
    default message, not the value of the field. *)
Lemma empty_errors_default_message :
  handleResponse (json_response 500 (VObj [("errors", VStr "")]))
  = Thrown (CrmApiError "Shopify API error: 500" 500).
Proof. reflexivity. Qed.

Lemma message_not_every_string_errors :
  ~ (forall (response : Response) (errorJson : value) (text : string),
        early (status response) = false ->
        ok response = false ->
        json response = Some errorJson ->
        get errorJson "errors" = Some (VStr text) ->
        handleResponse response = Thrown (CrmApiError text (status response))).
Proof.
  intros Hclaim.
  specialize (Hclaim (json_response 500 (VObj [("errors", VStr "")]))
                (VObj [("errors", VStr "")]) ""
                eq_refl eq_refl eq_refl eq_refl).
  discriminate Hclaim.
Qed.

(** A number in the [errors] field is neither a string nor a structured
    value, and is sent through [JSON.stringify] all the same. *)
Lemma numeric_errors_stringified :
  handleResponse (json_response 500 (VObj [("errors", VNum (Num 5))]))
  = Thrown (CrmApiError "5" 500).
Proof. reflexivity. Qed.

(** C6, amended.  On a response whose status is outside 2xx and is not 429,
    401, 403 or 404, the request executor throws an API error carrying the
    status.  Its message is the [errors] field of the JSON body when that
    field is a non-empty string, the JSON text of the field when it is any
    other truthy value, and [Shopify API error: <status>] otherwise: when
    the body is not JSON, when it has no readable [errors] field, or when
    the field is falsy. *)
Theorem api_error_message (credentials : TenantCredentials)
    (fetch : FetchRequest -> option Response)
    (endpoint : string) (options : RequestInit) (response : Response) :
  fetch (fetchCall credentials endpoint options) = Some response ->
  early (status response) = false ->
  ok response = false ->
  exists message,
    request credentials fetch endpoint options
    = Thrown (CrmApiError message (status response))
    /\ (forall errorJson text,
          json response = Some errorJson ->
          get errorJson "errors" = Some (VStr text) ->
          text <> "" ->
          message = text)
    /\ (forall errorJson errors text,
          json response = Some errorJson ->
          get errorJson "errors" = Some errors ->
          truthy errors = true ->
          (forall s, errors <> VStr s) ->
          JSON_stringify errors = Some text ->
          message = text)
    /\ (json response = None
        \/ (exists errorJson,
              json response = Some errorJson
              /\ (get errorJson "errors" = None
                  \/ exists errors,
                       get errorJson "errors" = Some errors
                       /\ truthy errors = false)) ->
        message = "Shopify API error: " ++ Str.of_Z (status response)).
Proof.
  intros Hfetch Hearly Hok. exists (errorMessage response).
  rewrite (request_response _ _ _ _ _ Hfetch).
  split; [ now apply handleResponse_error | ].
  unfold errorMessage. split; [ | split ].
  - intros errorJson text -> -> Htext. cbn [truthy].
    destruct (String.eqb_spec text "") as [ | _ ]; [ contradiction | reflexivity ].
  - intros errorJson errors text -> -> Htruthy Hnot Htext.
    rewrite Htruthy, Htext. destruct errors; try reflexivity.
    now contradiction (Hnot s).
  - intros [-> | [errorJson [-> [-> | [errors [-> ->]]]]]]; reflexivity.
Qed.

Lemma api_error_message_witness :
  exists message,
    request shop (respond (json_response 500 (VObj [("errors", VStr "foo")])))
      "/products.json" no_options
    = Thrown (CrmApiError message 500)
    /\ message = "foo".
Proof.
  destruct (api_error_message shop
              (respond (json_response 500 (VObj [("errors", VStr "foo")])))
              "/products.json" no_options
              (json_response 500 (VObj [("errors", VStr "foo")]))
              eq_refl eq_refl eq_refl)
    as [message [Hthrown [Hstring _]]].
  exists message. split; [ exact Hthrown | ].
  apply (Hstring (VObj [("errors", VStr "foo")]) "foo"); [ reflexivity | reflexivity | ].
  apply String.eqb_neq. reflexivity.
Defined.

Lemma transformKeys_defined (f : string -> string) (data : value) :
  data <> VUndefined -> transformKeys f data <> VUndefined.
Proof. destruct data; simpl; congruence. Qed.

(** C7.  A response of status 204 gives a successful outcome carrying
    [undefined]; it is not the empty object a response of status 200 with the
    body [{}] gives, nor the payload of any other successful response with a
    JSON body. *)
Theorem no_content_sentinel (credentials : TenantCredentials)
    (fetch : FetchRequest -> option Response)
    (endpoint : string) (options : RequestInit) (response : Response) :
  fetch (fetchCall credentials endpoint options) = Some response ->
  (status response = 204%Z ->
   request credentials fetch endpoint options = Returned VUndefined)
  /\ (status response = 200%Z -> json response = Some (VObj []) ->
      request credentials fetch endpoint options = Returned (VObj [])
      /\ VObj [] <> VUndefined)
  /\ (forall data,
        ok response = true -> status response <> 204%Z ->
        json response = Some data -> data <> VUndefined ->
        exists payload,
          request credentials fetch endpoint options = Returned payload
          /\ payload <> VUndefined).
Proof.
  intros Hfetch. rewrite (request_response _ _ _ _ _ Hfetch).
  unfold handleResponse, ok. split; [ | split ].
  - now intros ->.
  - intros -> ->. split; [ reflexivity | discriminate ].
  - intros data Hok Hnot204 -> Hdata.
    apply andb_prop in Hok. destruct Hok as [Hlo Hhi].
    apply Z.leb_le in Hlo. apply Z.leb_le in Hhi.
    destruct (Z.eqb_spec (status response) 429); [ lia | ].
    destruct (Z.eqb_spec (status response) 401); [ lia | ].
    destruct (Z.eqb_spec (status response) 403); [ lia | ].
    destruct (Z.eqb_spec (status response) 404); [ lia | ].
    destruct (Z.leb_spec 200 (status response)); [ | lia ].
    destruct (Z.leb_spec (status response) 299); [ | lia ].
    cbn [andb negb].
    destruct (Z.eqb_spec (status response) 204); [ contradiction | ].
    exists (toCamelCase data). split; [ reflexivity | ].
    now apply transformKeys_defined.
Qed.

Lemma no_content_sentinel_witness :
  request shop (respond no_content) "/products/1.json"
    {| method := Some "DELETE"; body := None |}
  = Returned VUndefined.
Proof.
  apply (proj1 (no_content_sentinel shop (respond no_content) "/products/1.json"
                  {| method := Some "DELETE"; body := None |} no_content eq_refl)).
  reflexivity.
Defined.

End RequestFacts.

(** ** The query builder *)

Module QueryFacts.
Import Js CaseConverter Client Samples Domain ValueInduction ObjectFacts CasingFacts
  TransformFacts.

Lemma nullish_transformKeys (f : string -> string) (v : value) :
  nullish (transformKeys f v) = nullish v.
Proof. destruct v; reflexivity. Qed.

(** Rewriting keys does not change the text of a value. *)
Lemma to_string_transformKeys (f : string -> string) (v : value) :
  to_string (transformKeys f v) = to_string v.
Proof.
  induction v as [ | | b | n | s | items IH | entries IH ] using value_ind;
    try reflexivity.
  cbn [transformKeys to_string]. f_equal. rewrite map_map.
  rewrite Forall_forall in IH. apply map_ext_in. intros x Hx.
  now rewrite nullish_transformKeys, (IH x Hx).
Qed.

Lemma queryValue_transformKeys (f : string -> string) (v : value) :
  queryValue (transformKeys f v) = queryValue v.
Proof.
  destruct v; try reflexivity.
  cbn [transformKeys queryValue]. unfold array_join. f_equal. rewrite map_map.
  apply map_ext. intros x.
  now rewrite nullish_transformKeys, to_string_transformKeys.
Qed.

Lemma In_params_set (name val : string) (qs : list (string * string))
    (pair : string * string) :
  In pair (params_set name val qs) -> pair = (name, val) \/ In pair qs.
Proof.
  induction qs as [ | [n v] rest IH ]; simpl; [ intros [H | []]; auto | ].
  destruct (String.eqb_spec n name) as [-> | _]; simpl; intros [H | H]; auto.
  - apply filter_In in H. tauto.
  - destruct (IH H); auto.
Qed.

Lemma In_fold_setParam (entries : props) (qs : list (string * string))
    (name text : string) :
  In (name, text) (fold_left setParam entries qs) ->
  In (name, text) qs
  \/ exists w, In (name, w) entries /\ nullish w = false /\ text = queryValue w.
Proof.
  revert qs. induction entries as [ | [k w] rest IH ]; intros qs; [ now left | ].
  cbn [fold_left setParam]. intros H. apply IH in H.
  destruct H as [H | [w' [Hin [Hnull Htext]]]].
  - destruct (nullish w) eqn:Hw; cbn [negb] in H; [ now left | ].
    apply In_params_set in H. destruct H as [H | H]; [ | now left ].
    injection H as -> ->. right. exists w. simpl. auto.
  - right. exists w'. simpl. auto.
Qed.

Lemma params_set_fresh (name val : string) (qs : list (string * string)) :
  ~ In name (map fst qs) -> params_set name val qs = (qs ++ [(name, val)])%list.
Proof.
  induction qs as [ | [n v] rest IH ]; simpl; [ reflexivity | ].
  intros Hfresh. destruct (String.eqb_spec n name) as [-> | _]; [ tauto | ].
  f_equal. apply IH. tauto.
Qed.

Lemma distinct_NoDup (keys : list string) : distinct keys = true -> NoDup keys.
Proof.
  induction keys as [ | k rest IH ]; simpl; [ constructor | ].
  intros H. apply andb_prop in H. destruct H as [Hk Hrest].
  constructor; [ | now apply IH ].
  intros Hin. apply negb_true_iff in Hk.
  assert (existsb (String.eqb k) rest = true) as Hex.
  { apply existsb_exists. exists k. split; [ exact Hin | apply String.eqb_refl ]. }
  congruence.
Qed.

(** Over distinct names the loop appends one pair for each entry that is
    neither [null] nor [undefined]. *)
Lemma fold_setParam_distinct (entries : props) (qs : list (string * string)) :
  NoDup (map fst entries) ->
  (forall name, In name (map fst entries) -> ~ In name (map fst qs)) ->
  fold_left setParam entries qs
  = (qs ++ flat_map (fun entry =>
                       if nullish (snd entry) then []
                       else [(fst entry, queryValue (snd entry))]) entries)%list.
Proof.
  revert qs. induction entries as [ | [k w] rest IH ]; intros qs Hnodup Hfresh.
  - simpl. now rewrite app_nil_r.
  - cbn [map fst] in Hnodup. inversion Hnodup as [ | ? ? Hk Hrest ]; subst.
    cbn [fold_left setParam flat_map fst snd].
    destruct (nullish w); cbn [negb].
    + apply IH; [ exact Hrest | ].
      intros name Hin. apply Hfresh. now right.
    + rewrite params_set_fresh by (apply Hfresh; now left).
      rewrite IH; [ now rewrite <- app_assoc | exact Hrest | ].
      intros name Hin. rewrite map_app. intros Hin'. apply in_app_or in Hin'.
      destruct Hin' as [Hin' | [<- | []]].
      * apply (Hfresh name); [ now right | exact Hin' ].
      * exact (Hk Hin).
Qed.

Lemma settable_distinct (keys : list string) :
  settable keys = true -> distinct keys = true.
Proof.
  unfold settable. intros H.
  apply andb_prop in H. destruct H as [H _].
  apply andb_prop in H. now destruct H.
Qed.

(** Every parameter comes from an option that is neither [null] nor
    [undefined]: its name is the key in wire casing, its text the joined
    array or the value as a string. *)
Lemma queryParams_sound (params : props) (name text : string) :
  In (name, text) (queryParams params) ->
  exists key value,
    In (key, value) params /\ name = camelToSnake key
    /\ nullish value = false /\ text = queryValue value.
Proof.
  unfold queryParams, toSnakeCase. rewrite transformKeys_object. cbn [entries].
  intros H. apply (In_fold_setParam _ [] name text) in H.
  destruct H as [[] | [w [Hin [Hnull Htext]]]].
  apply In_fold_setEntry in Hin.
  destruct Hin as [[] | [key [x [Hin [Hname Hw]]]]]. subst w.
  exists key, x. rewrite nullish_transformKeys in Hnull.
  rewrite queryValue_transformKeys in Htext. auto.
Qed.

(** Over options whose names stay distinct in wire casing, the parameters
    are those of the options, in their order. *)
Lemma queryParams_complete (params : props) :
  settable (map (fun entry => camelToSnake (fst entry)) params) = true ->
  queryParams params = flat_map queryPair params.
Proof.
  intros Hset. unfold queryParams, toSnakeCase.
  rewrite (transformKeys_settable _ _ Hset). cbn [entries].
  rewrite fold_setParam_distinct.
  - rewrite app_nil_l. clear Hset.
    induction params as [ | [k x] rest IH ]; [ reflexivity | ].
    cbn [map flat_map fst snd queryPair].
    now rewrite nullish_transformKeys, queryValue_transformKeys, IH.
  - rewrite map_map. cbn [fst]. apply distinct_NoDup, settable_distinct, Hset.
  - intros name _ [].
Qed.

(** [String] of a scalar is the text the specification gives it. *)
Lemma to_string_scalar (v : value) :
  plain_scalar v = true -> to_string v = scalar_text v.
Proof.
  destruct v as [ | | [ | ] | [z | ] | s | items | entries ];
    intros H; try discriminate H; reflexivity.
Qed.

(** An element as [join] prints it. *)
Lemma element_text (x : value) :
  (nullish x || plain_scalar x)%bool = true ->
  (if nullish x then "" else to_string x) = scalar_text x.
Proof.
  destruct x as [ | | [ | ] | [z | ] | s | items | entries ];
    intros H; try discriminate H; reflexivity.
Qed.

(** On a plain option the text the builder sets is the text of the
    option. *)
Lemma queryValue_plain (v : value) :
  plain_option v = true -> nullish v = false -> queryValue v = option_text v.
Proof.
  destruct v as [ | | b | n | s | items | entries ]; intros Hplain Hnull;
    try discriminate Hnull; try discriminate Hplain;
    try (now apply to_string_scalar).
  cbn [queryValue option_text plain_option] in *. unfold array_join. f_equal.
  apply map_ext_in. intros x Hx. apply element_text.
  rewrite forallb_forall in Hplain. now apply Hplain.
Qed.

Lemma queryPair_plain (entry : string * value) :
  plain_option (snd entry) = true -> queryPair entry = optionPair entry.
Proof.
  destruct entry as [key v]. cbn [snd]. intros Hplain.
  destruct (nullish v) eqn:Hnull.
  - destruct v; try discriminate Hnull; reflexivity.
  - unfold queryPair. rewrite Hnull, (queryValue_plain v Hplain Hnull).
    destruct v; try discriminate Hnull; reflexivity.
Qed.

Lemma flat_map_plain (params : props) :
  Forall (fun entry => plain_option (snd entry) = true) params ->
  flat_map queryPair params = flat_map optionPair params.
Proof.
  induction 1 as [ | entry rest Hentry _ IH ]; [ reflexivity | ].
  cbn [flat_map]. now rewrite IH, queryPair_plain.
Qed.

(** C8.  The options are strings, booleans, safe integers, arrays of
    these, [null] or [undefined].  [buildQueryParams] names each parameter
    by the option key in wire casing, leaves out the options whose value
    is [undefined] or [null], and gives a parameter the text of its option:
    the string itself, [true] or [false], the decimal numeral of the
    integer, and for an array the texts of its elements joined with commas.
    Every parameter arises so, and over option names in internal casing
    every option that is neither [undefined] nor [null] gives its
    parameter, in the order of the options.  On
    [{ limit: 2, sinceId: "5", ids: ["10","11"] }] the parameters are
    [limit=2], [since_id=5] and [ids=10,11]. *)
Theorem query_parameters :
  (forall params name text,
      Forall (fun entry => plain_option (snd entry) = true) params ->
      In (name, text) (queryParams params) ->
      exists key value,
        In (key, value) params /\ name = camelToSnake key
        /\ nullish value = false /\ text = option_text value)
  /\ (forall params,
        Forall (fun entry => plain_option (snd entry) = true) params ->
        well_formed_keys (map fst params) = true ->
        forallb no_underscore (map fst params) = true ->
        queryParams params = flat_map optionPair params
        /\ buildQueryParams params = params_toString (flat_map optionPair params))
  /\ queryParams sample_query = [("limit", "2"); ("since_id", "5"); ("ids", "10,11")]
  /\ buildQueryParams sample_query = "limit=2&since_id=5&ids=10%2C11".
Proof.
  split; [ | split; [ | split; reflexivity ] ].
  - intros params name text Hplain Hin.
    destruct (queryParams_sound params name text Hin)
      as [key [value [Hentry [Hname [Hnull Htext]]]]].
    exists key, value. repeat split; try assumption.
    rewrite Htext. apply queryValue_plain; [ | exact Hnull ].
    rewrite Forall_forall in Hplain. exact (Hplain (key, value) Hentry).
  - intros params Hplain Hwf Hkeys.
    assert (queryParams params = flat_map optionPair params) as Hpairs.
    { rewrite <- (flat_map_plain params Hplain).
      apply queryParams_complete. rewrite <- (map_map fst camelToSnake).
      now apply settable_camelToSnake. }
    split; [ exact Hpairs | ]. unfold buildQueryParams. now rewrite Hpairs.
Qed.

Lemma query_parameters_witness :
  Forall (fun entry => plain_option (snd entry) = true) sample_query
  /\ well_formed_keys (map fst sample_query) = true
  /\ forallb no_underscore (map fst sample_query) = true
  /\ queryParams sample_query
     = [("limit", "2"); ("since_id", "5"); ("ids", "10,11")]
  /\ buildQueryParams sample_query
     = params_toString [("limit", "2"); ("since_id", "5"); ("ids", "10,11")].
Proof.
  assert (Forall (fun entry => plain_option (snd entry) = true) sample_query)
    as Hplain by (repeat constructor).
  split; [ exact Hplain | ].
  split; [ vm_compute; reflexivity | ].
  split; [ vm_compute; reflexivity | ].
  apply (proj1 (proj2 query_parameters) sample_query Hplain).
  - vm_compute. reflexivity.
  - vm_compute. reflexivity.
Defined.

(** The texts of the scalars: a boolean and a negative integer. *)
Lemma scalar_options :
  buildQueryParams [("publishedStatus", VStr "any"); ("giftCard", VBool true);
                    ("sinceId", VNum (Num (-3))); ("fields", VArr []);
                    ("handle", VNull)]
  = "published_status=any&gift_card=true&since_id=-3&fields=".
Proof. reflexivity. Qed.

End QueryFacts.

(** ** Markdown rendering *)

Module FormatterFacts.
Import Js Client Formatters Samples Domain OperationFacts.

Lemma starts_with_app (t s : string) : Str.starts_with t (t ++ s) = true.
Proof.
  induction t as [ | c t IH ]; [ reflexivity | ].
  simpl. now rewrite Ascii.eqb_refl.
Qed.


Lemma includes_unfold (t s : string) :
  Str.includes t s
  = if Str.starts_with t s then true
    else match s with
         | EmptyString => false
         | String _ rest => Str.includes t rest
         end.
Proof. destruct s; reflexivity. Qed.



Lemma join_cons (sep line : string) (lines : list string) :
  lines <> [] -> Str.join sep (line :: lines) = line ++ sep ++ Str.join sep lines.
Proof. destruct lines; [ congruence | reflexivity ]. Qed.


Lemma pushField_lines (lines : list string) (entry : string * value) :
  pushField lines entry = (lines ++ fieldLines entry)%list.
Proof.
  destruct entry as [key [ | | b | n | s | items | entries ]];
    cbn [pushField fieldLines nullish typeof_object]; unfold push;
    rewrite <- ?app_assoc; try reflexivity; now rewrite app_nil_r.
Qed.

Lemma fold_pushField (fields : props) (lines : list string) :
  fold_left pushField fields lines = (lines ++ flat_map fieldLines fields)%list.
Proof.
  revert lines. induction fields as [ | entry rest IH ]; intros lines.
  - simpl. now rewrite app_nil_r.
  - cbn [fold_left flat_map]. now rewrite IH, pushField_lines, <- app_assoc.
Qed.



(** *** Line breaks in a label *)











(** The embedded block of the line items is their pretty-printed JSON. *)
Lemma line_items_block :
  pretty (VArr [VObj [("variantId", VNum (Num 3)); ("quantity", VNum (Num 2))]])
  = Str.join (Str.of_char Str.newline)
      ["[";
       "  {";
       "    " ++ quote "variantId" ++ ": 3,";
       "    " ++ quote "quantity" ++ ": 2";
       "  }";
       "]"].
Proof. reflexivity. Qed.

(** *** The tables return on items that are not [null] or [undefined] *)

Lemma rowOf_returns (item : value) (line : (string -> value) -> string) :
  nullish item = false -> rowOf item line = Some (line (prop item)).
Proof. unfold rowOf. now intros ->. Qed.






Lemma limitOrDefault_truthy (params : option props) :
  truthy (limitOrDefault params) = true.
Proof.
  unfold limitOrDefault, or_else.
  destruct (truthy (suppliedLimit params)) eqn:H; [ exact H | reflexivity ].
Qed.

(** A list operation that reports more items has returned some. *)
Lemma hasMore_items (count : nat) (params : option props) :
  strict_eq (VNum (Num (Z.of_nat count))) (limitOrDefault params) = true ->
  Nat.eqb count 0 = false.
Proof.
  intros H. pose proof (limitOrDefault_truthy params) as Htruthy.
  destruct count as [ | count ]; [ | reflexivity ].
  destruct (limitOrDefault params) as [ | | | [z | ] | | | ]; try discriminate H.
  cbn [Z.of_nat strict_eq number_eqb] in H. cbn [truthy] in Htruthy.
  apply Z.eqb_eq in H. subst z. discriminate Htruthy.
Qed.




(** The text of that rendering. *)
Lemma two_products_markdown :
  formatAsMarkdown
    (VObj [("items", VArr [VObj [("id", VNum (Num 1))]; VObj [("id", VNum (Num 2))]]);
           ("count", VNum (Num 2));
           ("hasMore", VBool true)])
    "products"
  = Some (Str.join (Str.of_char Str.newline)
            ["## Products";
             "";
             "**Showing:** 2";
             "**More available:** Yes (cursor: `undefined`)";
             "";
             "| ID | Title | Vendor | Status | Variants |";
             "|---|---|---|---|---|";
             "| 1 | undefined | - | - | 0 |";
             "| 2 | undefined | - | - | 0 |"]).
Proof. reflexivity. Qed.

End FormatterFacts.

(** ** Laws of the case converter *)

Module CasingLaws.
Import Js CaseConverter ValueInduction CaseConverterFacts ObjectFacts CasingFacts
  TransformFacts.

(** One step of the round trip from internal casing and back. *)
Lemma roundtrip_upper (c : ascii) (rest : string) :
  Str.is_upper c = true ->
  snakeToCamel (camelToSnake (String c rest))
  = String c (snakeToCamel (camelToSnake rest)).
Proof.
  intros Hc. cbn [camelToSnake]. rewrite Hc.
  rewrite snakeToCamel_match by now apply lower_is_lower.
  now rewrite upper_of_lower.
Qed.

Lemma roundtrip_joined (d : ascii) (r : string) :
  Str.is_lower d = true ->
  snakeToCamel (camelToSnake (String Str.underscore (String d r)))
  = String (Str.to_upper d) (snakeToCamel (camelToSnake r)).
Proof.
  intros Hd.
  assert (Hup : Str.is_upper d = false).
  { destruct (Str.is_upper d) eqn:Hu; [ | reflexivity ].
    apply upper_not_lower in Hu. congruence. }
  cbn [camelToSnake]. rewrite underscore_not_upper, Hup.
  now apply snakeToCamel_match.
Qed.

Lemma roundtrip_kept (c : ascii) (rest : string) :
  Str.is_upper c = false ->
  (Ascii.eqb c Str.underscore && starts_lower rest)%bool = false ->
  snakeToCamel (camelToSnake (String c rest))
  = String c (snakeToCamel (camelToSnake rest)).
Proof.
  intros Hc Hskip. cbn [camelToSnake]. rewrite Hc.
  apply snakeToCamel_skip. now rewrite starts_lower_camelToSnake.
Qed.

(** The round trip never lengthens a key, and shortens every key in which
    an underscore stands before a lower-case letter. *)
Lemma roundtrip_length (key : string) :
  (String.length (snakeToCamel (camelToSnake key)) <= String.length key)%nat
  /\ (canonical_camel key = false ->
      (String.length (snakeToCamel (camelToSnake key)) < String.length key)%nat).
Proof.
  induction key as [ | c | c d r IHr IHdr ] using string_pair_ind.
  - split; [ apply Nat.le_refl | discriminate ].
  - destruct (Str.is_upper c) eqn:Hc.
    + rewrite roundtrip_upper by exact Hc. cbn [camelToSnake snakeToCamel String.length].
      split; [ apply Nat.le_refl | ].
      cbn [canonical_camel starts_lower]. rewrite andb_false_r. discriminate.
    + rewrite roundtrip_kept; [ | exact Hc | cbn [starts_lower]; apply andb_false_r ].
      cbn [camelToSnake snakeToCamel String.length].
      split; [ apply Nat.le_refl | ].
      cbn [canonical_camel starts_lower]. rewrite andb_false_r. discriminate.
  - destruct IHr as [IHr _]. destruct IHdr as [IHle IHlt].
    destruct (Str.is_upper c) eqn:Hc.
    + rewrite roundtrip_upper by exact Hc.
      change (canonical_camel (String c (String d r)))
        with (negb (Ascii.eqb c Str.underscore && starts_lower (String d r))
              && canonical_camel (String d r))%bool.
      rewrite (upper_not_underscore c Hc). cbn [andb negb String.length] in *.
      split; [ lia | intros H; specialize (IHlt H); lia ].
    + destruct (Ascii.eqb c Str.underscore && starts_lower (String d r))%bool eqn:Hj.
      * apply andb_prop in Hj. destruct Hj as [Hu Hd].
        apply Ascii.eqb_eq in Hu. subst c. cbn [starts_lower] in Hd.
        rewrite roundtrip_joined by exact Hd. cbn [String.length].
        split; [ lia | intros _; lia ].
      * rewrite roundtrip_kept by assumption.
        change (canonical_camel (String c (String d r)))
          with (negb (Ascii.eqb c Str.underscore && starts_lower (String d r))
                && canonical_camel (String d r))%bool.
        rewrite Hj. cbn [andb negb String.length] in *.
        split; [ lia | intros H; specialize (IHlt H); lia ].
Qed.

(** X1.  The round trip from internal casing to wire casing and back gives
    the key again exactly for the keys in which no underscore stands right
    before a lower-case letter. *)
Theorem roundtrip_exactly_canonical (key : string) :
  snakeToCamel (camelToSnake key) = key <-> canonical_camel key = true.
Proof.
  split.
  - intros Heq. destruct (canonical_camel key) eqn:Hc; [ reflexivity | ].
    destruct (roundtrip_length key) as [_ Hlt]. specialize (Hlt Hc).
    rewrite Heq in Hlt. lia.
  - apply canonical_roundtrip.
Qed.

(** X2.  The round trip from wire casing to internal casing and back gives
    the key again exactly for the keys without an upper-case letter. *)
Theorem wire_roundtrip_exactly_lower (key : string) :
  camelToSnake (snakeToCamel key) = key <-> no_upper key = true.
Proof.
  split.
  - intros Heq. rewrite <- Heq. apply camelToSnake_no_upper.
  - apply wire_roundtrip.
Qed.

(** X3.  Each conversion is injective on its own casing: two option names
    without underscore that differ have different wire names, and two wire
    names without upper-case letter that differ have different internal
    names. *)
Theorem conversions_injective :
  (forall a b, no_underscore a = true -> no_underscore b = true ->
               a <> b -> camelToSnake a <> camelToSnake b)
  /\ (forall a b, no_upper a = true -> no_upper b = true ->
                  a <> b -> snakeToCamel a <> snakeToCamel b).
Proof.
  split; intros a b Ha Hb Hne Heq; apply Hne.
  - now apply camelToSnake_injective.
  - now apply snakeToCamel_injective.
Qed.

Lemma conversions_injective_witness :
  camelToSnake "sinceId" <> camelToSnake "sinceid"
  /\ snakeToCamel "since_id" <> snakeToCamel "sinceid".
Proof.
  split.
  - apply (proj1 conversions_injective "sinceId" "sinceid");
      [ reflexivity | reflexivity | ].
    intros H. apply String.eqb_eq in H. vm_compute in H. discriminate.
  - apply (proj2 conversions_injective "since_id" "sinceid");
      [ reflexivity | reflexivity | ].
    intros H. apply String.eqb_eq in H. vm_compute in H. discriminate.
Defined.

(** The keys [transformKeys] writes are values of the transformer. *)
Lemma keys_all_transformKeys (f : string -> string) (p : string -> bool) (v : value) :
  (forall key, p (f key) = true) -> keys_all p (transformKeys f v) = true.
Proof.
  intros Hp.
  induction v as [ | | b | n | s | items IH | entries IH ] using value_ind;
    try reflexivity.
  - cbn [transformKeys keys_all]. rewrite forallb_forall. intros y Hy.
    apply in_map_iff in Hy. destruct Hy as [x [<- Hx]].
    rewrite Forall_forall in IH. now apply IH.
  - rewrite transformKeys_object. cbn [keys_all]. rewrite Forall_forall in IH.
    apply andb_true_intro. split; rewrite forallb_forall.
    + intros name Hname. apply in_map_iff in Hname.
      destruct Hname as [[name' w] [<- Hin]]. cbn [fst].
      apply In_fold_setEntry in Hin.
      destruct Hin as [[] | [key [x [_ [-> _]]]]]. apply Hp.
    + intros [name w] Hin. apply In_fold_setEntry in Hin.
      destruct Hin as [[] | [key [x [Hx [_ ->]]]]]. apply (IH _ Hx).
Qed.

(** X4.  Whatever the input, every key at every depth of the result of
    [toSnakeCase] is free of upper-case letters, and in the result of
    [toCamelCase] no key has an underscore right before a lower-case
    letter. *)
Theorem converted_keys_cased (v : value) :
  keys_all no_upper (toSnakeCase v) = true
  /\ keys_all canonical_camel (toCamelCase v) = true.
Proof.
  split.
  - apply keys_all_transformKeys, camelToSnake_no_upper.
  - apply keys_all_transformKeys, snakeToCamel_canonical.
Qed.

End CasingLaws.

(** ** Array indices and the order of properties *)

Module PropertyOrderFacts.
Import Js ObjectFacts NumeralFacts.

(** A text of digits is the numeral of a decimal number. *)
Lemma all_digits_numeral (s : string) :
  all_digits s = true -> exists d, s = NilEmpty.string_of_uint d.
Proof.
  induction s as [ | c rest IH ]; intros H.
  - exists Decimal.Nil. reflexivity.
  - cbn [all_digits] in H. apply andb_prop in H. destruct H as [Hc Hrest].
    destruct (IH Hrest) as [d ->].
    destruct c as [[] [] [] [] [] [] [] []]; try discriminate Hc;
      first [ exists (Decimal.D0 d); reflexivity | exists (Decimal.D1 d); reflexivity
            | exists (Decimal.D2 d); reflexivity | exists (Decimal.D3 d); reflexivity
            | exists (Decimal.D4 d); reflexivity | exists (Decimal.D5 d); reflexivity
            | exists (Decimal.D6 d); reflexivity | exists (Decimal.D7 d); reflexivity
            | exists (Decimal.D8 d); reflexivity | exists (Decimal.D9 d); reflexivity ].
Qed.

(** An array index is a numeral without leading zero, and its number. *)
Lemma array_index_numeral (key : string) (n : Z) :
  array_index key = Some n ->
  exists d, key = NilEmpty.string_of_uint d
            /\ Decimal.unorm d = d
            /\ n = Z.of_N (Pos.of_uint d).
Proof.
  unfold array_index. destruct key as [ | c rest ]; [ discriminate | ].
  destruct (Ascii.eqb c "0" && negb (String.eqb rest ""))%bool eqn:Hzero;
    [ discriminate | ].
  destruct (all_digits (String c rest)) eqn:Hdigits; [ | discriminate ].
  destruct (Z.leb (digits_prefix 0 (String c rest)) 4294967294); [ | discriminate ].
  intros H. injection H as <-.
  destruct (all_digits_numeral _ Hdigits) as [d Hd].
  exists d.
  split; [ exact Hd | split ].
  2:{ change (digits_prefix 0 (String c rest) = Z.of_N (Pos.of_uint d)).
      rewrite Hd. apply digits_prefix_zero. }
  destruct d as [ | d | d | d | d | d | d | d | d | d | d ]; try reflexivity.
  - discriminate Hd.
  - cbn [NilEmpty.string_of_uint] in Hd. injection Hd as -> ->.
    cbn [Ascii.eqb Bool.eqb andb] in Hzero.
    destruct d; cbn in Hzero; try discriminate Hzero. reflexivity.
Qed.

(** Two keys that are the same array index are the same key. *)
Lemma array_index_injective (a b : string) (n : Z) :
  array_index a = Some n -> array_index b = Some n -> a = b.
Proof.
  intros Ha Hb.
  destruct (array_index_numeral a n Ha) as [da [-> [Hna Hva]]].
  destruct (array_index_numeral b n Hb) as [db [-> [Hnb Hvb]]].
  f_equal. rewrite <- Hna, <- Hnb.
  apply DecimalPos.Unsigned.of_inj. apply N2Z.inj. congruence.
Qed.

Lemma keys_replace_value (key : string) (v : value) (ps : props) :
  map fst (replace_value key v ps) = map fst ps.
Proof.
  induction ps as [ | [k x] rest IH ]; [ reflexivity | ].
  cbn [replace_value]. destruct (String.eqb k key); cbn [map fst];
    [ reflexivity | now rewrite IH ].
Qed.

(** The keys after [insert_index]: the new key is among the old ones. *)
Lemma keys_insert_index (n : Z) (key : string) (v : value) (ps : props) (k : string) :
  In k (map fst (insert_index n key v ps)) <-> k = key \/ In k (map fst ps).
Proof.
  induction ps as [ | [k' x] rest IH ]; cbn [insert_index map fst In].
  - intuition congruence.
  - destruct (array_index k') as [m | ];
      [ destruct (Z.ltb m n) | ]; cbn [map fst In]; try rewrite IH;
      intuition congruence.
Qed.

Lemma existsb_eqb_false (key : string) (keys : list string) :
  existsb (String.eqb key) keys = false <-> ~ In key keys.
Proof.
  split.
  - intros H Hin. assert (existsb (String.eqb key) keys = true) as Ht.
    { apply existsb_exists. exists key. split; [ exact Hin | apply String.eqb_refl ]. }
    congruence.
  - intros H. destruct (existsb (String.eqb key) keys) eqn:He; [ | reflexivity ].
    apply existsb_exists in He. destruct He as [k [Hin Hk]].
    apply String.eqb_eq in Hk. subst k. contradiction.
Qed.

Lemma distinct_insert_index (n : Z) (key : string) (v : value) (ps : props) :
  ~ In key (map fst ps) ->
  distinct (map fst ps) = true ->
  distinct (map fst (insert_index n key v ps)) = true.
Proof.
  induction ps as [ | [k x] rest IH ]; intros Hfresh Hd.
  - reflexivity.
  - assert (distinct (key :: map fst ((k, x) :: rest)) = true) as Hhere.
    { cbn [distinct]. apply andb_true_intro. split; [ | exact Hd ].
      apply negb_true_iff, existsb_eqb_false, Hfresh. }
    cbn [insert_index]. destruct (array_index k) as [m | ];
      [ destruct (Z.ltb m n) | ]; try exact Hhere.
    cbn [map fst distinct] in *. apply andb_prop in Hd. destruct Hd as [Hk Hrest].
    apply andb_true_intro. split.
    + apply negb_true_iff, existsb_eqb_false. intros Hin.
      apply keys_insert_index in Hin. destruct Hin as [-> | Hin].
      * apply Hfresh. now left.
      * apply negb_true_iff, existsb_eqb_false in Hk. contradiction.
    + apply IH; [ | exact Hrest ]. intros Hin. apply Hfresh. now right.
Qed.

Lemma in_property_order_insert_index (n : Z) (key : string) (v : value) (ps : props) :
  array_index key = Some n ->
  ~ In key (map fst ps) ->
  in_property_order (map fst ps) = true ->
  in_property_order (map fst (insert_index n key v ps)) = true.
Proof.
  intros Hkey.
  induction ps as [ | [k x] rest IH ]; intros Hfresh Ho.
  - reflexivity.
  - cbn [map fst in_property_order] in Ho. apply andb_prop in Ho.
    destruct Ho as [Hk Hrest]. rewrite forallb_forall in Hk.
    assert (forall m, array_index k = Some m -> m <> n) as Hne.
    { intros m Hm ->. apply Hfresh. left.
      symmetry. cbn [fst]. exact (array_index_injective _ _ _ Hkey Hm). }
    assert ((forall m, array_index k = Some m -> (n < m)%Z) ->
            in_property_order (key :: map fst ((k, x) :: rest)) = true) as Hhere.
    { intros Hlt. cbn [map fst in_property_order].
      apply andb_true_intro. split.
      - cbn [forallb]. apply andb_true_intro. split.
        + unfold may_follow. rewrite Hkey.
          destruct (array_index k) as [m | ] eqn:Hm; [ | reflexivity ].
          apply Z.ltb_lt. now apply Hlt.
        + rewrite forallb_forall. intros k' Hk'. specialize (Hk k' Hk').
          unfold may_follow in *. rewrite Hkey.
          destruct (array_index k) as [m | ] eqn:Hm;
            destruct (array_index k') as [m' | ]; try reflexivity;
            try discriminate Hk.
          apply Z.ltb_lt in Hk. apply Z.ltb_lt.
          specialize (Hlt m eq_refl). lia.
      - apply andb_true_intro. split; [ | exact Hrest ].
        rewrite forallb_forall. exact Hk. }
    cbn [insert_index]. destruct (array_index k) as [m | ] eqn:Hm.
    + destruct (Z.ltb m n) eqn:Hmn.
      * cbn [map fst in_property_order]. apply andb_true_intro. split.
        -- rewrite forallb_forall. intros k' Hk'.
           apply keys_insert_index in Hk'. destruct Hk' as [-> | Hk'].
           ++ unfold may_follow. now rewrite Hm, Hkey.
           ++ now apply Hk.
        -- apply IH; [ | exact Hrest ]. intros Hin. apply Hfresh. now right.
      * apply Hhere. intros m' Hm'. injection Hm' as <-.
        apply Z.ltb_ge in Hmn. specialize (Hne m eq_refl). lia.
    + apply Hhere. intros m' Hm'. discriminate Hm'.
Qed.

Lemma distinct_snoc (keys : list string) (key : string) :
  ~ In key keys -> distinct keys = true -> distinct (keys ++ [key]) = true.
Proof.
  induction keys as [ | k rest IH ]; intros Hfresh Hd; [ reflexivity | ].
  cbn [distinct app] in *. apply andb_prop in Hd. destruct Hd as [Hk Hrest].
  apply andb_true_intro. split.
  - apply negb_true_iff, existsb_eqb_false. intros Hin.
    apply in_app_or in Hin. destruct Hin as [Hin | [<- | []]].
    + apply negb_true_iff, existsb_eqb_false in Hk. contradiction.
    + apply Hfresh. now left.
  - apply IH; [ | exact Hrest ]. intros Hin. apply Hfresh. now right.
Qed.

Lemma in_property_order_snoc (keys : list string) (key : string) :
  array_index key = None ->
  in_property_order keys = true -> in_property_order (keys ++ [key]) = true.
Proof.
  intros Hkey.
  induction keys as [ | k rest IH ]; intros Ho; [ reflexivity | ].
  cbn [in_property_order app] in *. apply andb_prop in Ho. destruct Ho as [Hk Hrest].
  apply andb_true_intro. split; [ | now apply IH ].
  rewrite forallb_app, Hk. cbn [forallb andb].
  unfold may_follow. rewrite Hkey. now destruct (array_index k).
Qed.

(** [obj[key] = v] keeps an object an object: its keys stay distinct, in
    property order, and none of them is [__proto__]. *)
Lemma settable_obj_set (key : string) (v : value) (ps : props) :
  settable (map fst ps) = true -> settable (map fst (obj_set key v ps)) = true.
Proof.
  intros Hs. unfold obj_set.
  destruct (String.eqb key "__proto__") eqn:Hproto; [ exact Hs | ].
  destruct (has_key key ps) eqn:Hhas; [ now rewrite keys_replace_value | ].
  rewrite has_key_existsb in Hhas. apply existsb_eqb_false in Hhas.
  unfold settable in *. apply andb_prop in Hs. destruct Hs as [Hs Ho].
  apply andb_prop in Hs. destruct Hs as [Hd Hp].
  apply negb_true_iff, existsb_eqb_false in Hp.
  assert (forall keys, (forall k, In k keys -> k = key \/ In k (map fst ps)) ->
                       negb (existsb (String.eqb "__proto__") keys) = true) as Hnone.
  { intros keys Hkeys. apply negb_true_iff, existsb_eqb_false. intros Hin.
    destruct (Hkeys _ Hin) as [<- | Hin']; [ | contradiction ].
    now rewrite String.eqb_refl in Hproto. }
  destruct (array_index key) as [n | ] eqn:Hkey.
  - rewrite distinct_insert_index, in_property_order_insert_index by assumption.
    rewrite Hnone; [ reflexivity | ]. intros k Hk. now apply keys_insert_index in Hk.
  - rewrite map_app. cbn [map fst].
    rewrite distinct_snoc, in_property_order_snoc by assumption.
    rewrite Hnone; [ reflexivity | ]. intros k Hk.
    apply in_app_or in Hk. destruct Hk as [Hk | [<- | []]]; [ now right | now left ].
Qed.

End PropertyOrderFacts.

(** ** Laws of the key transformation *)

Module TransformLaws.
Import Js CaseConverter Samples ValueInduction CaseConverterFacts ObjectFacts
  CasingFacts TransformFacts PropertyOrderFacts CasingLaws.

Lemma fold_setEntry_settable (f : string -> string) (entries result : props) :
  settable (map fst result) = true ->
  settable (map fst (fold_left (setEntry f) entries result)) = true.
Proof.
  revert result.
  induction entries as [ | [key x] rest IH ]; intros result Hs; [ exact Hs | ].
  cbn [fold_left]. apply IH. unfold setEntry. now apply settable_obj_set.
Qed.

(** Every object in a result of [transformKeys] lists distinct keys in
    property order, none of them [__proto__]. *)
Lemma transformKeys_settled (f : string -> string) (v : value) :
  keys_kept (fun key => key) (transformKeys f v) = true.
Proof.
  induction v as [ | | b | n | s | items IH | entries IH ] using value_ind;
    try reflexivity.
  - cbn [transformKeys keys_kept]. rewrite forallb_forall. intros y Hy.
    apply in_map_iff in Hy. destruct Hy as [x [<- Hx]].
    rewrite Forall_forall in IH. now apply IH.
  - rewrite transformKeys_object. cbn [keys_kept]. rewrite Forall_forall in IH.
    apply andb_true_intro. split.
    + change (map (fun entry : string * value => fst entry)) with (map (@fst string value)).
      now apply fold_setEntry_settable.
    + rewrite forallb_forall. intros [name w] Hin. apply In_fold_setEntry in Hin.
      destruct Hin as [[] | [key [x [Hx [_ ->]]]]]. apply (IH _ Hx).
Qed.

(** A transformer that leaves the keys of a value as they are leaves the
    value as it is. *)
Lemma transformKeys_fixed (g : string -> string) (p : string -> bool) (w : value) :
  (forall key, p key = true -> g key = key) ->
  keys_all p w = true ->
  keys_kept (fun key => key) w = true ->
  transformKeys g w = w.
Proof.
  intros Hg.
  induction w as [ | | b | n | s | items IH | entries IH ] using value_ind;
    try reflexivity; intros Hp Hk.
  - cbn [transformKeys]. f_equal. cbn [keys_all keys_kept] in Hp, Hk.
    rewrite forallb_forall in Hp, Hk. rewrite Forall_forall in IH.
    rewrite <- (map_id items) at 2. apply map_ext_in.
    intros x Hx. now apply IH; [ | apply Hp | apply Hk ].
  - cbn [keys_all keys_kept] in Hp, Hk.
    apply andb_prop in Hp. destruct Hp as [Hkeys Hp].
    apply andb_prop in Hk. destruct Hk as [Hset Hk].
    rewrite forallb_forall in Hkeys, Hp, Hk. rewrite Forall_forall in IH.
    assert (map (fun entry : string * value => g (fst entry)) entries
            = map (fun entry : string * value => fst entry) entries) as Hsame.
    { apply map_ext_in. intros [k x] Hin. cbn [fst]. apply Hg, Hkeys.
      apply in_map_iff. exists (k, x). now split. }
    rewrite transformKeys_settable by now rewrite Hsame.
    f_equal. rewrite <- (map_id entries) at 2. apply map_ext_in.
    intros [k x] Hin. cbn [fst snd]. f_equal.
    + apply Hg, Hkeys. apply in_map_iff. exists (k, x). now split.
    + apply (IH (k, x) Hin); [ exact (Hp (k, x) Hin) | exact (Hk (k, x) Hin) ].
Qed.

Lemma camelToSnake_wire_key (key : string) :
  no_upper key = true -> camelToSnake key = key.
Proof.
  induction key as [ | c rest IH ]; [ reflexivity | ].
  cbn [no_upper camelToSnake]. intros H. apply andb_prop in H. destruct H as [Hc Hrest].
  apply negb_true_iff in Hc. now rewrite Hc, IH.
Qed.

Lemma snakeToCamel_canonical_key (key : string) :
  canonical_camel key = true -> snakeToCamel key = key.
Proof.
  induction key as [ | c rest IH ]; [ reflexivity | ].
  cbn [canonical_camel]. intros H. apply andb_prop in H. destruct H as [Hc Hrest].
  apply negb_true_iff in Hc. rewrite snakeToCamel_skip by exact Hc.
  now rewrite IH.
Qed.

(** X5.  Both conversions are idempotent on every value: converting a
    converted value again changes nothing. *)
Theorem conversions_idempotent (v : value) :
  toSnakeCase (toSnakeCase v) = toSnakeCase v
  /\ toCamelCase (toCamelCase v) = toCamelCase v.
Proof.
  split.
  - apply (transformKeys_fixed camelToSnake no_upper).
    + apply camelToSnake_wire_key.
    + apply keys_all_transformKeys, camelToSnake_no_upper.
    + apply transformKeys_settled.
  - apply (transformKeys_fixed snakeToCamel canonical_camel).
    + apply snakeToCamel_canonical_key.
    + apply keys_all_transformKeys, snakeToCamel_canonical.
    + apply transformKeys_settled.
Qed.

Lemma settable_well_formed_keys (keys : list string) :
  settable keys = true -> well_formed_keys keys = true.
Proof.
  unfold settable, well_formed_keys. intros H.
  apply andb_prop in H. destruct H as [H Ho].
  apply andb_prop in H. destruct H as [Hd _]. now rewrite Hd, Ho.
Qed.

(** Converting there and back gives the value again when the first
    conversion keeps the keys of every object apart and the second undoes
    it on every key. *)
Lemma transformKeys_roundtrip (f g : string -> string) (p : string -> bool) (v : value) :
  (forall key, p key = true -> g (f key) = key) ->
  (forall keys, forallb p keys = true -> settable keys = true ->
                settable (map f keys) = true) ->
  keys_all p v = true ->
  keys_kept (fun key => key) v = true ->
  transformKeys g (transformKeys f v) = v.
Proof.
  intros Hback Hapart.
  induction v as [ | | b | n | s | items IH | entries IH ] using value_ind;
    try reflexivity; intros Hp Hk.
  - cbn [transformKeys]. f_equal. cbn [keys_all keys_kept] in Hp, Hk.
    rewrite forallb_forall in Hp, Hk. rewrite Forall_forall in IH.
    rewrite map_map. rewrite <- (map_id items) at 2. apply map_ext_in.
    intros x Hx. now apply IH; [ | apply Hp | apply Hk ].
  - cbn [keys_all keys_kept] in Hp, Hk.
    apply andb_prop in Hp. destruct Hp as [Hkeys Hp].
    apply andb_prop in Hk. destruct Hk as [Hset Hk].
    change (map (fun entry : string * value => fst entry) entries)
      with (map (@fst string value) entries) in Hset.
    pose proof (Hapart _ Hkeys Hset) as Hf. rewrite map_map in Hf.
    rewrite forallb_forall in Hkeys, Hp, Hk. rewrite Forall_forall in IH.
    rewrite (transformKeys_settable f) by exact Hf.
    assert (forall k x, In (k, x) entries -> g (f k) = k) as Hkey.
    { intros k x Hin. apply Hback, Hkeys. apply in_map_iff. exists (k, x). now split. }
    rewrite (transformKeys_settable g).
    + f_equal. rewrite map_map. rewrite <- (map_id entries) at 2. apply map_ext_in.
      intros [k x] Hin. cbn [fst snd]. f_equal.
      * exact (Hkey k x Hin).
      * apply (IH (k, x) Hin); [ exact (Hp (k, x) Hin) | exact (Hk (k, x) Hin) ].
    + rewrite map_map. cbn [fst].
      replace (map (fun entry : string * value => g (f (fst entry))) entries)
        with (map (@fst string value) entries); [ exact Hset | ].
      apply map_ext_in. intros [k x] Hin. cbn [fst]. symmetry. exact (Hkey k x Hin).
Qed.

(** X6.  On a value whose objects list distinct keys in property order,
    none of them [__proto__]: a payload in wire casing (no upper-case
    letter in a key) comes back unchanged from [toCamelCase] followed by
    [toSnakeCase], and a value in internal casing (no underscore in a key)
    from [toSnakeCase] followed by [toCamelCase]. *)
Theorem payload_roundtrip (v : value) :
  keys_kept (fun key => key) v = true ->
  (keys_all no_upper v = true -> toSnakeCase (toCamelCase v) = v)
  /\ (keys_all no_underscore v = true -> toCamelCase (toSnakeCase v) = v).
Proof.
  intros Hk. split; intros Hp.
  - apply (transformKeys_roundtrip snakeToCamel camelToSnake no_upper);
      try assumption.
    + apply wire_roundtrip.
    + intros keys Hkeys Hs. apply settable_snakeToCamel; [ exact Hkeys | ].
      now apply settable_well_formed_keys.
  - apply (transformKeys_roundtrip camelToSnake snakeToCamel no_underscore);
      try assumption.
    + apply internal_roundtrip.
    + intros keys Hkeys Hs. apply settable_camelToSnake; [ exact Hkeys | ].
      now apply settable_well_formed_keys.
Qed.

Lemma payload_roundtrip_witness :
  keys_kept (fun key => key) sample_order = true
  /\ keys_all no_underscore sample_order = true
  /\ toCamelCase (toSnakeCase sample_order) = sample_order.
Proof.
  split; [ reflexivity | split; [ reflexivity | ] ].
  apply (proj2 (payload_roundtrip sample_order eq_refl)). reflexivity.
Defined.

End TransformLaws.

(** ** Laws of the request executor *)

Module RequestLaws.
Import Js CaseConverter Client Samples RequestFacts.

(** The outcome of a successful response. *)
Lemma handleResponse_success (response : Response) :
  ok response = true ->
  handleResponse response
  = if Z.eqb (status response) 204 then Returned VUndefined
    else match json response with
         | Some data => Returned (toCamelCase data)
         | None => Thrown SyntaxError
         end.
Proof.
  unfold ok, handleResponse. intros Hok.
  apply andb_prop in Hok. destruct Hok as [Hlo Hhi].
  apply Z.leb_le in Hlo. apply Z.leb_le in Hhi.
  assert (forall code, (code < 200 \/ 299 < code)%Z ->
                       Z.eqb (status response) code = false) as Hne
      by (intros code Hcode; apply Z.eqb_neq; lia).
  rewrite (Hne 429), (Hne 401), (Hne 403), (Hne 404) by lia.
  unfold ok. replace (Z.leb 200 (status response)) with true
    by (symmetry; apply Z.leb_le; lia).
  replace (Z.leb (status response) 299) with true
    by (symmetry; apply Z.leb_le; lia).
  reflexivity.
Qed.

(** A response that is not successful is answered by an error. *)
Lemma handleResponse_failure (response : Response) :
  ok response = false -> exists e, handleResponse response = Thrown e.
Proof.
  intros Hok. unfold handleResponse.
  destruct (Z.eqb (status response) 429); [ eexists; reflexivity | ].
  destruct (Z.eqb (status response) 401); [ eexists; reflexivity | ].
  destruct (Z.eqb (status response) 403); [ eexists; reflexivity | ].
  destruct (Z.eqb (status response) 404); [ eexists; reflexivity | ].
  rewrite Hok. eexists. reflexivity.
Qed.

(** X7.  [request] returns a value only from a response of the 2xx class:
    [undefined] for 204, and otherwise the camel-cased JSON body; from
    any other status, and when no response arrives, nothing is returned. *)
Theorem request_returns_only_success (credentials : TenantCredentials)
    (fetch : FetchRequest -> option Response)
    (endpoint : string) (options : RequestInit) (payload : value) :
  request credentials fetch endpoint options = Returned payload ->
  exists response,
    fetch (fetchCall credentials endpoint options) = Some response
    /\ ok response = true
    /\ ((status response = 204%Z /\ payload = VUndefined)
        \/ (status response <> 204%Z
            /\ exists data, json response = Some data /\ payload = toCamelCase data)).
Proof.
  unfold request.
  destruct (fetch (fetchCall credentials endpoint options)) as [response | ];
    [ | discriminate ].
  intros H. exists response. split; [ reflexivity | ].
  destruct (ok response) eqn:Hok.
  - split; [ reflexivity | ]. rewrite (handleResponse_success _ Hok) in H.
    destruct (Z.eqb (status response) 204) eqn:Hs.
    + left. apply Z.eqb_eq in Hs. injection H as <-. now split.
    + right. apply Z.eqb_neq in Hs. split; [ exact Hs | ].
      destruct (json response) as [data | ]; [ | discriminate H ].
      injection H as <-. now exists data.
  - destruct (handleResponse_failure _ Hok) as [e He]. congruence.
Qed.

Lemma request_returns_only_success_witness :
  exists response,
    respond (json_response 200 (VObj [("shop", VNull)]))
      (fetchCall shop "/shop.json" no_options) = Some response
    /\ ok response = true
    /\ ((status response = 204%Z /\ VObj [("shop", VNull)] = VUndefined)
        \/ (status response <> 204%Z
            /\ exists data, json response = Some data
                            /\ VObj [("shop", VNull)] = toCamelCase data)).
Proof.
  apply (request_returns_only_success shop
           (respond (json_response 200 (VObj [("shop", VNull)])))
           "/shop.json" no_options).
  reflexivity.
Defined.

(** X8.  For the statuses 429, 401, 403 and 404 the error is decided by
    the status and the headers alone: the body of the response is not
    read. *)
Theorem early_status_ignores_body (credentials : TenantCredentials)
    (fetch fetch' : FetchRequest -> option Response)
    (endpoint : string) (options : RequestInit) (response response' : Response) :
  fetch (fetchCall credentials endpoint options) = Some response ->
  fetch' (fetchCall credentials endpoint options) = Some response' ->
  early (status response) = true ->
  status response' = status response ->
  headers response' = headers response ->
  exists e,
    request credentials fetch endpoint options = Thrown e
    /\ request credentials fetch' endpoint options = Thrown e.
Proof.
  intros Hf Hf' Hearly Hs Hh.
  rewrite (request_response _ _ _ _ _ Hf), (request_response _ _ _ _ _ Hf').
  unfold handleResponse. rewrite Hs, Hh. unfold early in Hearly.
  destruct (Z.eqb (status response) 429); [ eexists; split; reflexivity | ].
  destruct (Z.eqb (status response) 401); [ eexists; split; reflexivity | ].
  destruct (Z.eqb (status response) 403); [ eexists; split; reflexivity | ].
  destruct (Z.eqb (status response) 404); [ eexists; split; reflexivity | ].
  discriminate Hearly.
Qed.

Lemma early_status_ignores_body_witness :
  exists e,
    request shop (respond (json_response 404 (VObj [("errors", VStr "Not Found")])))
      "/products/1.json" no_options = Thrown e
    /\ request shop (respond {| status := 404; headers := []; json := None |})
         "/products/1.json" no_options = Thrown e.
Proof.
  apply (early_status_ignores_body shop
           (respond (json_response 404 (VObj [("errors", VStr "Not Found")])))
           (respond {| status := 404; headers := []; json := None |})
           "/products/1.json" no_options
           (json_response 404 (VObj [("errors", VStr "Not Found")]))
           {| status := 404; headers := []; json := None |});
    reflexivity.
Defined.

End RequestLaws.

(** ** Laws of the operations *)

Module OperationLaws.
Import Js CaseConverter Client Operations Samples CaseConverterFacts ObjectFacts
  CasingFacts TransformFacts RequestFacts RequestLaws.

(** What an operation gets from a successful response with a JSON body. *)
Lemma request_data (credentials : TenantCredentials)
    (fetch : FetchRequest -> option Response)
    (endpoint : string) (options : RequestInit) (response : Response) (data : value) :
  fetch (fetchCall credentials endpoint options) = Some response ->
  ok response = true -> status response <> 204%Z ->
  json response = Some data ->
  request credentials fetch endpoint options = Returned (toCamelCase data).
Proof.
  intros Hf Hok Hs Hj.
  rewrite (request_response _ _ _ _ _ Hf), (handleResponse_success _ Hok), Hj.
  apply Z.eqb_neq in Hs. now rewrite Hs.
Qed.

Lemma request_no_content (credentials : TenantCredentials)
    (fetch : FetchRequest -> option Response)
    (endpoint : string) (options : RequestInit) (response : Response) :
  fetch (fetchCall credentials endpoint options) = Some response ->
  status response = 204%Z ->
  request credentials fetch endpoint options = Returned VUndefined.
Proof.
  intros Hf Hs. rewrite (request_response _ _ _ _ _ Hf).
  rewrite handleResponse_success by (unfold ok; now rewrite Hs).
  now rewrite Hs.
Qed.

Lemma lookup_In (key : string) (ps : props) (v : value) :
  lookup key ps = Some v -> In (key, v) ps.
Proof.
  induction ps as [ | [k x] rest IH ]; [ discriminate | ].
  cbn [lookup]. destruct (String.eqb k key) eqn:Hk.
  - intros H. injection H as <-. apply String.eqb_eq in Hk. subst k. now left.
  - intros H. right. now apply IH.
Qed.

(** A field read through a renaming that keeps the keys apart. *)
Lemma lookup_renamed (f : string -> string) (h : value -> value) (p : string -> bool)
    (name : string) (ps : props) :
  (forall a b, p a = true -> p b = true -> f a = f b -> a = b) ->
  forallb p (map fst ps) = true -> p name = true ->
  lookup (f name) (map (fun entry => (f (fst entry), h (snd entry))) ps)
  = option_map h (lookup name ps).
Proof.
  intros Hinj Hkeys Hname.
  induction ps as [ | [k x] rest IH ]; [ reflexivity | ].
  cbn [map fst forallb] in Hkeys. apply andb_prop in Hkeys. destruct Hkeys as [Hk Hrest].
  cbn [map lookup fst snd].
  destruct (String.eqb k name) eqn:Heq.
  - apply String.eqb_eq in Heq. subst k. now rewrite String.eqb_refl.
  - destruct (String.eqb (f k) (f name)) eqn:Hf; [ | now apply IH ].
    apply String.eqb_eq in Hf. apply Hinj in Hf; [ | assumption .. ].
    subst k. now rewrite String.eqb_refl in Heq.
Qed.

Lemma read_key_internal (op : ReadOperation) : no_underscore (read_key op) = true.
Proof. destruct op; reflexivity. Qed.

Lemma write_key_internal (op : WriteOperation) : no_underscore (write_key op) = true.
Proof. destruct op; reflexivity. Qed.

Lemma list_field_internal (op : ListOperation) : no_underscore (list_field op) = true.
Proof. destruct op; reflexivity. Qed.

(** The field [name] of a camel-cased body in wire casing is the
    camel-cased value found under the wire name of the field. *)
Lemma camel_field (ps : props) (name : string) (entity : value) :
  forallb no_upper (map fst ps) = true ->
  well_formed_keys (map fst ps) = true ->
  no_underscore name = true ->
  lookup (camelToSnake name) ps = Some entity ->
  read (toCamelCase (VObj ps)) name = Returned (toCamelCase entity).
Proof.
  intros Hkeys Hwf Hname Hentity.
  unfold toCamelCase at 1. rewrite transformKeys_settable.
  2:{ rewrite <- (map_map fst snakeToCamel). now apply settable_snakeToCamel. }
  unfold read, get.
  rewrite <- (internal_roundtrip name Hname) at 1.
  rewrite (lookup_renamed snakeToCamel (transformKeys snakeToCamel) no_upper).
  - now rewrite Hentity.
  - apply snakeToCamel_injective.
  - exact Hkeys.
  - apply camelToSnake_no_upper.
Qed.

(** X9.  A read operation returns the entity found under the wire name
    of its field: from a successful response whose body is an object with
    keys in wire casing, the value under [camelToSnake] of the field name,
    camel-cased. *)
Theorem read_operation_wire_field (credentials : TenantCredentials)
    (fetch : FetchRequest -> option Response)
    (op : ReadOperation) (response : Response) (ps : props) (entity : value) :
  fetch (fetchCall credentials (read_endpoint op) no_options) = Some response ->
  ok response = true -> status response <> 204%Z ->
  json response = Some (VObj ps) ->
  forallb no_upper (map fst ps) = true ->
  well_formed_keys (map fst ps) = true ->
  lookup (camelToSnake (read_key op)) ps = Some entity ->
  readOperation credentials fetch op = Returned (toCamelCase entity).
Proof.
  intros Hf Hok Hs Hj Hkeys Hwf Hentity. unfold readOperation.
  rewrite (request_data _ _ _ _ _ _ Hf Hok Hs Hj). cbn [bind].
  apply camel_field; try assumption. apply read_key_internal.
Qed.

Lemma read_operation_wire_field_witness :
  readOperation shop
    (respond (json_response 200
                (VObj [("custom_collection", VObj [("body_html", VStr "Sale")])])))
    (getCustomCollection 1)
  = Returned (toCamelCase (VObj [("body_html", VStr "Sale")])).
Proof.
  apply (read_operation_wire_field shop _ (getCustomCollection 1)
           (json_response 200
              (VObj [("custom_collection", VObj [("body_html", VStr "Sale")])]))
           [("custom_collection", VObj [("body_html", VStr "Sale")])]);
    try reflexivity.
  intros H. discriminate H.
Defined.

(** No key of the body is rewritten to [name]: the camel-cased body has no
    such field. *)
Lemma lookup_absent (f : string -> string) (name : string) (ps : props) :
  (forall key, In key (map fst ps) -> f key <> name) ->
  lookup name (fold_left (setEntry f) ps []) = None.
Proof.
  intros Hnone. destruct (lookup name (fold_left (setEntry f) ps [])) as [w | ] eqn:Hl;
    [ | reflexivity ].
  apply lookup_In, In_fold_setEntry in Hl.
  destruct Hl as [[] | [key [x [Hin [Hname _]]]]].
  exfalso. apply (Hnone key); [ | now symmetry ].
  apply in_map_iff. exists (key, x). now split.
Qed.

(** X10.  When the body of a successful response is an object none of
    whose keys is rewritten to the field of the operation, a read
    operation returns [undefined] without an error. *)
Theorem read_operation_missing_field (credentials : TenantCredentials)
    (fetch : FetchRequest -> option Response)
    (op : ReadOperation) (response : Response) (ps : props) :
  fetch (fetchCall credentials (read_endpoint op) no_options) = Some response ->
  ok response = true -> status response <> 204%Z ->
  json response = Some (VObj ps) ->
  (forall key, In key (map fst ps) -> snakeToCamel key <> read_key op) ->
  readOperation credentials fetch op = Returned VUndefined.
Proof.
  intros Hf Hok Hs Hj Hnone. unfold readOperation.
  rewrite (request_data _ _ _ _ _ _ Hf Hok Hs Hj). cbn [bind].
  unfold toCamelCase. rewrite transformKeys_object. unfold read, get.
  now rewrite lookup_absent.
Qed.

Lemma read_operation_missing_field_witness :
  readOperation shop (respond (json_response 200 (VObj [("products", VArr [])])))
    (getProduct 1)
  = Returned VUndefined.
Proof.
  apply (read_operation_missing_field shop _ (getProduct 1)
           (json_response 200 (VObj [("products", VArr [])]))
           [("products", VArr [])]);
    try reflexivity.
  - intros H. discriminate H.
  - intros key [<- | []]. intros H. apply String.eqb_eq in H. discriminate H.
Defined.

(** X11.  In the same situation a list operation throws a [TypeError]:
    it reads the length of the missing field. *)
Theorem list_operation_missing_field (credentials : TenantCredentials)
    (fetch : FetchRequest -> option Response)
    (op : ListOperation) (params : option props) (endpoint : string)
    (response : Response) (ps : props) :
  list_endpoint op params = Returned endpoint ->
  fetch (fetchCall credentials endpoint no_options) = Some response ->
  ok response = true -> status response <> 204%Z ->
  json response = Some (VObj ps) ->
  (forall key, In key (map fst ps) -> snakeToCamel key <> list_field op) ->
  listOperation credentials fetch op params = Thrown TypeError.
Proof.
  intros He Hf Hok Hs Hj Hnone. unfold listOperation. rewrite He. cbn [bind].
  rewrite (request_data _ _ _ _ _ _ Hf Hok Hs Hj). cbn [bind].
  unfold toCamelCase. rewrite transformKeys_object. unfold read at 1. unfold get at 1.
  now rewrite lookup_absent.
Qed.

Lemma list_operation_missing_field_witness :
  listOperation shop (respond (json_response 200 (VObj [("product", VNull)])))
    listProducts None
  = Thrown TypeError.
Proof.
  apply (list_operation_missing_field shop _ listProducts None "/products.json"
           (json_response 200 (VObj [("product", VNull)]))
           [("product", VNull)]);
    try reflexivity.
  - intros H. discriminate H.
  - intros key [<- | []]. intros H. apply String.eqb_eq in H. discriminate H.
Defined.

(** X12.  A 204 answer makes every operation that reads a field of the
    response throw a [TypeError] (the read, list, write and action
    operations), while the delete operations and [sendDraftOrderInvoice]
    return [undefined]. *)
Theorem no_content_operations (credentials : TenantCredentials)
    (fetch : FetchRequest -> option Response) (response : Response) :
  status response = 204%Z ->
  (forall op,
      fetch (fetchCall credentials (read_endpoint op) no_options) = Some response ->
      readOperation credentials fetch op = Thrown TypeError)
  /\ (forall op params endpoint,
        list_endpoint op params = Returned endpoint ->
        fetch (fetchCall credentials endpoint no_options) = Some response ->
        listOperation credentials fetch op params = Thrown TypeError)
  /\ (forall op input,
        fetch (fetchCall credentials (write_path op) (write_options op input))
        = Some response ->
        writeOperation credentials fetch op input = Thrown TypeError)
  /\ (forall op,
        fetch (fetchCall credentials (action_endpoint op) (action_options op))
        = Some response ->
        actionOperation credentials fetch op = Thrown TypeError)
  /\ (forall op,
        fetch (fetchCall credentials (delete_endpoint op) delete_options)
        = Some response ->
        deleteOperation credentials fetch op = Returned VUndefined)
  /\ (forall draftOrderId params,
        fetch (fetchCall credentials
                 ("/draft_orders/" ++ Str.of_Z draftOrderId ++ "/send_invoice.json")
                 {| method := Some "POST"; body := sendDraftOrderInvoice_body params |})
        = Some response ->
        sendDraftOrderInvoice credentials fetch draftOrderId params
        = Returned VUndefined).
Proof.
  intros Hs.
  split; [ | split; [ | split; [ | split; [ | split ] ] ] ].
  - intros op Hf. unfold readOperation.
    now rewrite (request_no_content _ _ _ _ _ Hf Hs).
  - intros op params endpoint He Hf. unfold listOperation. rewrite He. cbn [bind].
    now rewrite (request_no_content _ _ _ _ _ Hf Hs).
  - intros op input Hf. unfold writeOperation.
    now rewrite (request_no_content _ _ _ _ _ Hf Hs).
  - intros op Hf. unfold actionOperation.
    now rewrite (request_no_content _ _ _ _ _ Hf Hs).
  - intros op Hf. unfold deleteOperation.
    now rewrite (request_no_content _ _ _ _ _ Hf Hs).
  - intros draftOrderId params Hf. unfold sendDraftOrderInvoice.
    exact (request_no_content _ _ _ _ _ Hf Hs).
Qed.

Lemma no_content_operations_witness :
  readOperation shop (respond no_content) (getOrder 7) = Thrown TypeError
  /\ deleteOperation shop (respond no_content) (deleteOrder 7) = Returned VUndefined.
Proof.
  split.
  - apply (proj1 (no_content_operations shop (respond no_content) no_content
                    eq_refl)).
    reflexivity.
  - apply (proj1 (proj2 (proj2 (proj2 (proj2
             (no_content_operations shop (respond no_content) no_content
                eq_refl)))))).
    reflexivity.
Defined.

(** X13.  A delete operation discards the payload: from a successful
    response it returns [undefined] whether the status is 204 or the body
    is JSON; a successful response that is not 204 and whose body is not
    JSON makes it throw the [SyntaxError] of [response.json()]. *)
Theorem delete_discards_payload (credentials : TenantCredentials)
    (fetch : FetchRequest -> option Response)
    (op : DeleteOperation) (response : Response) :
  fetch (fetchCall credentials (delete_endpoint op) delete_options) = Some response ->
  ok response = true ->
  (status response = 204%Z \/ json response <> None ->
   deleteOperation credentials fetch op = Returned VUndefined)
  /\ (status response <> 204%Z -> json response = None ->
      deleteOperation credentials fetch op = Thrown SyntaxError).
Proof.
  intros Hf Hok. unfold deleteOperation.
  rewrite (request_response _ _ _ _ _ Hf), (handleResponse_success _ Hok).
  split.
  - intros [Hs | Hj].
    + now rewrite Hs.
    + destruct (Z.eqb (status response) 204); [ reflexivity | ].
      destruct (json response); [ reflexivity | congruence ].
  - intros Hs Hj. apply Z.eqb_neq in Hs. now rewrite Hs, Hj.
Qed.

Lemma delete_discards_payload_witness :
  deleteOperation shop (respond (json_response 200 (VObj [("id", VNum (Num 1))])))
    (deleteProduct 1)
  = Returned VUndefined.
Proof.
  apply (proj1 (delete_discards_payload shop _ (deleteProduct 1)
                  (json_response 200 (VObj [("id", VNum (Num 1))]))
                  eq_refl eq_refl)).
  right. discriminate.
Defined.

(** X26.  A create or update operation reads the entity back under the
    wire name of its key, also where the key has more than one word: from
    a successful response with a body in wire casing it returns the value
    under [camelToSnake] of the key, camel-cased. *)
Theorem write_operation_wire_field (credentials : TenantCredentials)
    (fetch : FetchRequest -> option Response)
    (op : WriteOperation) (input : value) (response : Response) (ps : props)
    (entity : value) :
  fetch (fetchCall credentials (write_path op) (write_options op input))
  = Some response ->
  ok response = true -> status response <> 204%Z ->
  json response = Some (VObj ps) ->
  forallb no_upper (map fst ps) = true ->
  well_formed_keys (map fst ps) = true ->
  lookup (camelToSnake (write_key op)) ps = Some entity ->
  writeOperation credentials fetch op input = Returned (toCamelCase entity).
Proof.
  intros Hf Hok Hs Hj Hkeys Hwf Hentity. unfold writeOperation.
  rewrite (request_data _ _ _ _ _ _ Hf Hok Hs Hj). cbn [bind].
  apply camel_field; try assumption. apply write_key_internal.
Qed.

Lemma write_operation_wire_field_witness :
  writeOperation shop
    (respond (json_response 201
                (VObj [("custom_collection", VObj [("body_html", VStr "Sale")])])))
    createCustomCollection sample_collection
  = Returned (toCamelCase (VObj [("body_html", VStr "Sale")])).
Proof.
  apply (write_operation_wire_field shop _ createCustomCollection sample_collection
           (json_response 201
              (VObj [("custom_collection", VObj [("body_html", VStr "Sale")])]))
           [("custom_collection", VObj [("body_html", VStr "Sale")])]);
    try reflexivity.
  intros H. discriminate H.
Defined.

(** X27.  A list operation returns its envelope from every successful
    response whose body, in wire casing, holds an array under the wire
    name of the field: the items are the camel-cased elements in order,
    the count their number, and [hasMore] the comparison of that number
    with the effective limit. *)
Theorem list_operation_returns (credentials : TenantCredentials)
    (fetch : FetchRequest -> option Response)
    (op : ListOperation) (params : option props) (endpoint : string)
    (response : Response) (ps : props) (elements : list value) :
  list_endpoint op params = Returned endpoint ->
  fetch (fetchCall credentials endpoint no_options) = Some response ->
  ok response = true -> status response <> 204%Z ->
  json response = Some (VObj ps) ->
  forallb no_upper (map fst ps) = true ->
  well_formed_keys (map fst ps) = true ->
  lookup (camelToSnake (list_field op)) ps = Some (VArr elements) ->
  listOperation credentials fetch op params
  = Returned (VObj [("items", VArr (map toCamelCase elements));
                    ("count", VNum (Num (Z.of_nat (List.length elements))));
                    ("hasMore",
                     VBool (strict_eq (VNum (Num (Z.of_nat (List.length elements))))
                              (limitOrDefault params)))]).
Proof.
  intros He Hf Hok Hs Hj Hkeys Hwf Hentity. unfold listOperation.
  rewrite He. cbn [bind].
  rewrite (request_data _ _ _ _ _ _ Hf Hok Hs Hj). cbn [bind].
  rewrite (camel_field ps (list_field op) (VArr elements))
    by (try assumption; apply list_field_internal).
  cbn [bind]. unfold toCamelCase at 1. rewrite transformKeys_array.
  unfold read, get. cbn [String.eqb Ascii.eqb Bool.eqb bind].
  rewrite length_map. reflexivity.
Qed.

Lemma list_operation_returns_witness :
  listOperation shop
    (respond (json_response 200
                (VObj [("custom_collections", VArr [VObj [("body_html", VStr "Sale")]])])))
    listCustomCollections (Some [("limit", VNum (Num 1))])
  = Returned (VObj [("items", VArr [VObj [("bodyHtml", VStr "Sale")]]);
                    ("count", VNum (Num 1));
                    ("hasMore", VBool true)]).
Proof.
  apply (list_operation_returns shop _ listCustomCollections
           (Some [("limit", VNum (Num 1))]) "/custom_collections.json?limit=1"
           (json_response 200
              (VObj [("custom_collections", VArr [VObj [("body_html", VStr "Sale")]])]))
           [("custom_collections", VArr [VObj [("body_html", VStr "Sale")]])]
           [VObj [("body_html", VStr "Sale")]]);
    try reflexivity.
  intros H. discriminate H.
Defined.

End OperationLaws.

(** ** Laws of the query builder *)

Module QueryLaws.
Import Js CaseConverter Client Operations Text Samples TransformFacts QueryFacts.

Lemma append_empty (s : string) : s ++ "" = s.
Proof. induction s as [ | c rest IH ]; [ reflexivity | cbn; now rewrite IH ]. Qed.

(** Options that are all [undefined] or [null] set no parameter. *)
Lemma queryParams_unset (params : props) :
  Forall (fun entry => nullish (snd entry) = true) params ->
  queryParams params = [].
Proof.
  intros Hunset. destruct (queryParams params) as [ | [name text] rest ] eqn:Hq;
    [ reflexivity | ].
  assert (In (name, text) (queryParams params)) as Hin by (rewrite Hq; now left).
  apply queryParams_sound in Hin. destruct Hin as [key [value [Hin [_ [Hset _]]]]].
  rewrite Forall_forall in Hunset. specialize (Hunset _ Hin). cbn [snd] in Hunset.
  congruence.
Qed.

(** X14.  When every option is [undefined] or [null] (or there is none),
    the query is empty and the endpoints that take optional parameters
    carry no question mark; [searchCustomers] and [listInventoryLevels]
    append the question mark all the same. *)
Theorem unset_options_no_query (params : props) :
  Forall (fun entry => nullish (snd entry) = true) params ->
  buildQueryParams params = ""
  /\ optionalQuery (Some params) = ""
  /\ (forall op, op <> searchCustomers ->
                 list_endpoint op (Some params) = Returned (list_path op))
  /\ list_endpoint searchCustomers (Some params) = Returned "/customers/search.json?"
  /\ read_endpoint (listInventoryLevels params) = "/inventory_levels.json?".
Proof.
  intros Hunset.
  assert (buildQueryParams params = "") as Hq
      by (unfold buildQueryParams; now rewrite queryParams_unset).
  split; [ exact Hq | ].
  split; [ unfold optionalQuery; now rewrite Hq | ].
  split; [ | split ].
  - intros op Hop.
    destruct op; try congruence; cbn [list_endpoint]; rewrite Hq;
      cbn [String.eqb negb]; now rewrite append_empty.
  - cbn [list_endpoint list_path]. now rewrite Hq.
  - cbn [read_endpoint]. now rewrite Hq.
Qed.

Lemma unset_options_no_query_witness :
  list_endpoint listOrders (Some [("status", VUndefined); ("sinceId", VNull)])
  = Returned "/orders.json".
Proof.
  assert (Forall (fun entry : string * value => nullish (snd entry) = true)
            [("status", VUndefined); ("sinceId", VNull)]) as Hunset
      by (repeat constructor).
  apply (proj1 (proj2 (proj2 (unset_options_no_query _ Hunset))) listOrders).
  discriminate.
Defined.

(** The names of the pairs after [URLSearchParams.set]. *)
Lemma names_params_set (name val : string) (qs : list (string * string)) (n : string) :
  In n (map fst (params_set name val qs)) -> n = name \/ In n (map fst qs).
Proof.
  intros Hin. apply in_map_iff in Hin. destruct Hin as [[n' t] [<- Hin]].
  apply In_params_set in Hin. destruct Hin as [Heq | Hin].
  - injection Heq as -> _. now left.
  - right. apply in_map_iff. exists (n', t). now split.
Qed.

Lemma NoDup_names_filter (keep : string * string -> bool) (qs : list (string * string)) :
  NoDup (map fst qs) -> NoDup (map fst (filter keep qs)).
Proof.
  induction qs as [ | [n v] rest IH ]; intros Hd; [ constructor | ].
  cbn [map fst] in Hd. inversion Hd as [ | ? ? Hn Hrest ]; subst.
  cbn [filter]. destruct (keep (n, v)); [ | now apply IH ].
  cbn [map fst]. constructor; [ | now apply IH ].
  intros Hin. apply Hn. apply in_map_iff in Hin.
  destruct Hin as [[n' t] [<- Hin]]. apply filter_In in Hin.
  apply in_map_iff. exists (n', t). now split.
Qed.

Lemma NoDup_params_set (name val : string) (qs : list (string * string)) :
  NoDup (map fst qs) -> NoDup (map fst (params_set name val qs)).
Proof.
  induction qs as [ | [n v] rest IH ]; intros Hd.
  - cbn. constructor; [ intros [] | constructor ].
  - cbn [map fst] in Hd. inversion Hd as [ | ? ? Hn Hrest ]; subst.
    cbn [params_set]. destruct (String.eqb n name) eqn:Heq.
    + cbn [map fst]. constructor; [ | now apply NoDup_names_filter ].
      intros Hin. apply in_map_iff in Hin. destruct Hin as [[n' t] [Hn' Hin]].
      apply filter_In in Hin. apply Hn. apply in_map_iff.
      exists (n', t). now split.
    + cbn [map fst]. constructor; [ | now apply IH ].
      intros Hin. apply names_params_set in Hin. destruct Hin as [-> | Hin].
      * now rewrite String.eqb_refl in Heq.
      * contradiction.
Qed.

Lemma NoDup_fold_setParam (entries : props) (qs : list (string * string)) :
  NoDup (map fst qs) -> NoDup (map fst (fold_left setParam entries qs)).
Proof.
  revert qs. induction entries as [ | [key value] rest IH ]; intros qs Hd;
    [ exact Hd | ].
  cbn [fold_left]. apply IH. unfold setParam.
  destruct (negb (nullish value)); [ now apply NoDup_params_set | exact Hd ].
Qed.

(** X15.  Whatever the options, the parameters of the query have pairwise
    different names, and no name holds an upper-case letter. *)
Theorem query_names_unique_wire (params : props) :
  NoDup (map fst (queryParams params))
  /\ Forall (fun pair => no_upper (fst pair) = true) (queryParams params).
Proof.
  split.
  - unfold queryParams. apply NoDup_fold_setParam. constructor.
  - apply Forall_forall. intros [name text] Hin.
    apply queryParams_sound in Hin. destruct Hin as [key [value [_ [-> _]]]].
    apply camelToSnake_no_upper.
Qed.

End QueryLaws.

(** ** Laws of the encoders *)

Module EncodingLaws.
Import Js CaseConverter Client Operations Text Samples FormatterFacts.

Lemma count_char_app (c : ascii) (a b : string) :
  count_char c (a ++ b) = (count_char c a + count_char c b)%nat.
Proof.
  induction a as [ | d rest IH ]; [ reflexivity | ].
  cbn [append count_char]. rewrite IH. apply Nat.add_assoc.
Qed.

Lemma all_chars_app (p : ascii -> bool) (a b : string) :
  all_chars p (a ++ b) = (all_chars p a && all_chars p b)%bool.
Proof.
  induction a as [ | d rest IH ]; [ reflexivity | ].
  cbn [append all_chars]. rewrite IH. apply andb_assoc.
Qed.

(** A character outside a class does not occur in a text of that class. *)
Lemma count_char_outside (p : ascii -> bool) (c : ascii) (s : string) :
  all_chars p s = true -> p c = false -> count_char c s = 0%nat.
Proof.
  intros Hs Hc. induction s as [ | d rest IH ]; [ reflexivity | ].
  cbn [all_chars] in Hs. apply andb_prop in Hs. destruct Hs as [Hd Hrest].
  cbn [count_char]. rewrite (IH Hrest).
  destruct (Ascii.eqb c d) eqn:Heq; [ | reflexivity ].
  apply Ascii.eqb_eq in Heq. congruence.
Qed.

Lemma form_encode_byte_chars (c : ascii) :
  all_chars form_char (form_encode_byte c) = true.
Proof. destruct c as [[] [] [] [] [] [] [] []]; vm_compute; reflexivity. Qed.

Lemma form_encode_chars (s : string) : all_chars form_char (form_encode s) = true.
Proof.
  induction s as [ | c rest IH ]; [ reflexivity | ].
  cbn [form_encode]. now rewrite all_chars_app, form_encode_byte_chars, IH.
Qed.

Lemma count_form_encode (c : ascii) (s : string) :
  form_char c = false -> count_char c (form_encode s) = 0%nat.
Proof. intros Hc. exact (count_char_outside _ _ _ (form_encode_chars s) Hc). Qed.

(** The occurrences in a query of a character that the encoder does not
    write: those of the signs between names, values and pairs. *)
Lemma count_params_toString (c : ascii) (qs : list (string * string)) :
  form_char c = false ->
  count_char c (params_toString qs)
  = (List.length qs * count_char c "=" + pred (List.length qs) * count_char c "&")%nat.
Proof.
  intros Hc. unfold params_toString.
  induction qs as [ | [name text] rest IH ]; [ reflexivity | ].
  destruct rest as [ | next rest ].
  - cbn [map Str.join fst snd List.length pred].
    rewrite !count_char_app, !count_form_encode by exact Hc. lia.
  - cbn [map] in *. rewrite join_cons by discriminate.
    rewrite !count_char_app, IH. cbn [fst snd].
    rewrite !count_form_encode by exact Hc.
    cbn [List.length pred]. lia.
Qed.

(** X16.  The query string holds one equals sign for each parameter and
    one ampersand between two parameters, whatever the names and values;
    no other character outside letters, digits and [* - . _ + %] occurs in
    it. *)
Theorem query_string_shape (params : props) :
  count_char "=" (buildQueryParams params) = List.length (queryParams params)
  /\ count_char "&" (buildQueryParams params) = pred (List.length (queryParams params))
  /\ (forall c, form_char c = false -> c <> "="%char -> c <> "&"%char ->
                count_char c (buildQueryParams params) = 0%nat).
Proof.
  unfold buildQueryParams. split; [ | split ].
  - rewrite count_params_toString by reflexivity.
    change (count_char "=" "=") with 1%nat. change (count_char "=" "&") with 0%nat. lia.
  - rewrite count_params_toString by reflexivity.
    change (count_char "&" "=") with 0%nat. change (count_char "&" "&") with 1%nat. lia.
  - intros c Hc Heq Hamp. rewrite count_params_toString by exact Hc.
    cbn [count_char].
    replace (Ascii.eqb c "=") with false by (symmetry; now apply Ascii.eqb_neq).
    replace (Ascii.eqb c "&") with false by (symmetry; now apply Ascii.eqb_neq).
    lia.
Qed.

Lemma uri_encode_byte_chars (c : ascii) :
  all_chars uri_char (uri_encode_byte c) = true.
Proof. destruct c as [[] [] [] [] [] [] [] []]; vm_compute; reflexivity. Qed.

Lemma encodeURIComponent_chars (s : string) :
  all_chars uri_char (encodeURIComponent s) = true.
Proof.
  induction s as [ | c rest IH ]; [ reflexivity | ].
  cbn [encodeURIComponent]. now rewrite all_chars_app, uri_encode_byte_chars, IH.
Qed.

Lemma hex_upper_injective (n m : nat) :
  (n < 16)%nat -> (m < 16)%nat -> Str.hex_upper n = Str.hex_upper m -> n = m.
Proof.
  intros Hn Hm.
  do 16 (destruct n as [ | n ];
         [ do 16 (destruct m as [ | m ];
                  [ intros H; vm_compute in H; first [ reflexivity | discriminate H ] | ]);
           lia | ]).
  lia.
Qed.

Lemma code_bounded (c : ascii) : (Str.code c < 256)%nat.
Proof. apply nat_ascii_bounded. Qed.

(** A byte is decided by the two hexadecimal digits written for it. *)
Lemma hex_pair_injective (c d : ascii) :
  Str.hex_upper (Nat.div (Str.code c) 16) = Str.hex_upper (Nat.div (Str.code d) 16) ->
  Str.hex_upper (Nat.modulo (Str.code c) 16) = Str.hex_upper (Nat.modulo (Str.code d) 16) ->
  c = d.
Proof.
  intros Hhi Hlo.
  pose proof (code_bounded c) as Hc. pose proof (code_bounded d) as Hd.
  apply hex_upper_injective in Hhi;
    [ | apply Nat.Div0.div_lt_upper_bound; lia .. ].
  apply hex_upper_injective in Hlo; [ | apply Nat.mod_upper_bound; lia .. ].
  assert (Str.code c = Str.code d) as Hcode.
  { rewrite (Nat.div_mod_eq (Str.code c) 16), (Nat.div_mod_eq (Str.code d) 16).
    now rewrite Hhi, Hlo. }
  unfold Str.code in Hcode.
  rewrite <- (ascii_nat_embedding c), <- (ascii_nat_embedding d). now rewrite Hcode.
Qed.

Lemma percent_reserved : uri_unreserved "%" = false.
Proof. reflexivity. Qed.

Lemma uri_encode_byte_prefix (c d : ascii) (s t : string) :
  uri_encode_byte c ++ s = uri_encode_byte d ++ t -> c = d /\ s = t.
Proof.
  unfold uri_encode_byte.
  destruct (uri_unreserved c) eqn:Hc; destruct (uri_unreserved d) eqn:Hd;
    cbn [Str.of_char append]; intros H.
  - injection H as -> ->. now split.
  - injection H as -> _. rewrite percent_reserved in Hc. discriminate Hc.
  - injection H as <- _. rewrite percent_reserved in Hd. discriminate Hd.
  - injection H as Hhi Hlo ->. split; [ | reflexivity ].
    now apply hex_pair_injective.
Qed.

Lemma uri_encode_byte_not_empty (c : ascii) (s : string) : uri_encode_byte c ++ s <> "".
Proof.
  unfold uri_encode_byte. destruct (uri_unreserved c); discriminate.
Qed.

Lemma encodeURIComponent_injective (a b : string) :
  encodeURIComponent a = encodeURIComponent b -> a = b.
Proof.
  revert b. induction a as [ | c rest IH ]; intros [ | d rest' ]; cbn [encodeURIComponent].
  - reflexivity.
  - intros H. symmetry in H. now apply uri_encode_byte_not_empty in H.
  - intros H. now apply uri_encode_byte_not_empty in H.
  - intros H. apply uri_encode_byte_prefix in H. destruct H as [-> H].
    f_equal. now apply IH.
Qed.

Lemma append_cancel (prefix a b : string) : prefix ++ a = prefix ++ b -> a = b.
Proof.
  induction prefix as [ | c rest IH ]; [ trivial | ].
  cbn [append]. intros H. injection H as H. now apply IH.
Qed.

(** X17.  [encodeURIComponent] writes the key of an asset with letters,
    digits, [- _ . ! ~ * ' ( )] and [%] only, so that none of the
    delimiters [& = ? # / + space] of the key reaches the endpoint; and two
    different keys of one theme give two different endpoints. *)
Theorem asset_key_escaped (themeId : Z) (key : string) :
  all_chars uri_char (encodeURIComponent key) = true
  /\ Forall (fun d => count_char d (encodeURIComponent key) = 0%nat) delimiters
  /\ (forall key', key <> key' ->
                   read_endpoint (getAsset themeId key)
                   <> read_endpoint (getAsset themeId key')
                   /\ delete_endpoint (deleteAsset themeId key)
                      <> delete_endpoint (deleteAsset themeId key')).
Proof.
  split; [ apply encodeURIComponent_chars | split ].
  - unfold delimiters.
    repeat (constructor;
            [ apply (count_char_outside uri_char);
              [ apply encodeURIComponent_chars | reflexivity ] | ]).
    constructor.
  - intros key' Hne. split; intros H; apply Hne;
      cbn [read_endpoint delete_endpoint] in H;
      apply append_cancel, append_cancel, append_cancel in H;
      now apply encodeURIComponent_injective.
Qed.

Lemma asset_key_escaped_witness :
  read_endpoint (getAsset 1 "templates/index.liquid")
  <> read_endpoint (getAsset 1 "templates/index liquid").
Proof.
  apply (proj2 (proj2 (asset_key_escaped 1 "templates/index.liquid"))
           "templates/index liquid").
  intros H. apply String.eqb_eq in H. vm_compute in H. discriminate H.
Defined.

Lemma query_string_shape_witness :
  count_char "?" (buildQueryParams sample_query) = 0%nat.
Proof.
  apply (proj2 (proj2 (query_string_shape sample_query)) "?"%char).
  - reflexivity.
  - intros H. apply Ascii.eqb_eq in H. discriminate H.
  - intros H. apply Ascii.eqb_eq in H. discriminate H.
Defined.

End EncodingLaws.

(** ** Laws of the pagination utilities *)

Module PaginationLaws.
Import Js Client Formatters Pagination Samples OperationFacts FormatterFacts.

(** X18.  The test of the list operations and [hasMoreItems] agree as
    long as no more items are returned than were asked for: for a supplied
    limit other than 0, [hasMore] of a list operation is [hasMoreItems]
    restricted to counts not above the limit. *)
Theorem hasMore_against_hasMoreItems (params : option props) (count limit : Z) :
  suppliedLimit params = VNum (Num limit) ->
  limit <> 0%Z ->
  strict_eq (VNum (Num count)) (limitOrDefault params)
  = (hasMoreItems (Num count) (Num limit) && Z.leb count limit)%bool.
Proof.
  intros Hl Hne. unfold limitOrDefault, or_else. rewrite Hl. cbn [truthy].
  replace (Z.eqb limit 0) with false by (symmetry; now apply Z.eqb_neq).
  cbn [negb strict_eq number_eqb hasMoreItems].
  destruct (Z.eqb_spec count limit) as [-> | Hc].
  - now rewrite Z.leb_refl.
  - destruct (Z.leb_spec limit count), (Z.leb_spec count limit); try reflexivity. lia.
Qed.

Lemma hasMore_against_hasMoreItems_witness :
  strict_eq (VNum (Num 3)) (limitOrDefault (Some [("limit", VNum (Num 2))])) = false
  /\ hasMoreItems (Num 3) (Num 2) = true.
Proof.
  split; [ | reflexivity ].
  rewrite (hasMore_against_hasMoreItems (Some [("limit", VNum (Num 2))]) 3 2 eq_refl).
  - reflexivity.
  - discriminate.
Defined.

(** X19.  The limit [normalizePaginationParams] returns is never above
    the bound (250 when none is given): it is the smaller of the bound and
    the supplied limit, and the smaller of the bound and 50 when the limit
    is absent or 0.  A negative limit is returned as it is. *)
Theorem normalized_limit_bounded (params : option props) (maxLimit : option Z) :
  optional params "limit" = VUndefined
  \/ (exists l, optional params "limit" = VNum (Num l)) ->
  let bound := match maxLimit with
               | Some m => m
               | None => 250%Z
               end in
  exists n,
    normalizePaginationParams params (option_map Num maxLimit)
    = Some (VObj [("limit", VNum (Num n));
                  ("sinceId", optional params "sinceId");
                  ("fields", optional params "fields")])
    /\ (n <= bound)%Z
    /\ (forall l, optional params "limit" = VNum (Num l) -> l <> 0%Z ->
                  n = Z.min l bound)
    /\ (truthy (optional params "limit") = false -> n = Z.min 50 bound).
Proof.
  intros Hlimit bound. unfold normalizePaginationParams.
  replace (match option_map Num maxLimit with
           | Some m => m
           | None => Num (Pagination.maxLimit PAGINATION_DEFAULTS)
           end) with (Num bound) by (destruct maxLimit; reflexivity).
  destruct Hlimit as [Hl | [l Hl]]; rewrite Hl.
  - exists (Z.min 50 bound). cbn.
    split; [ reflexivity | split; [ lia | split; [ discriminate | reflexivity ] ] ].
  - unfold or_else. cbn [truthy]. destruct (Z.eqb_spec l 0) as [-> | Hne]; cbn.
    + exists (Z.min 50 bound).
      split; [ reflexivity | split; [ lia | split; [ | reflexivity ] ] ].
      intros l' H. injection H as <-. congruence.
    + exists (Z.min l bound).
      split; [ reflexivity | split; [ lia | split; [ | discriminate ] ] ].
      intros l' H. now injection H as <-.
Qed.

Lemma normalized_limit_bounded_witness :
  exists n,
    normalizePaginationParams (Some [("limit", VNum (Num 1000))]) None
    = Some (VObj [("limit", VNum (Num n));
                  ("sinceId", VUndefined);
                  ("fields", VUndefined)])
    /\ (n <= 250)%Z.
Proof.
  destruct (normalized_limit_bounded (Some [("limit", VNum (Num 1000))]) None
              (or_intror (ex_intro _ 1000%Z eq_refl)))
    as [n [Hn [Hle _]]].
  exists n. split; [ exact Hn | exact Hle ].
Defined.

(** X20.  The fields [total] and [nextCursor] that
    [createPaginatedResponse] adds are [undefined] when no option is given,
    and change no rendering: the response is another object than the
    three-field envelope of the list operations, and [formatResponse]
    renders the two alike, in JSON and in Markdown, for every list of items
    and entity type. *)
Theorem created_response_rendered_as_envelope (items : list value)
    (format : ResponseFormat) (entityType : string) :
  createPaginatedResponse items None
  <> VObj [("items", VArr items);
           ("count", VNum (Num (Z.of_nat (List.length items))));
           ("hasMore", VBool false)]
  /\ formatResponse (createPaginatedResponse items None) format entityType
     = formatResponse
         (VObj [("items", VArr items);
                ("count", VNum (Num (Z.of_nat (List.length items))));
                ("hasMore", VBool false)])
         format entityType.
Proof.
  split; [ discriminate | ].
  destruct format; reflexivity.
Qed.

End PaginationLaws.

(** ** Laws of the renderers *)

Module FormatterLaws.
Import Js Client Formatters Pagination Text Samples OperationFacts FormatterFacts.

(** X21.  A list operation that returns no item returns exactly the
    empty paginated response, whatever limit was asked for, and its
    Markdown text is the heading, the count 0 and the line
    [_No items found._] for every entity type. *)
Theorem empty_list_envelope (credentials : TenantCredentials)
    (fetch : FetchRequest -> option Response)
    (op : ListOperation) (params : option props) (envelope : value) :
  listOperation credentials fetch op params = Returned envelope ->
  get envelope "items" = Some (VArr []) ->
  envelope = emptyPaginatedResponse
  /\ forall entityType,
       formatResponse envelope markdown_format entityType
       = Some {| content :=
                   [VStr (Str.join (Str.of_char Str.newline)
                            ["## " ++ capitalize entityType;
                             "";
                             "**Showing:** 0";
                             "";
                             "_No items found._"])];
                 isError := None |}.
Proof.
  intros Hreturned Hitems.
  apply listOperation_returned in Hreturned.
  destruct Hreturned as [items [count [Hcount ->]]].
  cbn in Hitems. injection Hitems as ->.
  cbn in Hcount. injection Hcount as <-.
  assert (strict_eq (VNum (Num (Z.of_nat 0))) (limitOrDefault params) = false) as Hmore.
  { destruct (strict_eq (VNum (Num (Z.of_nat 0))) (limitOrDefault params)) eqn:H;
      [ | reflexivity ].
    apply hasMore_items in H. discriminate H. }
  change (Z.of_nat 0) with 0%Z in Hmore.
  change (Z.of_nat (List.length (@nil value))) with 0%Z. rewrite Hmore.
  split; reflexivity.
Qed.

Lemma empty_list_envelope_witness :
  listOperation shop (respond (json_response 200 (VObj [("orders", VArr [])])))
    listOrders (Some [("limit", VNum (Num 250))])
  = Returned emptyPaginatedResponse
  /\ formatResponse emptyPaginatedResponse markdown_format "orders"
     = Some {| content :=
                 [VStr (Str.join (Str.of_char Str.newline)
                          ["## Orders"; ""; "**Showing:** 0"; ""; "_No items found._"])];
               isError := None |}.
Proof.
  split; [ reflexivity | ].
  apply (proj2 (empty_list_envelope shop
                  (respond (json_response 200 (VObj [("orders", VArr [])])))
                  listOrders (Some [("limit", VNum (Num 250))])
                  emptyPaginatedResponse eq_refl eq_refl) "orders").
Defined.

(** The loop of a table pushes one row for each item, in turn. *)
Lemma fold_pushRow_rows (row : value -> option string) (line : value -> string)
    (items : list value) (lines : list string) :
  (forall item, In item items -> row item = Some (line item)) ->
  fold_left (pushRow row) items (Some lines)
  = Some (lines ++ map line items)%list.
Proof.
  revert lines. induction items as [ | item rest IH ]; intros lines Hrow.
  - cbn. now rewrite app_nil_r.
  - cbn [fold_left pushRow map]. rewrite (Hrow item) by now left.
    rewrite IH by (intros x Hx; apply Hrow; now right).
    unfold push. now rewrite <- app_assoc.
Qed.

(** One item that cannot be read stops the table. *)
Lemma fold_pushRow_throws (row : value -> option string) (items : list value)
    (lines : option (list string)) :
  (exists item, In item items /\ row item = None) ->
  fold_left (pushRow row) items lines = None.
Proof.
  revert lines. induction items as [ | item rest IH ]; intros lines [bad [Hin Hbad]].
  - destruct Hin.
  - cbn [fold_left]. destruct Hin as [-> | Hin].
    + assert (pushRow row lines bad = None) as ->
          by (unfold pushRow; destruct lines; now rewrite ?Hbad).
      clear. induction rest as [ | x rest IH ]; [ reflexivity | exact IH ].
    + apply IH. now exists bad.
Qed.

Lemma record_not_nullish (item : value) :
  (typeof_object item && negb (nullish item))%bool = true -> nullish item = false.
Proof. intros H. apply andb_prop in H. now apply negb_true_iff. Qed.

Lemma record_object (item : value) :
  Domain.record item = true -> (typeof_object item && negb (nullish item))%bool = true.
Proof. destruct item; intros H; try discriminate H; reflexivity. Qed.

(** X22.  For items that are records (objects whose values are strings,
    booleans, safe integers, [null], arrays of such, or objects without a
    property named like a member of [Object.prototype]), the generic table
    takes its columns from the first item alone, at most five of them,
    and, when none of these columns is named like a member of
    [Object.prototype], writes one row for each item in turn, with a dash
    where an item has no value for a column. *)
Theorem generic_table_rows (first : value) (rest : list value) :
  Forall (fun item => Domain.record item = true) (first :: rest) ->
  existsb Domain.inherited (firstn 5 (keysOf first)) = false ->
  let keys := firstn 5 (keysOf first) in
  formatGenericTable (first :: rest)
  = Some (Str.join (Str.of_char Str.newline)
            (("| " ++ Str.join " | " keys ++ " |")
               :: ("|" ++ Str.join "|" (map (fun _ => "---") keys) ++ "|")
               :: map (fun item =>
                         "| " ++ Str.join " | "
                                   (map (fun k =>
                                           to_string (nullish_else (prop item k)
                                                        (VStr "-"))) keys)
                         ++ " |") (first :: rest)))
  /\ (List.length keys <= 5)%nat.
Proof.
  intros Hrecords _ keys. split; [ | apply firstn_le_length ].
  assert (Forall (fun item => (typeof_object item && negb (nullish item))%bool = true)
            (first :: rest)) as Hitems
      by (apply (Forall_impl _ record_object), Hrecords).
  pose proof (record_not_nullish _ (Forall_inv Hitems)) as Hfirst.
  rewrite Forall_forall in Hitems.
  unfold formatGenericTable. rewrite Hfirst. fold keys. unfold tableOf.
  rewrite (fold_pushRow_rows _
             (fun item =>
                "| " ++ Str.join " | "
                          (map (fun k =>
                                  to_string (nullish_else (prop item k) (VStr "-")))
                             keys)
                ++ " |")).
  - reflexivity.
  - intros item Hin. unfold genericRow. destruct keys as [ | k keys' ];
      [ reflexivity | ].
    now rewrite rowOf_returns by now apply record_not_nullish, Hitems.
Qed.

Lemma generic_table_rows_witness :
  formatGenericTable [VObj [("id", VNum (Num 1)); ("title", VStr "A")];
                      VObj [("id", VNum (Num 2))]]
  = Some (Str.join (Str.of_char Str.newline)
            ["| id | title |"; "|---|---|"; "| 1 | A |"; "| 2 | - |"]).
Proof.
  assert (Forall (fun item => Domain.record item = true)
            [VObj [("id", VNum (Num 1)); ("title", VStr "A")];
             VObj [("id", VNum (Num 2))]]) as Hitems
      by (repeat constructor).
  exact (proj1 (generic_table_rows _ _ Hitems eq_refl)).
Defined.

(** X23.  An item that is [null] or [undefined] makes each of the typed
    tables throw, and with it the Markdown rendering of the list. *)
Theorem null_item_stops_table (entityType : string) (items : list value)
    (item count hasMore : value) :
  In item items -> nullish item = true ->
  In entityType ["products"; "orders"; "customers"; "draftOrders";
                 "fulfillments"; "locations"; "webhooks"; "priceRules"] ->
  formatItemsTable entityType items = None
  /\ formatResponse (VObj [("items", VArr items); ("count", count);
                           ("hasMore", hasMore)])
       markdown_format entityType = None.
Proof.
  intros Hin Hnull Htype.
  assert (formatItemsTable entityType items = None) as Htable.
  { assert (forall head line,
               tableOf head (fun x => rowOf x (line x)) items = None) as Hthrows.
    { intros head line. unfold tableOf. rewrite fold_pushRow_throws; [ reflexivity | ].
      exists item. split; [ exact Hin | ]. unfold rowOf. now rewrite Hnull. }
    cbn [In] in Htype.
    repeat (destruct Htype as [<- | Htype]; [ apply Hthrows | ]).
    destruct Htype. }
  split; [ exact Htable | ].
  destruct items as [ | x rest ]; [ destruct Hin | ].
  unfold formatResponse, formatAsMarkdown.
  change (isPaginatedResponse
            (VObj [("items", VArr (x :: rest)); ("count", count); ("hasMore", hasMore)]))
    with true.
  cbv beta iota. unfold formatPaginatedAsMarkdown.
  change (get (VObj [("items", VArr (x :: rest)); ("count", count); ("hasMore", hasMore)])
            "items") with (Some (VArr (x :: rest))).
  change (get (VObj [("items", VArr (x :: rest)); ("count", count); ("hasMore", hasMore)])
            "total") with (Some VUndefined).
  change (get (VObj [("items", VArr (x :: rest)); ("count", count); ("hasMore", hasMore)])
            "count") with (Some count).
  change (get (VObj [("items", VArr (x :: rest)); ("count", count); ("hasMore", hasMore)])
            "hasMore") with (Some hasMore).
  change (get (VObj [("items", VArr (x :: rest)); ("count", count); ("hasMore", hasMore)])
            "nextCursor") with (Some VUndefined).
  cbv beta iota. cbn [List.length Nat.eqb]. now rewrite Htable.
Qed.

Lemma null_item_stops_table_witness :
  formatItemsTable "products" [VObj [("id", VNum (Num 1))]; VNull] = None.
Proof.
  apply (proj1 (null_item_stops_table "products"
                  [VObj [("id", VNum (Num 1))]; VNull] VNull
                  (VNum (Num 2)) (VBool false)
                  (or_intror (or_introl eq_refl)) eq_refl (or_introl eq_refl))).
Defined.



End FormatterLaws.

(** ** Laws of the labels and headings *)

Module LabelLaws.
Import Js Formatters Text Samples CaseConverterFacts FormatterFacts.

Lemma without_spaces_trim_start (s : string) :
  without_spaces (Str.trim_start s) = without_spaces s.
Proof.
  induction s as [ | c rest IH ]; [ reflexivity | ].
  cbn [Str.trim_start without_spaces]. destruct (Str.is_space c) eqn:Hc.
  - exact IH.
  - cbn [without_spaces]. now rewrite Hc.
Qed.

Lemma without_spaces_trim_end (s : string) :
  without_spaces (Str.trim_end s) = without_spaces s.
Proof.
  induction s as [ | c rest IH ]; [ reflexivity | ].
  cbn [Str.trim_end]. destruct (Str.trim_end rest) as [ | d kept ] eqn:Hkept.
  - cbn [without_spaces] in *. rewrite <- IH.
    destruct (Str.is_space c) eqn:Hc; [ reflexivity | ].
    cbn [Str.of_char without_spaces]. now rewrite Hc.
  - cbn [without_spaces] in *. now rewrite <- IH.
Qed.

Lemma without_spaces_trim (s : string) :
  without_spaces (Str.trim s) = without_spaces s.
Proof.
  unfold Str.trim. now rewrite without_spaces_trim_end, without_spaces_trim_start.
Qed.

Lemma is_space_to_upper (c : ascii) : Str.is_space (Str.to_upper c) = Str.is_space c.
Proof. destruct c as [[] [] [] [] [] [] [] []]; reflexivity. Qed.

Lemma without_spaces_space_capitals (key : string) :
  all_chars (fun c => negb (Str.is_space c)) key = true ->
  without_spaces (space_capitals key) = key.
Proof.
  induction key as [ | c rest IH ]; [ reflexivity | ].
  cbn [all_chars]. intros H. apply andb_prop in H. destruct H as [Hc Hrest].
  apply negb_true_iff in Hc. cbn [space_capitals].
  destruct (Str.is_upper c); cbn [without_spaces];
    change (Str.is_space " ") with true; cbv iota; cbn [without_spaces];
    now rewrite Hc, IH.
Qed.

Lemma all_chars_weaken (p q : ascii -> bool) (s : string) :
  (forall c, p c = true -> q c = true) ->
  all_chars p s = true -> all_chars q s = true.
Proof.
  intros Hpq. induction s as [ | c rest IH ]; [ reflexivity | ].
  cbn [all_chars]. intros H. apply andb_prop in H. destruct H as [Hc Hrest].
  now rewrite (Hpq c Hc), IH.
Qed.

(** X24.  The label of a key of ASCII characters without white space is
    the key with its first letter in upper case and spaces put in: read
    without its spaces, [formatKey key] is [capitalize key]. *)
Theorem label_spells_key (key : string) :
  all_chars (fun c => (negb (Str.is_space c) && Nat.ltb (Str.code c) 128)%bool) key
  = true ->
  without_spaces (formatKey key) = capitalize key.
Proof.
  intros Hascii.
  assert (all_chars (fun c => negb (Str.is_space c)) key = true) as Hkey.
  { revert Hascii. apply all_chars_weaken. intros c Hc. now apply andb_prop in Hc. }
  clear Hascii.
  unfold formatKey. rewrite without_spaces_trim.
  destruct key as [ | c rest ]; [ reflexivity | ].
  cbn [all_chars] in Hkey. apply andb_prop in Hkey. destruct Hkey as [Hc Hrest].
  apply negb_true_iff in Hc. cbn [space_capitals].
  destruct (Str.is_upper c) eqn:Hup; cbn [capitalize].
  - change (Str.to_upper " ") with " "%char. cbn [without_spaces].
    change (Str.is_space " ") with true. cbv iota.
    rewrite Hc, without_spaces_space_capitals by exact Hrest.
    unfold Str.to_upper. now rewrite (upper_not_lower c Hup).
  - cbn [without_spaces]. rewrite is_space_to_upper, Hc.
    now rewrite without_spaces_space_capitals.
Qed.

Lemma label_spells_key_witness :
  formatKey "lineItems" = "Line Items"
  /\ without_spaces (formatKey "lineItems") = capitalize "lineItems".
Proof.
  split; [ reflexivity | ].
  apply (label_spells_key "lineItems"). reflexivity.
Defined.

Lemma drop_final_s_plural (name : string) : drop_final_s (name ++ "s") = name.
Proof.
  induction name as [ | c rest IH ]; [ reflexivity | ].
  destruct rest as [ | d r ]; [ reflexivity | ].
  change (drop_final_s (String c (String d r) ++ "s"))
    with (String c (drop_final_s (String d r ++ "s"))).
  now rewrite IH.
Qed.

Lemma append_associative (a b c : string) : (a ++ b) ++ c = a ++ (b ++ c).
Proof.
  induction a as [ | x rest IH ]; [ reflexivity | ].
  cbn [append]. now rewrite IH.
Qed.

(** X25.  The heading of a single entity drops the plural ending of the
    entity type: for a type [name ++ "s"] the text opens with the line
    [## ] followed by [name], its first letter in upper case. *)
Theorem plural_heading (fields : props) (name : string) :
  drop_final_s (name ++ "s") = name
  /\ Str.starts_with ("## " ++ capitalize name ++ Str.of_char Str.newline)
       (formatObjectAsMarkdown fields (name ++ "s")) = true.
Proof.
  split; [ apply drop_final_s_plural | ].
  unfold formatObjectAsMarkdown. rewrite fold_pushField, drop_final_s_plural.
  unfold push. cbn [List.app]. rewrite join_cons by discriminate.
  match goal with
  | |- Str.starts_with ?t (?h ++ ?nl ++ ?rest) = true =>
      replace (h ++ nl ++ rest) with (t ++ rest)
        by now rewrite !append_associative
  end.
  apply starts_with_app.
Qed.

End LabelLaws.

(** ** Laws of the connection test *)

Module ConnectionLaws.
Import Js Client Operations.


End ConnectionLaws.

(** ** Laws of the Link header parser *)

Module LinkHeaderLaws.
Import Js Pagination FormatterFacts.

Lemma every_app (p : ascii -> bool) (a b : string) :
  every p (a ++ b) = (every p a && every p b)%bool.
Proof.
  induction a as [ | c rest IH ]; [ reflexivity | ].
  cbn [append every]. rewrite IH. apply andb_assoc.
Qed.

Lemma every_weaken (p q : ascii -> bool) (s : string) :
  (forall c, p c = true -> q c = true) -> every p s = true -> every q s = true.
Proof.
  intros Hpq. induction s as [ | c rest IH ]; [ reflexivity | ].
  cbn [every]. intros H. apply andb_prop in H. destruct H as [Hc Hrest].
  now rewrite (Hpq c Hc), IH.
Qed.

Lemma lit_app (t s : string) : lit t (t ++ s) = Some s.
Proof.
  induction t as [ | c rest IH ]; [ reflexivity | ].
  cbn [append lit]. now rewrite Ascii.eqb_refl.
Qed.

Lemma lit_starts_with (t s : string) : Str.starts_with t s = false -> lit t s = None.
Proof.
  revert s. induction t as [ | a t' IH ]; intros s; [ discriminate | ].
  destruct s as [ | b s' ]; [ reflexivity | ].
  cbn [Str.starts_with lit]. destruct (Ascii.eqb a b); [ apply IH | reflexivity ].
Qed.

(** The rest of the expression fails after every run: the star fails. *)
Lemma many_none (A : Type) (p : ascii -> bool) (s : string) :
  forall k : string -> string -> option A,
    (forall t r, t ++ r = s -> every p t = true -> k t r = None) ->
    many p k s = None.
Proof.
  induction s as [ | c rest IH ]; intros k Hfail.
  - cbn. now apply Hfail.
  - cbn [many]. destruct (p c) eqn:Hc; [ | now apply Hfail ].
    rewrite IH; [ now apply Hfail | ].
    intros t r Heq Ht. apply Hfail; [ cbn; now rewrite Heq | cbn; now rewrite Hc ].
Qed.

(** The star stops on the run [a] when the rest of the expression matches
    there and after no longer run. *)
Lemma many_found (A : Type) (p : ascii -> bool) (a b : string) (v : A) :
  forall k : string -> string -> option A,
    every p a = true ->
    k a b = Some v ->
    (forall t r, t ++ r = a ++ b -> (String.length a < String.length t)%nat ->
                 every p t = true -> k t r = None) ->
    many p k (a ++ b) = Some v.
Proof.
  induction a as [ | c a' IH ]; intros k Ha Hk Hfail.
  - cbn [append]. destruct b as [ | c rest ]; [ exact Hk | ].
    cbn [many]. destruct (p c) eqn:Hc; [ | exact Hk ].
    rewrite many_none; [ exact Hk | ].
    intros t r Heq Ht. apply Hfail.
    + cbn. now rewrite Heq.
    + cbn. lia.
    + cbn. now rewrite Hc.
  - cbn [every] in Ha. apply andb_prop in Ha. destruct Ha as [Hc Ha'].
    cbn [append many]. rewrite Hc.
    rewrite (IH (fun taken left => k (String c taken) left)); [ reflexivity | .. ].
    + exact Ha'.
    + exact Hk.
    + intros t r Heq Hlen Ht. apply Hfail.
      * cbn. now rewrite Heq.
      * cbn. lia.
      * cbn. now rewrite Hc.
Qed.

(** The star takes the whole run when the rest matches after it. *)
Lemma many_longest (A : Type) (p : ascii -> bool) (a b : string) (v : A) :
  forall k : string -> string -> option A,
    every p a = true -> stops p b -> k a b = Some v -> many p k (a ++ b) = Some v.
Proof.
  induction a as [ | c a' IH ]; intros k Ha Hb Hk.
  - cbn [append]. destruct b as [ | c rest ]; [ exact Hk | ].
    cbn [many]. cbn in Hb. now rewrite Hb.
  - cbn [every] in Ha. apply andb_prop in Ha. destruct Ha as [Hc Ha'].
    cbn [append many]. rewrite Hc.
    now rewrite (IH (fun taken left => k (String c taken) left)).
Qed.

Lemma many1_longest (A : Type) (p : ascii -> bool) (a b : string) (v : A)
    (k : string -> string -> option A) :
  a <> "" -> every p a = true -> stops p b -> k a b = Some v ->
  many1 p k (a ++ b) = Some v.
Proof.
  destruct a as [ | c a' ]; [ congruence | ]. intros _ Ha Hb Hk.
  cbn [every] in Ha. apply andb_prop in Ha. destruct Ha as [Hc Ha'].
  cbn [append many1]. rewrite Hc.
  now apply (many_longest _ p a' b v (fun taken left => k (String c taken) left)).
Qed.

(** A text longer than [a] at the head of [a ++ b] goes on into [b]. *)
Lemma longer_prefix (a b t r : string) :
  t ++ r = a ++ b -> (String.length a < String.length t)%nat ->
  exists c t', t = a ++ String c t' /\ b = String c t' ++ r.
Proof.
  revert t. induction a as [ | x a' IH ]; intros t Heq Hlen.
  - destruct t as [ | c t' ]; [ cbn in Hlen; lia | ].
    exists c, t'. split; [ reflexivity | now symmetry ].
  - destruct t as [ | y t0 ]; [ cbn in Hlen; lia | ].
    cbn [append] in Heq. injection Heq as -> Heq.
    destruct (IH t0 Heq) as [c [t' [-> Hb]]]; [ cbn in Hlen; lia | ].
    now exists c, t'.
Qed.

(** A text without [>] at the head of [w ++ ">..."] lies within [w]. *)
Lemma within_run (t r w tail : string) :
  t ++ r = w ++ String ">" tail -> every not_gt t = true ->
  exists u, w = t ++ u /\ r = u ++ String ">" tail.
Proof.
  revert w. induction t as [ | c t' IH ]; intros w Heq Ht.
  - exists w. now split.
  - cbn [every] in Ht. apply andb_prop in Ht. destruct Ht as [Hc Ht'].
    destruct w as [ | d w' ]; cbn [append] in Heq.
    + injection Heq as -> _. discriminate Hc.
    + injection Heq as -> Heq. destruct (IH w' Heq Ht') as [u [-> Hr]].
      now exists u.
Qed.

(** A pattern without [>] that starts [u ++ ">..."] starts [u]. *)
Lemma starts_with_within (pattern u tail : string) :
  every not_gt pattern = true -> pattern <> "" ->
  Str.starts_with pattern (u ++ String ">" tail) = Str.starts_with pattern u.
Proof.
  revert u. induction pattern as [ | a rest IH ]; intros u Hp Hne; [ congruence | ].
  cbn [every] in Hp. apply andb_prop in Hp. destruct Hp as [Ha Hrest].
  destruct u as [ | b u' ].
  - cbn [append Str.starts_with].
    unfold not_gt in Ha. apply negb_true_iff in Ha. now rewrite Ha.
  - cbn [append Str.starts_with]. destruct (Ascii.eqb a b); [ | reflexivity ].
    destruct rest as [ | a' rest' ]; [ reflexivity | ].
    apply IH; [ exact Hrest | discriminate ].
Qed.

(** A pattern that does not occur in [x ++ u] does not start [u]. *)
Lemma not_included_suffix (pattern x u : string) :
  Str.includes pattern (x ++ u) = false -> Str.starts_with pattern u = false.
Proof.
  induction x as [ | c rest IH ]; cbn [append]; intros H.
  - rewrite includes_unfold in H. now destruct (Str.starts_with pattern u).
  - rewrite includes_unfold in H.
    destruct (Str.starts_with pattern (String c (rest ++ u))); [ discriminate H | ].
    now apply IH.
Qed.

Lemma link_parts (l : Link) :
  well_formed_link l = true ->
  every plain (before l) = true /\ every plain (cursor l) = true
  /\ every plain (after l) = true /\ cursor l <> ""
  /\ every (fun c => negb (Ascii.eqb c "&")) (cursor l) = true
  /\ (after l = "" \/ Str.starts_with "&" (after l) = true)
  /\ Str.includes "page_info=" (cursor l ++ after l) = false
  /\ rel l <> "" /\ every is_word (rel l) = true.
Proof.
  unfold well_formed_link. intros H.
  repeat (apply andb_prop in H; destruct H as [H ?]).
  repeat split; try assumption.
  - intros Hc. rewrite Hc in *. discriminate.
  - match goal with
    | Ho : (_ || _)%bool = true |- _ =>
        apply orb_prop in Ho; destruct Ho as [Ho | Ho];
        [ left; now apply String.eqb_eq | now right ]
    end.
  - now apply negb_true_iff.
  - intros Hr. rewrite Hr in *. discriminate.
Qed.

Lemma plain_not_gt (s : string) : every plain s = true -> every not_gt s = true.
Proof.
  apply every_weaken. intros c Hc. unfold plain in Hc. now apply andb_prop in Hc.
Qed.

(** The end of a link, from the [>] on. *)
Lemma link_end (l : Link) (pageInfo : string) :
  rel l <> "" -> every is_word (rel l) = true ->
  match lit ">;" (">; rel=" ++ Str.of_char Str.dquote ++ rel l ++ Str.of_char Str.dquote) with
  | Some s =>
      many Str.is_space
        (fun _ s =>
           match lit ("rel=" ++ Str.of_char Str.dquote) s with
           | Some s =>
               many1 is_word
                 (fun rel s =>
                    match lit (Str.of_char Str.dquote) s with
                    | Some _ => Some (pageInfo, rel)
                    | None => None
                    end) s
           | None => None
           end) s
  | None => None
  end = Some (pageInfo, rel l).
Proof.
  intros Hne Hword.
  change (">; rel=" ++ Str.of_char Str.dquote ++ rel l ++ Str.of_char Str.dquote)
    with (">;" ++ " " ++ ("rel=" ++ Str.of_char Str.dquote)
               ++ rel l ++ Str.of_char Str.dquote).
  rewrite lit_app.
  apply many_longest; [ reflexivity | reflexivity | ].
  rewrite lit_app.
  apply many1_longest; [ exact Hne | exact Hword | reflexivity | ].
  reflexivity.
Qed.

Lemma append_assoc (a b c : string) : (a ++ b) ++ c = a ++ (b ++ c).
Proof.
  induction a as [ | x rest IH ]; [ reflexivity | ].
  cbn [append]. now rewrite IH.
Qed.

Lemma cursor_class (s : string) :
  every plain s = true -> every (fun c => negb (Ascii.eqb c "&")) s = true ->
  every not_gt_amp s = true.
Proof.
  induction s as [ | c rest IH ]; [ reflexivity | ].
  cbn [every]. intros Hp Ha.
  apply andb_prop in Hp. destruct Hp as [Hc Hrest].
  apply andb_prop in Ha. destruct Ha as [Ha Hrest'].
  unfold plain in Hc. apply andb_prop in Hc. destruct Hc as [Hg _].
  rewrite IH by assumption. unfold not_gt_amp. now rewrite Hg, Ha.
Qed.

(** [page_info=] does not occur again after its first character. *)
Lemma once_more (rest : string) :
  Str.includes "page_info=" rest = false ->
  Str.includes "page_info=" ("age_info=" ++ rest) = false.
Proof.
  intros Honce. cbn [append].
  do 9 (rewrite includes_unfold; cbn [Str.starts_with Ascii.eqb Bool.eqb andb]).
  exact Honce.
Qed.

(** The expression matches at the head of a well-formed link, and its
    groups are the cursor and the relation. *)
Lemma matchLinkAt_link (l : Link) :
  well_formed_link l = true -> matchLinkAt (link_text l) = Some (cursor l, rel l).
Proof.
  intros Hl.
  destruct (link_parts l Hl)
    as [Hbefore [Hcursor [Hafter [Hne [Hamp [Hnext [Honce [Hrel Hword]]]]]]]].
  unfold matchLinkAt, link_text.
  set (tail := ">; rel=" ++ Str.of_char Str.dquote ++ rel l ++ Str.of_char Str.dquote).
  assert (exists rest, tail = String ">" rest) as [rest Htail] by (eexists; reflexivity).
  rewrite lit_app.
  apply many_found.
  - now apply plain_not_gt.
  - cbv beta. rewrite lit_app.
    apply many1_longest.
    + exact Hne.
    + now apply cursor_class.
    + destruct Hnext as [-> | Hnext].
      * cbn [append]. rewrite Htail. reflexivity.
      * destruct (after l) as [ | c s ]; [ discriminate Hnext | ].
        cbn [Str.starts_with] in Hnext. apply andb_prop in Hnext.
        destruct Hnext as [Hc _]. apply Ascii.eqb_eq in Hc. subst c. reflexivity.
    + apply many_longest.
      * now apply plain_not_gt.
      * rewrite Htail. reflexivity.
      * subst tail. now apply link_end.
  - intros t r Heq Hlen Ht. cbv beta.
    apply longer_prefix in Heq; [ | exact Hlen ].
    destruct Heq as [c [t' [-> Heq]]].
    rewrite every_app in Ht. apply andb_prop in Ht. destruct Ht as [_ Ht].
    rewrite lit_starts_with; [ reflexivity | ].
    rewrite Htail in Heq.
    rewrite <- (append_assoc (cursor l)), <- (append_assoc "page_info=") in Heq.
    symmetry in Heq. apply within_run in Heq; [ | exact Ht ].
    destruct Heq as [u [Hu ->]].
    rewrite starts_with_within by (try reflexivity; discriminate).
    cbn [append] in Hu. injection Hu as <- Hu.
    apply (not_included_suffix _ t'). rewrite <- Hu.
    now apply once_more.
Qed.

(** The first match of a piece of the header that is a well-formed link,
    alone or after the space that follows the comma. *)
Lemma matchLink_link (l : Link) :
  well_formed_link l = true ->
  matchLink (link_text l) = Some (cursor l, rel l)
  /\ matchLink (" " ++ link_text l) = Some (cursor l, rel l).
Proof.
  intros Hl.
  assert (matchLink (link_text l) = Some (cursor l, rel l)) as Hhere.
  { destruct (link_text l) as [ | c rest ] eqn:Htext;
      cbn [matchLink]; rewrite <- Htext; now rewrite matchLinkAt_link. }
  split; [ exact Hhere | ].
  cbn [append matchLink]. exact Hhere.
Qed.

Lemma setLink_link (result : props) (l : Link) :
  well_formed_link l = true ->
  setLink result (link_text l) = setWellFormed result l
  /\ setLink result (" " ++ link_text l) = setWellFormed result l.
Proof.
  intros Hl. destruct (matchLink_link l Hl) as [Hhere Hafter].
  unfold setLink. rewrite Hhere, Hafter. now split.
Qed.

Lemma split_comma_plain (s : string) :
  every no_comma s = true -> split_comma s = [s].
Proof.
  induction s as [ | c rest IH ]; [ reflexivity | ].
  cbn [every split_comma]. intros H. apply andb_prop in H. destruct H as [Hc Hrest].
  unfold no_comma in Hc. apply negb_true_iff in Hc. now rewrite Hc, IH.
Qed.

Lemma split_comma_app (a s : string) :
  every no_comma a = true -> split_comma (a ++ String "," s) = a :: split_comma s.
Proof.
  induction a as [ | c rest IH ]; [ reflexivity | ].
  cbn [every append split_comma]. intros H. apply andb_prop in H.
  destruct H as [Hc Hrest].
  unfold no_comma in Hc. apply negb_true_iff in Hc. now rewrite Hc, IH.
Qed.

Lemma word_no_comma (c : ascii) : is_word c = true -> no_comma c = true.
Proof.
  destruct c as [[] [] [] [] [] [] [] []]; intros H;
    first [ reflexivity | discriminate H ].
Qed.

Lemma link_no_comma (l : Link) :
  well_formed_link l = true -> every no_comma (link_text l) = true.
Proof.
  intros Hl.
  destruct (link_parts l Hl)
    as [Hbefore [Hcursor [Hafter [_ [_ [_ [_ [_ Hword]]]]]]]].
  assert (forall s, every plain s = true -> every no_comma s = true) as Hplain.
  { intros s. apply every_weaken. intros c Hc. unfold plain in Hc.
    now apply andb_prop in Hc. }
  unfold link_text. rewrite !every_app.
  rewrite (Hplain _ Hbefore), (Hplain _ Hcursor), (Hplain _ Hafter).
  rewrite (every_weaken _ _ _ word_no_comma Hword). reflexivity.
Qed.

(** The pieces of a header of well-formed links: the first link, and the
    others after the space that follows the comma. *)
Lemma split_comma_links (l : Link) (ls : list Link) :
  forallb well_formed_link (l :: ls) = true ->
  split_comma (Str.join ", " (map link_text (l :: ls)))
  = link_text l :: map (fun x => " " ++ link_text x) ls.
Proof.
  revert l. induction ls as [ | l' ls' IH ]; intros l Hls.
  - cbn [forallb] in Hls. apply andb_prop in Hls. destruct Hls as [Hl _].
    cbn [map Str.join]. now apply split_comma_plain, link_no_comma.
  - cbn [forallb] in Hls. apply andb_prop in Hls. destruct Hls as [Hl Hrest].
    change (map link_text (l :: l' :: ls'))
      with (link_text l :: map link_text (l' :: ls')).
    rewrite join_cons by discriminate.
    change (", " ++ Str.join ", " (map link_text (l' :: ls')))
      with (String "," (String " " (Str.join ", " (map link_text (l' :: ls'))))).
    rewrite split_comma_app by now apply link_no_comma.
    f_equal. cbn [split_comma Ascii.eqb Bool.eqb].
    now rewrite (IH l' Hrest).
Qed.

Lemma fold_setLink_links (ls : list Link) (result : props) :
  forallb well_formed_link ls = true ->
  fold_left setLink (map (fun x => " " ++ link_text x) ls) result
  = fold_left setWellFormed ls result.
Proof.
  revert result. induction ls as [ | l ls' IH ]; intros result Hls; [ reflexivity | ].
  cbn [forallb] in Hls. apply andb_prop in Hls. destruct Hls as [Hl Hrest].
  cbn [map fold_left]. rewrite (proj2 (setLink_link result l Hl)). now apply IH.
Qed.

(** X30.  From a header made of well-formed links
    [<url>; rel="relation"] separated by a comma and a space, where the URL
    holds [page_info=cursor] once, [parseLinkHeader] reads the cursors: the
    result holds under [next] and [previous] the cursor of the last link
    of that relation, and nothing for any other relation. *)
Theorem parseLinkHeader_well_formed (links : list Link) :
  links <> [] ->
  forallb well_formed_link links = true ->
  parseLinkHeader (Some (Str.join ", " (map link_text links)))
  = VObj (fold_left setWellFormed links []).
Proof.
  intros Hne Hlinks. destruct links as [ | l ls ]; [ congruence | ].
  unfold parseLinkHeader.
  assert (String.eqb (Str.join ", " (map link_text (l :: ls))) "" = false) as ->.
  { destruct ls; cbn [map Str.join]; reflexivity. }
  rewrite split_comma_links by exact Hlinks.
  cbn [forallb] in Hlinks. apply andb_prop in Hlinks. destruct Hlinks as [Hl Hrest].
  cbn [fold_left]. rewrite (proj1 (setLink_link [] l Hl)).
  now rewrite fold_setLink_links.
Qed.

Lemma parseLinkHeader_well_formed_witness :
  parseLinkHeader
    (Some ("<https://shop.example/admin/api/2024-01/products.json?limit=2&page_info=abc>; rel="
           ++ Str.of_char Str.dquote ++ "previous" ++ Str.of_char Str.dquote
           ++ ", <https://shop.example/admin/api/2024-01/products.json?limit=2&page_info=xyz>; rel="
           ++ Str.of_char Str.dquote ++ "next" ++ Str.of_char Str.dquote))
  = VObj [("previous", VStr "abc"); ("next", VStr "xyz")].
Proof.
  apply (parseLinkHeader_well_formed
           [ {| before := "https://shop.example/admin/api/2024-01/products.json?limit=2&";
                cursor := "abc"; after := ""; rel := "previous" |};
             {| before := "https://shop.example/admin/api/2024-01/products.json?limit=2&";
                cursor := "xyz"; after := ""; rel := "next" |} ]).
  - discriminate.
  - reflexivity.
Defined.

End LinkHeaderLaws.
